(** * bluelog: device fingerprint registry and presence tracker

    A shallow embedding of [bluelogger.py] and the properties of its
    fingerprint engine, presence state machine, dwell aggregation,
    notification policy and registry store.

    Modelling conventions.
    - A Python [str] is a [string]: the sequence of its UTF-8 bytes.  The
      byte-wise order [String.le] is the code-point order Python's [sorted]
      uses.  [strip] removes the whitespace of [str.isspace], ASCII or
      not.  [lower] maps the ASCII capitals and keeps every other byte:
      [str.lower] maps no other character to ASCII ones, but for U+212A
      (the Kelvin sign, to k), and the program compares lowercased text
      with ASCII text that holds no k.
    - A Python [int] is a [Z].  An epoch ([time.time()], a finite
      [float]) is the rational [Q] it stands for.  The staleness test
      compares the exact difference of two epochs with the timeout; the
      dwell time and the sums of the dwell buckets are rounded to binary64
      ([round64]).
    - A value that may be [None] (or a key that [dict.get] may miss) is an
      [option].
    - A [dict] is a [gmap]; a Python [list] is a [list].
    - The two clock reads of an operation ([utc_now_iso()], [now_epoch()])
      are arguments of its model.
    - A raised exception is the [Raise] result of the [Exc] type. *)

From Stdlib Require Import Ascii String DecimalString DecimalZ.
From Stdlib Require Import QArith Qabs Qpower Qround Qminmax Lqa.
From stdpp Require Import gmap strings list sorting pretty.

Local Open Scope string_scope.
Local Open Scope Z_scope.

(** ** Python helpers *)

(** [x or []] for an optional list: [None] and [[]] are both falsy. *)
Definition or_empty {A} (x : option (list A)) : list A := default [] x.

(** [sorted(set(l))]: the distinct elements of [l] in increasing order. *)
Definition sorted_set {A} `{EqDecision A} (R : relation A)
    `{∀ x y, Decision (R x y)} (l : list A) : list A :=
  merge_sort R (remove_dups l).

(** [sep.join(l)]. *)
Fixpoint join (sep : string) (l : list string) : string :=
  match l with
  | [] => ""
  | [s] => s
  | s :: l' => s +:+ sep +:+ join sep l'
  end.

(** [str(x)] for an [int]. *)
Definition str_int (x : Z) : string := pretty x.

(** Two optional lists denote the same set: [None] denotes the empty one. *)
Definition same_set {A} (x y : option (list A)) : Prop :=
  ∀ a, a ∈ or_empty x ↔ a ∈ or_empty y.

(** ** SHA-1 ([hashlib.sha1]), on 32-bit words kept in [Z] *)

Module Sha1.

Definition mask32 : Z := 0xFFFFFFFF.

Definition add32 (a b : Z) : Z := Z.land (a + b) mask32.

Definition rotl32 (n x : Z) : Z :=
  Z.land (Z.lor (Z.shiftl x n) (Z.shiftr x (32 - n))) mask32.

Definition not32 (x : Z) : Z := Z.lxor x mask32.

Definition bytes_of_string (s : string) : list Z :=
  (λ c, Z.of_N (N_of_ascii c)) <$> list_ascii_of_string s.

(** Big-endian bytes of [x], [n] of them. *)
Fixpoint be_bytes (n : nat) (x : Z) : list Z :=
  match n with
  | O => []
  | S n' => Z.land (Z.shiftr x (8 * Z.of_nat n')) 0xFF :: be_bytes n' x
  end.

(** The message, a 1 bit, zeros up to 56 mod 64 bytes, the bit length. *)
Definition pad (msg : list Z) : list Z :=
  let len := Z.of_nat (length msg) in
  msg ++ [0x80] ++ replicate (Z.to_nat ((55 - len) `mod` 64)) 0
      ++ be_bytes 8 (8 * len).

Fixpoint words_of_bytes (fuel : nat) (bs : list Z) : list Z :=
  match fuel, bs with
  | S fuel', b0 :: b1 :: b2 :: b3 :: bs' =>
      (Z.shiftl b0 24 + Z.shiftl b1 16 + Z.shiftl b2 8 + b3)
        :: words_of_bytes fuel' bs'
  | _, _ => []
  end.

(** The message schedule, most recent word first. *)
Fixpoint extend (n : nat) (rw : list Z) : list Z :=
  match n with
  | O => rw
  | S n' =>
      let w := rotl32 1 (Z.lxor (Z.lxor (nth 2 rw 0) (nth 7 rw 0))
                                (Z.lxor (nth 13 rw 0) (nth 15 rw 0))) in
      extend n' (w :: rw)
  end.

Definition schedule (block : list Z) : list Z :=
  rev (extend 64 (rev block)).

Record state := State { ha : Z; hb : Z; hc : Z; hd : Z; he : Z }.

Definition round (t : nat) (w : Z) (s : state) : state :=
  let '(State a b c d e) := s in
  let '(f, k) :=
    if (t <? 20)%nat then
      (Z.lor (Z.land b c) (Z.land (not32 b) d), 0x5A827999)
    else if (t <? 40)%nat then
      (Z.lxor (Z.lxor b c) d, 0x6ED9EBA1)
    else if (t <? 60)%nat then
      (Z.lor (Z.lor (Z.land b c) (Z.land b d)) (Z.land c d), 0x8F1BBCDC)
    else
      (Z.lxor (Z.lxor b c) d, 0xCA62C1D6) in
  let temp := add32 (add32 (add32 (add32 (rotl32 5 a) f) e) k) w in
  State temp a (rotl32 30 b) c d.

Fixpoint rounds (t : nat) (ws : list Z) (s : state) : state :=
  match ws with
  | [] => s
  | w :: ws' => rounds (S t) ws' (round t w s)
  end.

Definition compress (s : state) (block : list Z) : state :=
  let s' := rounds 0 (schedule block) s in
  State (add32 (ha s) (ha s')) (add32 (hb s) (hb s')) (add32 (hc s) (hc s'))
        (add32 (hd s) (hd s')) (add32 (he s) (he s')).

Fixpoint blocks (fuel : nat) (ws : list Z) : list (list Z) :=
  match fuel, ws with
  | _, [] => []
  | O, _ => []
  | S fuel', _ => take 16 ws :: blocks fuel' (drop 16 ws)
  end.

Definition init : state :=
  State 0x67452301 0xEFCDAB89 0x98BADCFE 0x10325476 0xC3D2E1F0.

Definition digest (msg : list Z) : state :=
  let bs := pad msg in
  let ws := words_of_bytes (length bs) bs in
  foldl compress init (blocks (length ws) ws).

Definition hex_digit (x : Z) : ascii :=
  ascii_of_N (Z.to_N (if x <? 10 then 48 + x else 87 + x)).

(** [n] lowercase hexadecimal digits of [x], most significant first. *)
Fixpoint hex (n : nat) (x : Z) : string :=
  match n with
  | O => ""
  | S n' => String (hex_digit (Z.land (Z.shiftr x (4 * Z.of_nat n')) 0xF))
                   (hex n' x)
  end.

(** [hashlib.sha1(s.encode("utf-8")).hexdigest()]. *)
Definition hexdigest (s : string) : string :=
  let '(State a b c d e) := digest (bytes_of_string s) in
  hex 8 a +:+ hex 8 b +:+ hex 8 c +:+ hex 8 d +:+ hex 8 e.

End Sha1.

(** [s[:n]]. *)
Fixpoint str_take (n : nat) (s : string) : string :=
  match n, s with
  | S n', String c s' => String c (str_take n' s')
  | _, _ => ""
  end.

(** ** Fingerprint engine *)

Record Material := mkMaterial {
  manufacturer_ids : list Z;
  service_uuids : list string;
  service_data_keys : list string
}.

Definition compute_fingerprint (mfg_ids : option (list Z))
    (service_uuids service_data_keys : option (list string))
    : string * Material :=
  let mfg_part := join "," (str_int <$> sorted_set Z.le (or_empty mfg_ids)) in
  let svc_part := join "," (sorted_set String.le (or_empty service_uuids)) in
  let sdk_part := join "," (sorted_set String.le (or_empty service_data_keys)) in
  let raw := "mfg=" +:+ mfg_part +:+ "|svc=" +:+ svc_part +:+ "|sdk=" +:+ sdk_part in
  let fp := str_take 12 (Sha1.hexdigest raw) in
  let material :=
    {| manufacturer_ids := sorted_set Z.le (or_empty mfg_ids);
       service_uuids := sorted_set String.le (or_empty service_uuids);
       service_data_keys := sorted_set String.le (or_empty service_data_keys) |} in
  (fp, material).

(** ** Classifier *)

Definition lower_ascii (c : ascii) : ascii :=
  let n := N_of_ascii c in
  if ((65 <=? n) && (n <=? 90))%N then ascii_of_N (n + 32) else c.

(** [s.lower()]. *)
Fixpoint lower (s : string) : string :=
  match s with
  | "" => ""
  | String c s' => String (lower_ascii c) (lower s')
  end.

(** [s.startswith(p)]. *)
Fixpoint startswith (p s : string) : bool :=
  match p, s with
  | "", _ => true
  | String a p', String b s' => bool_decide (a = b) && startswith p' s'
  | String _ _, "" => false
  end.

(** [x in l]. *)
Definition py_in {A} `{EqDecision A} (x : A) (l : list A) : bool :=
  bool_decide (x ∈ l).

Definition classify_tags (mfg_ids : option (list Z))
    (service_uuids : option (list string)) : list string * string :=
  let tags : list string := [] in
  let tags := if py_in 76 (or_empty mfg_ids)
              then (tags ++ ["vendor:apple"])%list else tags in
  let tags := if py_in 117 (or_empty mfg_ids)
              then (tags ++ ["vendor:samsung"])%list else tags in
  let tags := if py_in 224 (or_empty mfg_ids)
              then (tags ++ ["vendor:google"])%list else tags in
  let tags := if existsb (λ u, startswith "0000feaa" (lower u))
                         (or_empty service_uuids)
              then (tags ++ ["beacon:eddystone"])%list else tags in
  let primary := match tags with t :: _ => t | [] => "unclassified" end in
  (sorted_set String.le tags, primary).

(** ** Exceptions *)

Inductive exn :=
  ValueError | OSError | JSONDecodeError | UnicodeDecodeError | RecursionError.

Inductive Exc (A : Type) :=
  | Ok (a : A)
  | Raise (e : exn).
Global Arguments Ok {A} a.
Global Arguments Raise {A} e.

Global Instance Exc_ret : MRet Exc := λ A a, Ok a.
Global Instance Exc_bind : MBind Exc := λ A B f x,
  match x with
  | Ok a => f a
  | Raise e => Raise e
  end.

(** ** Calendar: [datetime.fromtimestamp(t, tz=timezone.utc).date().isoformat()] *)

(** Round to the nearest integer, ties to even. *)
Definition round_half_even (x : Q) : Z :=
  let f := Qfloor x in
  match (x - inject_Z f ?= 1 # 2)%Q with
  | Lt => f
  | Gt => f + 1
  | Eq => if Z.even f then f else f + 1
  end.

(** Year, month and day of the day [days] days after 1970-01-01. *)
Definition civil_from_days (days : Z) : Z * Z * Z :=
  let z := days + 719468 in
  let era := z `div` 146097 in
  let doe := z - era * 146097 in
  let yoe := (doe - doe `div` 1460 + doe `div` 36524 - doe `div` 146096) `div` 365 in
  let y := yoe + era * 400 in
  let doy := doe - (365 * yoe + yoe `div` 4 - yoe `div` 100) in
  let mp := (5 * doy + 2) `div` 153 in
  let d := doy - (153 * mp + 2) `div` 5 + 1 in
  let m := if mp <? 10 then mp + 3 else mp - 9 in
  (if m <=? 2 then y + 1 else y, m, d).

Fixpoint zeros (n : nat) : string :=
  match n with
  | O => ""
  | S n' => String "0" (zeros n')
  end.

(** ["%0*d"] for a non-negative number. *)
Definition zfill (width : nat) (x : Z) : string :=
  let s := pretty x in
  zeros (width - String.length s) +:+ s.

Definition isoformat (y m d : Z) : string :=
  zfill 4 y +:+ "-" +:+ zfill 2 m +:+ "-" +:+ zfill 2 d.

(** The UTC date of epoch [t].  The library rounds [t] to microseconds
    (ties to even) and raises outside the years 1 to 9999. *)
Definition utc_date_isoformat (t : Q) : Exc string :=
  let us := round_half_even (t * 1000000) in
  let '(y, m, d) := civil_from_days (us `div` 86400000000) in
  if (1 <=? y) && (y <=? 9999) then Ok (isoformat y m d) else Raise ValueError.

(** ** Floats: binary64 sums and differences

    A finite [float] is the rational it stands for.  The sign of a zero is
    not kept: no result below depends on it, because what is added to a
    bucket is [+0.0] or positive. *)

Inductive f64 :=
  | Finite (x : Q)
  | Infinite (negative : bool)
  | NaN.

(** [floor(log2(abs(x)))] for a non-zero [x]. *)
Definition ilog2 (x : Q) : Z :=
  let e := Z.log2 (Z.abs (Qnum x)) - Z.log2 (Zpos (Qden x)) in
  if Qle_bool (2 ^ e) (Qabs x) then e else e - 1.

(** The binary64 value nearest to [x], ties to the even mantissa: 53 bits
    of mantissa, the exponents of the subnormal numbers from -1022 down,
    and infinity from [2 ^ 1024] on. *)
Definition round64 (x : Q) : f64 :=
  if Qeq_bool x 0 then Finite 0
  else
    let e := Z.max (ilog2 x) (-1022) in
    let ulp := (2 ^ (e - 52))%Q in
    let m := round_half_even (x / ulp) in
    let y := (inject_Z m * ulp)%Q in
    if Qle_bool (2 ^ 1024) (Qabs y) then Infinite (m <? 0) else Finite y.

(** [x - y] for two finite floats. *)
Definition fsub (x y : Q) : f64 := round64 (x - y).

(** [x + y]. *)
Definition fadd (x y : f64) : f64 :=
  match x, y with
  | NaN, _ | _, NaN => NaN
  | Infinite s, Infinite s' => if Bool.eqb s s' then Infinite s else NaN
  | Infinite s, Finite _ | Finite _, Infinite s => Infinite s
  | Finite a, Finite b => round64 (a + b)
  end.

(** [max(0.0, x)]: [x] when [x > 0.0], and [0.0] otherwise. *)
Definition fmax0 (x : f64) : f64 :=
  match x with
  | Finite a => if Qle_bool a 0 then Finite 0 else Finite a
  | Infinite false => Infinite false
  | Infinite true | NaN => Finite 0
  end.

(** ** Data model *)

Definition MAX_LAST_EVENTS : nat := 25.
Definition LEAVE_TIMEOUT : Z := 120.
Definition SUPPRESS_NOTIFY_NAMES : list string := ["your_devices_here"].
Definition BLE_ADAPTER : string := "hci1".

Record Event := mkEvent {
  ev_time : string;
  ev_address : option string;
  ev_rssi : option Z;
  ev_source : option string
}.

Record DeviceRecord := mkDeviceRecord {
  fp : string;
  fingerprint : Material;
  tags : list string;
  primary_tag : option string;
  first_seen : string;
  last_seen : string;
  seen_count : option Z;
  addresses : list string;
  names_seen : list string;
  best_rssi : option Z;
  last_rssi : option Z;
  last_events : list Event;
  present : bool;
  last_seen_ts : option Q;
  last_left : option string;
  last_enter : option string;
  last_enter_ts : option Q;
  last_left_ts : option Q;
  enter_count : option Z;
  leave_count : option Z;
  reenter_count : option Z;
  presence_by_day : gmap string f64
}.

(** [rec[key] = v], one setter per key the tracker assigns. *)
Definition set_last_seen (v : string) (r : DeviceRecord) : DeviceRecord :=
  mkDeviceRecord (fp r) (fingerprint r) (tags r) (primary_tag r)
    (first_seen r) v (seen_count r) (addresses r) (names_seen r) (best_rssi r)
    (last_rssi r) (last_events r) (present r) (last_seen_ts r) (last_left r)
    (last_enter r) (last_enter_ts r) (last_left_ts r) (enter_count r)
    (leave_count r) (reenter_count r) (presence_by_day r).

Definition set_seen_count (v : option Z) (r : DeviceRecord) : DeviceRecord :=
  mkDeviceRecord (fp r) (fingerprint r) (tags r) (primary_tag r)
    (first_seen r) (last_seen r) v (addresses r) (names_seen r) (best_rssi r)
    (last_rssi r) (last_events r) (present r) (last_seen_ts r) (last_left r)
    (last_enter r) (last_enter_ts r) (last_left_ts r) (enter_count r)
    (leave_count r) (reenter_count r) (presence_by_day r).

Definition set_addresses (v : list string) (r : DeviceRecord) : DeviceRecord :=
  mkDeviceRecord (fp r) (fingerprint r) (tags r) (primary_tag r)
    (first_seen r) (last_seen r) (seen_count r) v (names_seen r) (best_rssi r)
    (last_rssi r) (last_events r) (present r) (last_seen_ts r) (last_left r)
    (last_enter r) (last_enter_ts r) (last_left_ts r) (enter_count r)
    (leave_count r) (reenter_count r) (presence_by_day r).

Definition set_names_seen (v : list string) (r : DeviceRecord) : DeviceRecord :=
  mkDeviceRecord (fp r) (fingerprint r) (tags r) (primary_tag r)
    (first_seen r) (last_seen r) (seen_count r) (addresses r) v (best_rssi r)
    (last_rssi r) (last_events r) (present r) (last_seen_ts r) (last_left r)
    (last_enter r) (last_enter_ts r) (last_left_ts r) (enter_count r)
    (leave_count r) (reenter_count r) (presence_by_day r).

Definition set_best_rssi (v : option Z) (r : DeviceRecord) : DeviceRecord :=
  mkDeviceRecord (fp r) (fingerprint r) (tags r) (primary_tag r)
    (first_seen r) (last_seen r) (seen_count r) (addresses r) (names_seen r) v
    (last_rssi r) (last_events r) (present r) (last_seen_ts r) (last_left r)
    (last_enter r) (last_enter_ts r) (last_left_ts r) (enter_count r)
    (leave_count r) (reenter_count r) (presence_by_day r).

Definition set_last_rssi (v : option Z) (r : DeviceRecord) : DeviceRecord :=
  mkDeviceRecord (fp r) (fingerprint r) (tags r) (primary_tag r)
    (first_seen r) (last_seen r) (seen_count r) (addresses r) (names_seen r)
    (best_rssi r) v (last_events r) (present r) (last_seen_ts r) (last_left r)
    (last_enter r) (last_enter_ts r) (last_left_ts r) (enter_count r)
    (leave_count r) (reenter_count r) (presence_by_day r).

Definition set_last_events (v : list Event) (r : DeviceRecord) : DeviceRecord :=
  mkDeviceRecord (fp r) (fingerprint r) (tags r) (primary_tag r)
    (first_seen r) (last_seen r) (seen_count r) (addresses r) (names_seen r)
    (best_rssi r) (last_rssi r) v (present r) (last_seen_ts r) (last_left r)
    (last_enter r) (last_enter_ts r) (last_left_ts r) (enter_count r)
    (leave_count r) (reenter_count r) (presence_by_day r).

Definition set_present (v : bool) (r : DeviceRecord) : DeviceRecord :=
  mkDeviceRecord (fp r) (fingerprint r) (tags r) (primary_tag r)
    (first_seen r) (last_seen r) (seen_count r) (addresses r) (names_seen r)
    (best_rssi r) (last_rssi r) (last_events r) v (last_seen_ts r)
    (last_left r) (last_enter r) (last_enter_ts r) (last_left_ts r)
    (enter_count r) (leave_count r) (reenter_count r) (presence_by_day r).

Definition set_last_seen_ts (v : option Q) (r : DeviceRecord) : DeviceRecord :=
  mkDeviceRecord (fp r) (fingerprint r) (tags r) (primary_tag r)
    (first_seen r) (last_seen r) (seen_count r) (addresses r) (names_seen r)
    (best_rssi r) (last_rssi r) (last_events r) (present r) v (last_left r)
    (last_enter r) (last_enter_ts r) (last_left_ts r) (enter_count r)
    (leave_count r) (reenter_count r) (presence_by_day r).

Definition set_last_left (v : option string) (r : DeviceRecord) : DeviceRecord :=
  mkDeviceRecord (fp r) (fingerprint r) (tags r) (primary_tag r)
    (first_seen r) (last_seen r) (seen_count r) (addresses r) (names_seen r)
    (best_rssi r) (last_rssi r) (last_events r) (present r) (last_seen_ts r) v
    (last_enter r) (last_enter_ts r) (last_left_ts r) (enter_count r)
    (leave_count r) (reenter_count r) (presence_by_day r).

Definition set_last_enter (v : option string) (r : DeviceRecord) : DeviceRecord :=
  mkDeviceRecord (fp r) (fingerprint r) (tags r) (primary_tag r)
    (first_seen r) (last_seen r) (seen_count r) (addresses r) (names_seen r)
    (best_rssi r) (last_rssi r) (last_events r) (present r) (last_seen_ts r)
    (last_left r) v (last_enter_ts r) (last_left_ts r) (enter_count r)
    (leave_count r) (reenter_count r) (presence_by_day r).

Definition set_last_enter_ts (v : option Q) (r : DeviceRecord) : DeviceRecord :=
  mkDeviceRecord (fp r) (fingerprint r) (tags r) (primary_tag r)
    (first_seen r) (last_seen r) (seen_count r) (addresses r) (names_seen r)
    (best_rssi r) (last_rssi r) (last_events r) (present r) (last_seen_ts r)
    (last_left r) (last_enter r) v (last_left_ts r) (enter_count r)
    (leave_count r) (reenter_count r) (presence_by_day r).

Definition set_last_left_ts (v : option Q) (r : DeviceRecord) : DeviceRecord :=
  mkDeviceRecord (fp r) (fingerprint r) (tags r) (primary_tag r)
    (first_seen r) (last_seen r) (seen_count r) (addresses r) (names_seen r)
    (best_rssi r) (last_rssi r) (last_events r) (present r) (last_seen_ts r)
    (last_left r) (last_enter r) (last_enter_ts r) v (enter_count r)
    (leave_count r) (reenter_count r) (presence_by_day r).

Definition set_enter_count (v : option Z) (r : DeviceRecord) : DeviceRecord :=
  mkDeviceRecord (fp r) (fingerprint r) (tags r) (primary_tag r)
    (first_seen r) (last_seen r) (seen_count r) (addresses r) (names_seen r)
    (best_rssi r) (last_rssi r) (last_events r) (present r) (last_seen_ts r)
    (last_left r) (last_enter r) (last_enter_ts r) (last_left_ts r) v
    (leave_count r) (reenter_count r) (presence_by_day r).

Definition set_leave_count (v : option Z) (r : DeviceRecord) : DeviceRecord :=
  mkDeviceRecord (fp r) (fingerprint r) (tags r) (primary_tag r)
    (first_seen r) (last_seen r) (seen_count r) (addresses r) (names_seen r)
    (best_rssi r) (last_rssi r) (last_events r) (present r) (last_seen_ts r)
    (last_left r) (last_enter r) (last_enter_ts r) (last_left_ts r)
    (enter_count r) v (reenter_count r) (presence_by_day r).

Definition set_reenter_count (v : option Z) (r : DeviceRecord) : DeviceRecord :=
  mkDeviceRecord (fp r) (fingerprint r) (tags r) (primary_tag r)
    (first_seen r) (last_seen r) (seen_count r) (addresses r) (names_seen r)
    (best_rssi r) (last_rssi r) (last_events r) (present r) (last_seen_ts r)
    (last_left r) (last_enter r) (last_enter_ts r) (last_left_ts r)
    (enter_count r) (leave_count r) v (presence_by_day r).

Definition set_presence_by_day (v : gmap string f64) (r : DeviceRecord)
    : DeviceRecord :=
  mkDeviceRecord (fp r) (fingerprint r) (tags r) (primary_tag r)
    (first_seen r) (last_seen r) (seen_count r) (addresses r) (names_seen r)
    (best_rssi r) (last_rssi r) (last_events r) (present r) (last_seen_ts r)
    (last_left r) (last_enter r) (last_enter_ts r) (last_left_ts r)
    (enter_count r) (leave_count r) (reenter_count r) v.
Record Meta := mkMeta {
  created_utc : option string;
  updated_utc : option string;
  adapter : option string;
  leave_timeout_sec : option Z
}.

Record Registry := mkRegistry {
  meta : Meta;
  devices : gmap string DeviceRecord
}.

Record BLEVisitorLogger := mkLogger {
  path : string;
  registry : Registry;
  dirty : bool;
  last_flush : Q;
  stop : bool
}.

Definition set_updated_utc (v : option string) (m : Meta) : Meta :=
  mkMeta (created_utc m) v (adapter m) (leave_timeout_sec m).

(** The body of the "enter" webhook. *)
Record Payload := mkPayload {
  p_event : string;
  p_fp : string;
  p_name : option string;
  p_address : option string;
  p_rssi : option Z;
  p_best_rssi : option Z;
  p_seen_count : option Z;
  p_primary_tag : option string;
  p_tags : list string;
  p_last_left : option string;
  p_last_enter : option string;
  p_manufacturer_ids : list Z;
  p_service_uuids : list string;
  p_service_data_keys : list string
}.

(** ** Notification policy *)

Definition isspace (c : ascii) : bool :=
  let n := N_of_ascii c in
  ((9 <=? n) && (n <=? 13) || (28 <=? n) && (n <=? 32))%N.

(** The UTF-8 bytes of the two-byte characters [str.isspace] accepts:
    U+0085 and U+00A0. *)
Definition isspace2 (a b : ascii) : bool :=
  let a := N_of_ascii a in
  let b := N_of_ascii b in
  ((a =? 0xC2) && ((b =? 0x85) || (b =? 0xA0)))%N.

(** The UTF-8 bytes of the three-byte characters [str.isspace] accepts:
    U+1680, U+2000 to U+200A, U+2028, U+2029, U+202F, U+205F and U+3000. *)
Definition isspace3 (a b c : ascii) : bool :=
  let a := N_of_ascii a in
  let b := N_of_ascii b in
  let c := N_of_ascii c in
  ((a =? 0xE1) && (b =? 0x9A) && (c =? 0x80)
   || (a =? 0xE2) && (b =? 0x80)
      && ((0x80 <=? c) && (c <=? 0x8A) || (c =? 0xA8) || (c =? 0xA9)
          || (c =? 0xAF))
   || (a =? 0xE2) && (b =? 0x81) && (c =? 0x9F)
   || (a =? 0xE3) && (b =? 0x80) && (c =? 0x80))%N.

(** [s.lstrip()]: the whitespace characters at the head of [s] are
    dropped, whether they take one, two or three bytes. *)
Fixpoint lstrip (s : string) : string :=
  match s with
  | "" => ""
  | String a s1 =>
      if isspace a then lstrip s1
      else
        match s1 with
        | String b s2 =>
            if isspace2 a b then lstrip s2
            else
              match s2 with
              | String c s3 => if isspace3 a b c then lstrip s3 else s
              | "" => s
              end
        | "" => s
        end
  end.

(** Whether [s] is one whitespace character. *)
Definition one_space (s : string) : bool :=
  match s with
  | String a "" => isspace a
  | String a (String b "") => isspace2 a b
  | String a (String b (String c "")) => isspace3 a b c
  | _ => false
  end.

(** [s.rstrip()]: what is left of [s] from a byte on is dropped when it is
    one whitespace character followed by nothing but whitespace. *)
Fixpoint rstrip (s : string) : string :=
  match s with
  | "" => ""
  | String c s' =>
      let t := String c (rstrip s') in
      if one_space t then "" else t
  end.

(** [s.strip()]. *)
Definition strip (s : string) : string := rstrip (lstrip s).

(** [bool(s)] for a string. *)
Definition nonempty (s : string) : bool :=
  match s with "" => false | _ => true end.

Definition _name_suppressed (name : option string) : bool :=
  let n := lower (strip (default "" name)) in
  py_in n SUPPRESS_NOTIFY_NAMES.

Definition _qualifies_for_notify (rec : DeviceRecord) (name : option string)
    : bool :=
  if _name_suppressed name then false
  else
    let has_name := nonempty (strip (default "" name)) in
    let has_vendor := negb (bool_decide (primary_tag rec = Some "unclassified")) in
    has_name || has_vendor.

(** ** Dwell aggregation *)

(** [not enter_ts]: [None] and [0.0] are falsy. *)
Definition falsy_ts (t : option Q) : bool :=
  match t with
  | None => true
  | Some q => Qeq_bool q 0
  end.

Definition _update_presence_time (rec : DeviceRecord) (leave_ts : Q)
    : Exc DeviceRecord :=
  let enter_ts := last_enter_ts rec in
  if falsy_ts enter_ts then Ok rec
  else
    let enter_ts := default 0%Q enter_ts in
    let elapsed := fmax0 (fsub leave_ts enter_ts) in
    day_key ← utc_date_isoformat enter_ts;
    let agg := presence_by_day rec in
    let agg :=
      <[day_key := fadd (default (Finite 0) (agg !! day_key)) elapsed]> agg in
    let rec := set_presence_by_day agg rec in
    Ok (set_last_left_ts (Some leave_ts) rec).

(** ** Staleness sweep *)

(** One turn of the loop of [mark_left_if_stale]: the record after it, and
    whether it set [self.dirty]. *)
Definition mark_left_rec (now_ts : Q) (now_iso : string) (rec : DeviceRecord)
    : Exc (DeviceRecord * bool) :=
  if negb (present rec) then Ok (rec, false)
  else
    let last_seen_ts := default 0%Q (last_seen_ts rec) in
    if Qle_bool last_seen_ts 0 then Ok (rec, false)
    else if Qle_bool (inject_Z LEAVE_TIMEOUT) (now_ts - last_seen_ts) then
      let rec := set_present false rec in
      let rec := set_last_left (Some now_iso) rec in
      let rec := set_leave_count (Some (default 0 (leave_count rec) + 1)) rec in
      rec ← _update_presence_time rec now_ts;
      Ok (rec, true)
    else Ok (rec, false).

Definition sweep_devices (now_ts : Q) (now_iso : string)
    (ds : gmap string DeviceRecord) (dirty0 : bool)
    : Exc (gmap string DeviceRecord * bool) :=
  map_fold
    (λ fp rec acc,
       '(m, d) ← acc;
       '(rec', t) ← mark_left_rec now_ts now_iso rec;
       Ok (<[fp := rec']> m, d || t))
    (Ok (∅, dirty0)) ds.

Definition mark_left_if_stale (self : BLEVisitorLogger) (now_ts : Q)
    (now_iso : string) : Exc BLEVisitorLogger :=
  '(ds, d) ← sweep_devices now_ts now_iso (devices (registry self)) (dirty self);
  let meta := meta (registry self) in
  let meta := if d : bool then set_updated_utc (Some now_iso) meta else meta in
  Ok (mkLogger (path self) (mkRegistry meta ds) d (last_flush self) (stop self)).

(** ** Upsert *)

Definition new_record (fp : string) (material : Material)
    (tags : list string) (primary now_iso : string) : DeviceRecord :=
  {| fp := fp;
     fingerprint := material;
     tags := tags;
     primary_tag := Some primary;
     first_seen := now_iso;
     last_seen := now_iso;
     seen_count := Some 0;
     addresses := [];
     names_seen := [];
     best_rssi := None;
     last_rssi := None;
     last_events := [];
     present := false;
     last_seen_ts := Some 0%Q;
     last_left := None;
     last_enter := None;
     last_enter_ts := None;
     last_left_ts := None;
     enter_count := Some 0;
     leave_count := Some 0;
     reenter_count := Some 0;
     presence_by_day := ∅ |}.

(** [x and x not in l] for an optional string. *)
Definition fresh_in (x : option string) (l : list string) : option string :=
  match x with
  | Some s => if nonempty s && negb (py_in s l) then Some s else None
  | None => None
  end.

(** Lines 248 to 267: the observation fields, updated by every sighting. *)
Definition observe (now_iso : string) (now_ts : Q)
    (address name : option string) (rssi : option Z) (source : option string)
    (rec : DeviceRecord) : DeviceRecord :=
  let rec := set_last_seen now_iso rec in
  let rec := set_last_seen_ts (Some now_ts) rec in
  let rec := set_seen_count (Some (default 0 (seen_count rec) + 1)) rec in
  let rec := set_last_rssi rssi rec in
  let rec :=
    match rssi with
    | Some rssi =>
        match best_rssi rec with
        | None => set_best_rssi (Some rssi) rec
        | Some best =>
            if best <? rssi then set_best_rssi (Some rssi) rec else rec
        end
    | None => rec
    end in
  let rec :=
    match fresh_in address (addresses rec) with
    | Some a => set_addresses (addresses rec ++ [a]) rec
    | None => rec
    end in
  let rec :=
    match fresh_in name (names_seen rec) with
    | Some n => set_names_seen (names_seen rec ++ [n]) rec
    | None => rec
    end in
  let rec :=
    set_last_events (last_events rec ++ [mkEvent now_iso address rssi source])
                    rec in
  set_last_events
    (drop (length (last_events rec) - MAX_LAST_EVENTS) (last_events rec)) rec.

(** Lines 272 to 298: the enter transition of an absent record, and the
    webhook payload when one is posted. *)
Definition enter (now_iso : string) (now_ts : Q)
    (address name : option string) (rssi : option Z)
    (fp : string) (material : Material) (rec : DeviceRecord)
    : DeviceRecord * option Payload :=
  if negb (present rec) then
    let rec := set_enter_count (Some (default 0 (enter_count rec) + 1)) rec in
    let rec :=
      if bool_decide (last_left rec ≠ None)
      then set_reenter_count (Some (default 0 (reenter_count rec) + 1)) rec
      else rec in
    let rec := set_present true rec in
    let rec := set_last_enter (Some now_iso) rec in
    let rec := set_last_enter_ts (Some now_ts) rec in
    if _qualifies_for_notify rec name then
      (rec,
       Some {| p_event := "enter";
               p_fp := fp;
               p_name := name;
               p_address := address;
               p_rssi := rssi;
               p_best_rssi := best_rssi rec;
               p_seen_count := seen_count rec;
               p_primary_tag := primary_tag rec;
               p_tags := tags rec;
               p_last_left := last_left rec;
               p_last_enter := last_enter rec;
               p_manufacturer_ids := manufacturer_ids material;
               p_service_uuids := service_uuids material;
               p_service_data_keys := service_data_keys material |})
    else (rec, None)
  else (rec, None).

(** The fingerprint, its material and the record a sighting is applied to:
    the registered one, or a new absent one. *)
Definition sighting_record (ds : gmap string DeviceRecord) (now_iso : string)
    (mfg_ids : list Z) (service_uuids service_data_keys : option (list string))
    : string * Material * DeviceRecord :=
  let '(fp, material) :=
    compute_fingerprint (Some mfg_ids) service_uuids service_data_keys in
  match ds !! fp with
  | Some rec => (fp, material, rec)
  | None =>
      let '(tags, primary) := classify_tags (Some mfg_ids) service_uuids in
      (fp, material, new_record fp material tags primary now_iso)
  end.

(** [list((mfg_data or {}).keys())]. *)
Definition mfg_keys (mfg_data : option (gmap Z (list Byte.byte))) : list Z :=
  (map_to_list (default ∅ mfg_data)).*1.

(** [upsert]: the logger after the sighting, and the payload handed to
    [post_webhook_async] if any. *)
Definition upsert (self : BLEVisitorLogger) (now_iso : string) (now_ts : Q)
    (address name : option string) (rssi : option Z)
    (mfg_data : option (gmap Z (list Byte.byte)))
    (service_uuids service_data_keys : option (list string))
    (source : option string) : BLEVisitorLogger * option Payload :=
  let mfg_ids := mfg_keys mfg_data in
  let '(fp, material, rec) :=
    sighting_record (devices (registry self)) now_iso mfg_ids
                    service_uuids service_data_keys in
  let rec := observe now_iso now_ts address name rssi source rec in
  let meta := set_updated_utc (Some now_iso) (meta (registry self)) in
  let '(rec, sent) := enter now_iso now_ts address name rssi fp material rec in
  (mkLogger (path self)
            (mkRegistry meta (<[fp := rec]> (devices (registry self))))
            true (last_flush self) (stop self),
   sent).

(** ** JSON documents ([json.dump], [json.loads])

    A [float] is kept as the decimal literal that stands for it:
    [json.dump] writes [float.__repr__], which [float()] reads back to the
    same value.  The decoder enters one level of the interpreter's
    recursion for every list or dict it opens: [depth] is the number of
    levels the recursion limit leaves it when it is called. *)

#[local] Set Warnings "-register-all".

Inductive json :=
  | JNull
  | JBool (b : bool)
  | JInt (n : Z)
  | JFloat (lit : string)
  | JStr (s : string)
  | JArr (items : list json)
  | JObj (members : list (string * json)).

Definition dquote : ascii := ascii_of_N 34.
Definition backslash : ascii := ascii_of_N 92.

Definition char (n : N) : string := String (ascii_of_N n) "".

(** The [ESCAPE_DCT] of [json.encoder]: quote, backslash and the control
    characters. *)
Definition escape_char (c : ascii) : string :=
  let n := N_of_ascii c in
  if (n =? 34)%N then String backslash (String dquote "")
  else if (n =? 92)%N then String backslash (String backslash "")
  else if (n =? 10)%N then String backslash "n"
  else if (n =? 13)%N then String backslash "r"
  else if (n =? 9)%N then String backslash "t"
  else if (n =? 12)%N then String backslash "f"
  else if (n =? 8)%N then String backslash "b"
  else if (n <? 32)%N then String backslash ("u" +:+ Sha1.hex 4 (Z.of_N n))
  else String c "".

Fixpoint escape (s : string) : string :=
  match s with
  | "" => ""
  | String c s' => escape_char c +:+ escape s'
  end.

(** [int.__repr__]. *)
Definition int_repr (n : Z) : string := NilZero.string_of_int (Z.to_int n).

(** [encode_basestring]. *)
Definition encode_basestring (s : string) : string :=
  String dquote (escape s +:+ String dquote "").

Fixpoint spaces (n : nat) : string :=
  match n with
  | O => ""
  | S n' => String " " (spaces n')
  end.

(** A newline and the indentation of nesting level [level], [indent=2]. *)
Definition newline_indent (level : nat) : string :=
  String (ascii_of_N 10) (spaces (2 * level)).

(** The order [sorted(dct.items())] puts the members in. *)
Definition key_le {A} (a b : string * A) : Prop := String.le a.1 b.1.

Global Instance key_le_dec {A} (a b : string * A) : Decision (key_le a b).
Proof. unfold key_le. apply _. Defined.

(** The text between the brackets of a non-empty list or dict. *)
Definition encode_items (level : nat) (chunks : list string) : string :=
  newline_indent (S level)
  +:+ join ("," +:+ newline_indent (S level)) chunks
  +:+ newline_indent level.

(** [json.dumps(v, ensure_ascii=False, indent=2, sort_keys=True)], at
    nesting level [level]. *)
Fixpoint encode (level : nat) (v : json) : string :=
  match v with
  | JNull => "null"
  | JBool true => "true"
  | JBool false => "false"
  | JInt n => int_repr n
  | JFloat lit => lit
  | JStr s => encode_basestring s
  | JArr [] => "[]"
  | JArr items => "[" +:+ encode_items level (encode (S level) <$> items) +:+ "]"
  | JObj [] => "{}"
  | JObj members =>
      let chunks :=
        merge_sort key_le ((λ kv, (kv.1, encode (S level) kv.2)) <$> members) in
      "{" +:+ encode_items level
                ((λ kc, encode_basestring kc.1 +:+ ": " +:+ kc.2) <$> chunks)
          +:+ "}"
  end.

Definition json_dumps (v : json) : string := encode 0 v.

(** *** Decoder *)

Definition is_ws (c : ascii) : bool :=
  let n := N_of_ascii c in
  ((n =? 32) || (n =? 9) || (n =? 10) || (n =? 13))%N.

Fixpoint skip_ws (s : string) : string :=
  match s with
  | "" => ""
  | String c s' => if is_ws c then skip_ws s' else s
  end.

Definition digit_of (c : ascii) : option (Decimal.uint → Decimal.uint) :=
  match N_of_ascii c with
  | 48%N => Some Decimal.D0 | 49%N => Some Decimal.D1
  | 50%N => Some Decimal.D2 | 51%N => Some Decimal.D3
  | 52%N => Some Decimal.D4 | 53%N => Some Decimal.D5
  | 54%N => Some Decimal.D6 | 55%N => Some Decimal.D7
  | 56%N => Some Decimal.D8 | 57%N => Some Decimal.D9
  | _ => None
  end.

(** The longest run of digits at the head of [s], and what follows it. *)
Fixpoint span_digits (s : string) : Decimal.uint * string :=
  match s with
  | "" => (Decimal.Nil, "")
  | String c s' =>
      match digit_of c with
      | Some D => let '(d, r) := span_digits s' in (D d, r)
      | None => (Decimal.Nil, s)
      end
  end.

(** The integer part of a number: an optional minus sign, then a single
    zero or a run of digits that starts with a non-zero digit. *)
Definition scan_int (s : string) : option (bool * Decimal.uint * string) :=
  let '(neg, s1) :=
    match s with
    | String "-" r => (true, r)
    | _ => (false, s)
    end in
  match s1 with
  | String "0" r => Some (neg, Decimal.D0 Decimal.Nil, r)
  | _ =>
      match span_digits s1 with
      | (Decimal.Nil, _) => None
      | (d, r) => Some (neg, d, r)
      end
  end.

(** The optional fraction, a dot and a run of digits: the matched text and
    what follows it. *)
Definition scan_frac (s : string) : string * string :=
  match s with
  | String "." r =>
      match span_digits r with
      | (Decimal.Nil, _) => ("", s)
      | (d, r') => (String "." (NilEmpty.string_of_uint d), r')
      end
  | _ => ("", s)
  end.

(** The optional exponent, [e] or [E], an optional sign and a run of
    digits: the matched text and what follows it. *)
Definition scan_exp (s : string) : string * string :=
  match s with
  | String c r =>
      if bool_decide (c = "e"%char ∨ c = "E"%char) then
        let '(sign, r1) :=
          match r with
          | String "+" r' => ("+", r')
          | String "-" r' => ("-", r')
          | _ => ("", r)
          end in
        match span_digits r1 with
        | (Decimal.Nil, _) => ("", s)
        | (d, r2) => (String c (sign +:+ NilEmpty.string_of_uint d), r2)
        end
      else ("", s)
  | "" => ("", s)
  end.

(** [sys.int_info.default_max_str_digits]: [int()] raises [ValueError] on
    a numeral of more digits. *)
Definition MAX_STR_DIGITS : nat := 4300.

(** [NUMBER_RE.match]: an [int] without fraction and exponent, a [float]
    with one of them.  The result is [None] when there is no number at the
    head of [s]. *)
Definition match_number (s : string) : option (Exc (json * string)) :=
  match scan_int s with
  | None => None
  | Some (neg, d, r) =>
      let '(frac, r1) := scan_frac r in
      let '(exp, r2) := scan_exp r1 in
      match frac +:+ exp with
      | "" =>
          if (MAX_STR_DIGITS <? Decimal.nb_digits d)%nat
          then Some (Raise ValueError)
          else Some (Ok (JInt (Z.of_int (if neg then Decimal.Neg d
                                         else Decimal.Pos d)), r2))
      | fe => Some (Ok (JFloat ((if neg then "-" else "")
                                +:+ NilEmpty.string_of_uint d +:+ fe), r2))
      end
  end.

Definition hex_val (c : ascii) : option Z :=
  let n := Z.of_N (N_of_ascii c) in
  if (48 <=? n) && (n <=? 57) then Some (n - 48)
  else if (97 <=? n) && (n <=? 102) then Some (n - 87)
  else if (65 <=? n) && (n <=? 70) then Some (n - 55)
  else None.

(** Four hexadecimal digits. *)
Definition decode_uXXXX (s : string) : option (Z * string) :=
  match s with
  | String a (String b (String c (String d r))) =>
      a ← hex_val a; b ← hex_val b; c ← hex_val c; d ← hex_val d;
      Some (4096 * a + 256 * b + 16 * c + d, r)
  | _ => None
  end.

Definition byte (n : Z) : string := char (Z.to_N n).

(** [chr(cp)] in UTF-8. *)
Definition utf8 (cp : Z) : string :=
  if cp <? 0x80 then byte cp
  else if cp <? 0x800 then
    byte (Z.lor 0xC0 (Z.shiftr cp 6)) +:+ byte (Z.lor 0x80 (Z.land cp 0x3F))
  else if cp <? 0x10000 then
    byte (Z.lor 0xE0 (Z.shiftr cp 12))
    +:+ byte (Z.lor 0x80 (Z.land (Z.shiftr cp 6) 0x3F))
    +:+ byte (Z.lor 0x80 (Z.land cp 0x3F))
  else
    byte (Z.lor 0xF0 (Z.shiftr cp 18))
    +:+ byte (Z.lor 0x80 (Z.land (Z.shiftr cp 12) 0x3F))
    +:+ byte (Z.lor 0x80 (Z.land (Z.shiftr cp 6) 0x3F))
    +:+ byte (Z.lor 0x80 (Z.land cp 0x3F)).

(** The [BACKSLASH] table of [json.decoder]. *)
Definition unescape_char (e : ascii) : option ascii :=
  let n := N_of_ascii e in
  if (n =? 34)%N then Some dquote
  else if (n =? 92)%N then Some backslash
  else if (n =? 47)%N then Some "/"%char
  else if (n =? 98)%N then Some (ascii_of_N 8)
  else if (n =? 102)%N then Some (ascii_of_N 12)
  else if (n =? 110)%N then Some (ascii_of_N 10)
  else if (n =? 114)%N then Some (ascii_of_N 13)
  else if (n =? 116)%N then Some (ascii_of_N 9)
  else None.

(** The escape that follows a backslash: the text it stands for and what
    follows it.  A high surrogate joins a low surrogate escape after it. *)
Definition scan_escape (s : string) : Exc (string * string) :=
  match s with
  | "" => Raise JSONDecodeError
  | String e r =>
      if bool_decide (e = "u"%char) then
        match decode_uXXXX r with
        | None => Raise JSONDecodeError
        | Some (uni, r1) =>
            if (0xd800 <=? uni) && (uni <=? 0xdbff) then
              match r1 with
              | String b (String "u" r2) =>
                  if bool_decide (b = backslash) then
                    match decode_uXXXX r2 with
                    | None => Raise JSONDecodeError
                    | Some (uni2, r3) =>
                        if (0xdc00 <=? uni2) && (uni2 <=? 0xdfff) then
                          Ok (utf8 (0x10000
                                    + Z.lor (Z.shiftl (uni - 0xd800) 10)
                                            (uni2 - 0xdc00)), r3)
                        else Ok (utf8 uni, r1)
                    end
                  else Ok (utf8 uni, r1)
              | _ => Ok (utf8 uni, r1)
              end
            else Ok (utf8 uni, r1)
        end
      else
        match unescape_char e with
        | Some c => Ok (String c "", r)
        | None => Raise JSONDecodeError
        end
  end.

(** [scanstring] from the character after the opening quote, in strict
    mode: the string and what follows its closing quote. *)
Fixpoint scanstring_fuel (fuel : nat) (s : string) : Exc (string * string) :=
  match fuel, s with
  | S fuel', String c r =>
      if bool_decide (c = dquote) then Ok ("", r)
      else if bool_decide (c = backslash) then
        '(chunk, r1) ← scan_escape r;
        '(tl, r2) ← scanstring_fuel fuel' r1;
        Ok (chunk +:+ tl, r2)
      else if (N_of_ascii c <? 32)%N then Raise JSONDecodeError
      else
        '(tl, r1) ← scanstring_fuel fuel' r;
        Ok (String c tl, r1)
  | _, _ => Raise JSONDecodeError
  end.

Definition scanstring (s : string) : Exc (string * string) :=
  scanstring_fuel (String.length s) s.

(** [d[k] = v] on a dict kept in insertion order. *)
Fixpoint dict_set (k : string) (v : json) (d : list (string * json))
    : list (string * json) :=
  match d with
  | [] => [(k, v)]
  | (k', v') :: d' =>
      if bool_decide (k = k') then (k, v) :: d' else (k', v') :: dict_set k v d'
  end.

(** [dict(pairs)]. *)
Definition dict_of_pairs (pairs : list (string * json)) : list (string * json) :=
  foldl (λ d kv, dict_set kv.1 kv.2 d) [] pairs.

(** [s[n:]]. *)
Fixpoint str_drop (n : nat) (s : string) : string :=
  match n, s with
  | S n', String _ s' => str_drop n' s'
  | _, _ => s
  end.

(** [scan_once], with [JSONArray] and [JSONObject] from the character after
    the first value or key respectively.  [depth] is the number of lists
    and dicts that may still be opened inside one another. *)
Fixpoint scan_once (fuel depth : nat) (s : string) : Exc (json * string) :=
  match fuel with
  | O => Raise RecursionError
  | S n =>
      match s with
      | "" => Raise JSONDecodeError
      | String c r =>
          if bool_decide (c = dquote) then
            '(str, r1) ← scanstring r; Ok (JStr str, r1)
          else if bool_decide (c = "{"%char) then
            match depth with
            | O => Raise RecursionError
            | S depth' =>
                match skip_ws r with
                | String c1 r1 =>
                    if bool_decide (c1 = "}"%char) then Ok (JObj [], r1)
                    else if bool_decide (c1 = dquote) then
                      '(pairs, r2) ← scan_members n depth' r1;
                      Ok (JObj (dict_of_pairs pairs), r2)
                    else Raise JSONDecodeError
                | "" => Raise JSONDecodeError
                end
            end
          else if bool_decide (c = "["%char) then
            match depth with
            | O => Raise RecursionError
            | S depth' =>
                match skip_ws r with
                | String c1 r1 =>
                    if bool_decide (c1 = "]"%char) then Ok (JArr [], r1)
                    else
                      '(items, r2) ← scan_items n depth' (String c1 r1);
                      Ok (JArr items, r2)
                | "" => Raise JSONDecodeError
                end
            end
          else if startswith "null" s then Ok (JNull, str_drop 4 s)
          else if startswith "true" s then Ok (JBool true, str_drop 4 s)
          else if startswith "false" s then Ok (JBool false, str_drop 5 s)
          else
            match match_number s with
            | Some res => res
            | None =>
                if startswith "NaN" s then Ok (JFloat "NaN", str_drop 3 s)
                else if startswith "Infinity" s then
                  Ok (JFloat "Infinity", str_drop 8 s)
                else if startswith "-Infinity" s then
                  Ok (JFloat "-Infinity", str_drop 9 s)
                else Raise JSONDecodeError
            end
      end
  end
with scan_items (fuel depth : nat) (s : string) : Exc (list json * string) :=
  match fuel with
  | O => Raise RecursionError
  | S n =>
      '(v, r) ← scan_once n depth s;
      match skip_ws r with
      | String c r1 =>
          if bool_decide (c = "]"%char) then Ok ([v], r1)
          else if bool_decide (c = ","%char) then
            '(vs, r2) ← scan_items n depth (skip_ws r1);
            Ok (v :: vs, r2)
          else Raise JSONDecodeError
      | "" => Raise JSONDecodeError
      end
  end
with scan_members (fuel depth : nat) (s : string)
    : Exc (list (string * json) * string) :=
  match fuel with
  | O => Raise RecursionError
  | S n =>
      '(key, r) ← scanstring s;
      match skip_ws r with
      | String c r1 =>
          if bool_decide (c = ":"%char) then
            '(v, r2) ← scan_once n depth (skip_ws r1);
            match skip_ws r2 with
            | String c2 r3 =>
                if bool_decide (c2 = "}"%char) then Ok ([(key, v)], r3)
                else if bool_decide (c2 = ","%char) then
                  match skip_ws r3 with
                  | String c3 r4 =>
                      if bool_decide (c3 = dquote) then
                        '(kvs, r5) ← scan_members n depth r4;
                        Ok ((key, v) :: kvs, r5)
                      else Raise JSONDecodeError
                  | "" => Raise JSONDecodeError
                  end
                else Raise JSONDecodeError
            | "" => Raise JSONDecodeError
            end
          else Raise JSONDecodeError
      | "" => Raise JSONDecodeError
      end
  end.

(** [json.loads(s)]: one value between optional whitespace.  The fuel is
    more than the scanner uses on a text of this length. *)
Definition json_loads (depth : nat) (s : string) : Exc json :=
  '(v, r) ← scan_once (S (2 * String.length s)) depth (skip_ws s);
  match skip_ws r with
  | "" => Ok v
  | _ => Raise JSONDecodeError
  end.

(** ** Registry store

    A path names a text file, a file that does not decode as UTF-8, or a
    directory.  Failures of the disk itself are not modelled.  [depth] is
    the nesting the interpreter's recursion limit leaves to [json.loads]
    where [load_registry] calls it. *)

Inductive file :=
  | Text (s : string)
  | Binary
  | Directory.

(** [{"meta": {"created_utc": utc_now_iso()}, "devices": {}}]. *)
Definition fresh_registry (now_iso : string) : json :=
  JObj [("meta", JObj [("created_utc", JStr now_iso)]); ("devices", JObj [])].

(** [k in d]. *)
Definition has_key (k : string) (d : list (string * json)) : bool :=
  py_in k d.*1.

(** [d.setdefault(k, v)], for its effect on [d]. *)
Definition setdefault (k : string) (v : json) (d : list (string * json))
    : list (string * json) :=
  if has_key k d then d else d ++ [(k, v)].

(** [open(path, "r", encoding="utf-8")] and [f.read()]. *)
Definition read_text (fs : gmap string file) (path : string) : Exc string :=
  match fs !! path with
  | Some (Text s) => Ok s
  | Some Binary => Raise UnicodeDecodeError
  | Some Directory => Raise OSError
  | None => Raise OSError
  end.

(** The [try] block of [load_registry]. *)
Definition load_registry_try (fs : gmap string file) (depth : nat)
    (path now_iso : string) : Exc json :=
  raw ← read_text fs path;
  let raw := strip raw in
  if negb (nonempty raw) then Ok (fresh_registry now_iso)
  else
    data ← json_loads depth raw;
    match data with
    | JObj members =>
        let members := setdefault "meta" (JObj []) members in
        let members := setdefault "devices" (JObj []) members in
        Ok (JObj members)
    | _ => Ok (fresh_registry now_iso)
    end.

Definition load_registry (fs : gmap string file) (depth : nat)
    (path now_iso : string) : Exc json :=
  if negb (bool_decide (is_Some (fs !! path))) then Ok (fresh_registry now_iso)
  else
    match load_registry_try fs depth path now_iso with
    | Ok data => Ok data
    | Raise _ => Ok (fresh_registry now_iso)
    end.

(** [os.path.isdir(path)]. *)
Definition isdir (fs : gmap string file) (path : string) : bool :=
  match fs !! path with
  | Some Directory => true
  | _ => false
  end.

(** [atomic_write_json]: the file system after it.  Opening a directory
    for writing and renaming over a directory raise. *)
Definition atomic_write_json (fs : gmap string file) (path : string)
    (data : json) : Exc (gmap string file) :=
  let tmp_path := path +:+ ".tmp" in
  if isdir fs tmp_path then Raise OSError
  else
    let fs := <[tmp_path := Text (json_dumps data)]> fs in
    if isdir fs path then Raise OSError
    else Ok (<[path := Text (json_dumps data)]> (delete tmp_path fs)).

(** ** Specification vocabulary *)

(** [int(x or 0)]: the value the tracker reads from a counter. *)
Definition count (c : option Z) : Z := default 0 c.

(** [float(x or 0.0)]: the value the tracker reads from an epoch. *)
Definition epoch (t : option Q) : Q := default 0%Q t.

(** The test under which [mark_left_if_stale] marks a record as left: it is
    present, its last-seen epoch is positive, and that epoch lies
    [LEAVE_TIMEOUT] seconds or more before [now_ts]. *)
Definition is_stale (now_ts : Q) (rec : DeviceRecord) : bool :=
  present rec
  && negb (Qle_bool (epoch (last_seen_ts rec)) 0)
  && Qle_bool (inject_Z LEAVE_TIMEOUT) (now_ts - epoch (last_seen_ts rec)).

(** The record [mark_left_if_stale] hands to [_update_presence_time]. *)
Definition stamp_left (now_iso : string) (rec : DeviceRecord) : DeviceRecord :=
  set_leave_count (Some (count (leave_count rec) + 1))
    (set_last_left (Some now_iso) (set_present false rec)).

(** A record is without a last-seen epoch when the key is missing, zero or
    negative. *)
Definition no_last_seen (rec : DeviceRecord) : Prop :=
  match last_seen_ts rec with
  | None => True
  | Some t => (t <= 0)%Q
  end.

(** The four counters of [r'] are at least those of [r]. *)
Definition counters_le (r r' : DeviceRecord) : Prop :=
  count (seen_count r) ≤ count (seen_count r') ∧
  count (enter_count r) ≤ count (enter_count r') ∧
  count (leave_count r) ≤ count (leave_count r') ∧
  count (reenter_count r) ≤ count (reenter_count r').

(** Every character of [s] passes [p]. *)
Fixpoint all_chars (p : ascii → bool) (s : string) : bool :=
  match s with
  | "" => true
  | String c s' => p c && all_chars p s'
  end.

(** A lowercase hexadecimal digit. *)
Definition is_hex_digit (c : ascii) : bool :=
  let n := N_of_ascii c in
  ((48 <=? n) && (n <=? 57) || (97 <=? n) && (n <=? 102))%N.

(** A service UUID in the Eddystone range, whatever its letter case. *)
Definition eddystone (u : string) : bool := startswith "0000feaa" (lower u).

(** ** Sample data *)

Definition sample_rec (fp : string) (present : bool)
    (last_seen_ts last_enter_ts : option Q) : DeviceRecord :=
  {| fp := fp;
     fingerprint := mkMaterial [76] [] [];
     tags := ["vendor:apple"];
     primary_tag := Some "vendor:apple";
     first_seen := "1970-01-01T00:15:00Z";
     last_seen := "1970-01-01T00:16:40Z";
     seen_count := Some 3;
     addresses := ["AA:BB:CC:DD:EE:FF"];
     names_seen := [];
     best_rssi := Some (-55);
     last_rssi := Some (-60);
     last_events := [];
     present := present;
     last_seen_ts := last_seen_ts;
     last_left := None;
     last_enter := Some "1970-01-01T00:15:00Z";
     last_enter_ts := last_enter_ts;
     last_left_ts := None;
     enter_count := Some 1;
     leave_count := Some 0;
     reenter_count := Some 0;
     presence_by_day := ∅ |}.

Definition sample_logger (ds : gmap string DeviceRecord) : BLEVisitorLogger :=
  mkLogger "/home/bluelog.json"
    (mkRegistry (mkMeta (Some "1970-01-01T00:00:00Z") None (Some BLE_ADAPTER)
                        (Some LEAVE_TIMEOUT)) ds)
    false 0%Q false.

(** ** Sightings *)

(** The fingerprint [upsert] files a sighting under. *)
Definition sighting_fp (mfg_data : option (gmap Z (list Byte.byte)))
    (service_uuids service_data_keys : option (list string)) : string :=
  (compute_fingerprint (Some (mfg_keys mfg_data)) service_uuids
                       service_data_keys).1.

(** The record [upsert] starts from: the registered one, or a new one. *)
Definition record_before (ds : gmap string DeviceRecord) (now_iso : string)
    (mfg_data : option (gmap Z (list Byte.byte)))
    (service_uuids service_data_keys : option (list string)) : DeviceRecord :=
  (sighting_record ds now_iso (mfg_keys mfg_data) service_uuids
                   service_data_keys).2.

(** The record [upsert] leaves under the sighting's fingerprint. *)
Definition record_after (self : BLEVisitorLogger) (now_iso : string)
    (now_ts : Q) (address name : option string) (rssi : option Z)
    (mfg_data : option (gmap Z (list Byte.byte)))
    (service_uuids service_data_keys : option (list string))
    (source : option string) : option DeviceRecord :=
  devices (registry (upsert self now_iso now_ts address name rssi mfg_data
                            service_uuids service_data_keys source).1)
    !! sighting_fp mfg_data service_uuids service_data_keys.

(** One operation of the control loop on the tracker. *)
Inductive Op :=
  | OpUpsert (now_iso : string) (now_ts : Q) (address name : option string)
      (rssi : option Z) (mfg_data : option (gmap Z (list Byte.byte)))
      (service_uuids service_data_keys : option (list string))
      (source : option string)
  | OpSweep (now_ts : Q) (now_iso : string).

Definition apply_op (self : BLEVisitorLogger) (o : Op) : Exc BLEVisitorLogger :=
  match o with
  | OpUpsert now_iso now_ts address name rssi mfg_data su sk source =>
      Ok (upsert self now_iso now_ts address name rssi mfg_data su sk source).1
  | OpSweep now_ts now_iso => mark_left_if_stale self now_ts now_iso
  end.

Fixpoint run_ops (self : BLEVisitorLogger) (ops : list Op)
    : Exc BLEVisitorLogger :=
  match ops with
  | [] => Ok self
  | o :: ops' => self' ← apply_op self o; run_ops self' ops'
  end.

(** Whether [o] is an upsert filed under fingerprint [fp]. *)
Definition upserts (fp : string) (o : Op) : bool :=
  match o with
  | OpUpsert _ _ _ _ _ mfg_data su sk _ =>
      bool_decide (sighting_fp mfg_data su sk = fp)
  | OpSweep _ _ => false
  end.

(** The bookkeeping of a record filed under key [k] agrees with its
    presence state: it was seen at least as often as it entered, it entered
    once more than it left exactly while present, every enter but the first
    was a re-enter, and a leave time is stamped exactly when it has left. *)
Definition consistent (k : string) (rec : DeviceRecord) : Prop :=
  fp rec = k ∧
  1 ≤ count (enter_count rec) ≤ count (seen_count rec) ∧
  count (enter_count rec)
  = count (leave_count rec) + (if present rec then 1 else 0) ∧
  count (reenter_count rec) = count (enter_count rec) - 1 ∧
  0 ≤ count (leave_count rec) ∧
  (last_left rec = None ↔ count (leave_count rec) = 0) ∧
  is_Some (last_enter_ts rec) ∧ is_Some (last_seen_ts rec) ∧
  (length (last_events rec) ≤ MAX_LAST_EVENTS)%nat ∧
  NoDup (addresses rec) ∧ NoDup (names_seen rec).

(** An epoch whose UTC date the calendar has (years 1 to 9999). *)
Definition in_calendar (t : Q) : Prop :=
  ∃ day, utc_date_isoformat t = Ok day.

(** The enter epoch of [rec] is missing, zero, or in the calendar. *)
Definition enter_in_calendar (rec : DeviceRecord) : Prop :=
  falsy_ts (last_enter_ts rec) = true ∨ in_calendar (epoch (last_enter_ts rec)).

(** The clock read by an upsert is in the calendar. *)
Definition op_in_calendar (o : Op) : Prop :=
  match o with
  | OpUpsert _ now_ts _ _ _ _ _ _ _ => in_calendar now_ts
  | OpSweep _ _ => True
  end.

(** ** The logger on the registry document

    [BLEVisitorLogger.__init__] works on the document [load_registry]
    returns, whatever its shape.  A subscript assignment on a value that is
    not a dict raises [TypeError], [values] and [setdefault] on one raise
    [AttributeError]; nothing catches them. *)

Inductive failure :=
  | Uncaught (e : exn)
  | TypeError
  | AttributeError.

Inductive Outcome (A : Type) :=
  | Done (a : A)
  | Fail (f : failure).
Global Arguments Done {A} a.
Global Arguments Fail {A} f.

Global Instance Outcome_ret : MRet Outcome := λ A a, Done a.
Global Instance Outcome_bind : MBind Outcome := λ A B f x,
  match x with
  | Done a => f a
  | Fail e => Fail e
  end.

(** [d.get(k)]. *)
Fixpoint dict_get (k : string) (d : list (string * json)) : option json :=
  match d with
  | [] => None
  | (k', v) :: d' => if bool_decide (k = k') then Some v else dict_get k d'
  end.

(** One turn of the loop of [_migrate_presence_fields]. *)
Definition migrate_rec (rec : json) : Outcome json :=
  match rec with
  | JObj rec =>
      let rec := setdefault "present" (JBool false) rec in
      let rec := setdefault "last_seen_ts" (JFloat "0.0") rec in
      let rec := setdefault "last_left" JNull rec in
      let rec := setdefault "last_enter" JNull rec in
      let rec := setdefault "enter_count" (JInt 0) rec in
      let rec := setdefault "leave_count" (JInt 0) rec in
      let rec := setdefault "reenter_count" (JInt 0) rec in
      let rec := setdefault "last_enter_ts" JNull rec in
      let rec := setdefault "last_left_ts" JNull rec in
      let rec := setdefault "presence_by_day" (JObj []) rec in
      Done (JObj rec)
  | _ => Fail AttributeError
  end.

Fixpoint migrate_devices (ds : list (string * json))
    : Outcome (list (string * json)) :=
  match ds with
  | [] => Done []
  | (fp, rec) :: ds' =>
      rec' ← migrate_rec rec;
      ds'' ← migrate_devices ds';
      Done ((fp, rec') :: ds'')
  end.

(** [_migrate_presence_fields]: the registry after it.  It ends with
    [self.dirty = True]. *)
Definition _migrate_presence_fields (registry : list (string * json))
    : Outcome (list (string * json)) :=
  match dict_get "devices" registry with
  | None => Done registry
  | Some (JObj ds) =>
      ds' ← migrate_devices ds;
      Done (dict_set "devices" (JObj ds') registry)
  | Some _ => Fail AttributeError
  end.

(** The logger, with the registry as the document it is. *)
Record LoggerDoc := mkLoggerDoc {
  doc_path : string;
  doc_registry : list (string * json);
  doc_dirty : bool;
  doc_last_flush : Q;
  doc_stop : bool
}.

(** [BLEVisitorLogger(path)].  [load_iso] is the clock [load_registry]
    reads, [now] and [now_iso] are the ones [__init__] reads after it. *)
Definition __init__ (fs : gmap string file) (depth : nat)
    (path load_iso : string) (now : Q) (now_iso : string)
    : Outcome LoggerDoc :=
  match load_registry fs depth path load_iso with
  | Raise e => Fail (Uncaught e)
  | Ok (JObj registry) =>
      let registry := setdefault "meta" (JObj []) registry in
      let registry := setdefault "devices" (JObj []) registry in
      match dict_get "meta" registry with
      | Some (JObj meta) =>
          let meta := dict_set "updated_utc" (JStr now_iso) meta in
          let meta := dict_set "adapter" (JStr BLE_ADAPTER) meta in
          let meta := dict_set "leave_timeout_sec" (JInt LEAVE_TIMEOUT) meta in
          let registry := dict_set "meta" (JObj meta) registry in
          registry ← _migrate_presence_fields registry;
          Done (mkLoggerDoc path registry true now false)
      | _ => Fail TypeError
      end
  | Ok _ => Fail AttributeError
  end.

(** The keys [_migrate_presence_fields] fills in, with their defaults. *)
Definition presence_defaults : list (string * json) :=
  [("present", JBool false); ("last_seen_ts", JFloat "0.0");
   ("last_left", JNull); ("last_enter", JNull); ("enter_count", JInt 0);
   ("leave_count", JInt 0); ("reenter_count", JInt 0);
   ("last_enter_ts", JNull); ("last_left_ts", JNull);
   ("presence_by_day", JObj [])].

Definition is_dict (v : json) : bool :=
  match v with JObj _ => true | _ => false end.

(** The shape [__init__] needs of the loaded document: [meta] is a dict,
    [devices] is a dict, and so is every device record. *)
Definition well_shaped (registry : list (string * json)) : Prop :=
  (∃ meta, dict_get "meta" registry = Some (JObj meta)) ∧
  ∃ ds, dict_get "devices" registry = Some (JObj ds) ∧
        Forall (λ kv, is_dict kv.2 = true) ds.

(** ** Names: whitespace and letter case *)

(** The code points [str.isspace] accepts. *)
Definition py_whitespace : list Z :=
  [0x9; 0xA; 0xB; 0xC; 0xD; 0x1C; 0x1D; 0x1E; 0x1F; 0x20; 0x85; 0xA0;
   0x1680; 0x2000; 0x2001; 0x2002; 0x2003; 0x2004; 0x2005; 0x2006; 0x2007;
   0x2008; 0x2009; 0x200A; 0x2028; 0x2029; 0x202F; 0x205F; 0x3000].

(** A string made of whitespace characters only; the empty string is one. *)
Inductive whitespace : string → Prop :=
  | whitespace_nil : whitespace ""
  | whitespace_cons cp s :
      cp ∈ py_whitespace → whitespace s → whitespace (utf8 cp +:+ s).

(** The same character, or the same letter of the ASCII alphabet in the
    two cases. *)
Definition same_letter (a b : ascii) : Prop :=
  a = b ∨
  ((65 ≤ N_of_ascii a ≤ 90)%N ∧ N_of_ascii b = (N_of_ascii a + 32)%N) ∨
  ((65 ≤ N_of_ascii b ≤ 90)%N ∧ N_of_ascii a = (N_of_ascii b + 32)%N).

(** Two strings that differ in the case of ASCII letters only. *)
Fixpoint caseless (s t : string) : Prop :=
  match s, t with
  | "", "" => True
  | String a s', String b t' => same_letter a b ∧ caseless s' t'
  | _, _ => False
  end.

(** A name the suppression set silences: between whitespace, it reads as
    one of [SUPPRESS_NOTIFY_NAMES] when the case of letters is ignored. *)
Definition suppressed (name : string) : Prop :=
  ∃ l core r t,
    name = l +:+ core +:+ r ∧ whitespace l ∧ whitespace r ∧
    t ∈ SUPPRESS_NOTIFY_NAMES ∧ caseless core t.

(** The last byte of a string. *)
Fixpoint str_last (s : string) : option ascii :=
  match s with
  | "" => None
  | String c "" => Some c
  | String _ s' => str_last s'
  end.

(** A byte of the ASCII range that is not whitespace. *)
Definition visible (c : ascii) : bool :=
  (N_of_ascii c <? 128)%N && negb (isspace c).

(** The first byte of a whitespace character. *)
Definition space_lead (c : ascii) : bool :=
  let n := N_of_ascii c in
  (isspace c || (n =? 0xC2) || (n =? 0xE1) || (n =? 0xE2) || (n =? 0xE3))%N.

(** A string that neither starts nor ends with a whitespace character. *)
Definition tight (s : string) : Prop :=
  ∀ cp t, cp ∈ py_whitespace → s ≠ utf8 cp +:+ t ∧ s ≠ t +:+ utf8 cp.

(** [text] is [raw] without the whitespace around it. *)
Definition trimmed (raw text : string) : Prop :=
  ∃ l r, raw = l +:+ text +:+ r ∧ whitespace l ∧ whitespace r ∧ tight text.

(** The states of the file at [path] that [load_registry] recovers from:
    there is no such file, it cannot be read as text, it is empty or
    whitespace, or what is between the whitespace around it makes
    [json.loads] raise or is not a dict. *)
Inductive unusable (fs : gmap string file) (depth : nat) (path : string)
    : Prop :=
  | file_absent :
      fs !! path = None → unusable fs depth path
  | file_directory :
      fs !! path = Some Directory → unusable fs depth path
  | file_undecodable :
      fs !! path = Some Binary → unusable fs depth path
  | file_blank raw :
      fs !! path = Some (Text raw) → whitespace raw → unusable fs depth path
  | file_unparseable raw text e :
      fs !! path = Some (Text raw) → trimmed raw text →
      json_loads depth text = Raise e → unusable fs depth path
  | file_not_a_dict raw text data :
      fs !! path = Some (Text raw) → trimmed raw text →
      json_loads depth text = Ok data →
      (∀ members, data ≠ JObj members) → unusable fs depth path.

(** ** Dates: the proleptic Gregorian calendar *)

Definition is_leap (y : Z) : bool :=
  (y `mod` 4 =? 0) && negb (y `mod` 100 =? 0) || (y `mod` 400 =? 0).

Definition days_in_month (y m : Z) : Z :=
  if m =? 2 then (if is_leap y then 29 else 28)
  else if (m =? 4) || (m =? 6) || (m =? 9) || (m =? 11) then 30
  else 31.

(** The days of the years before year [y], from year 1 on. *)
Definition days_before_year (y : Z) : Z :=
  365 * (y - 1) + (y - 1) `div` 4 - (y - 1) `div` 100 + (y - 1) `div` 400.

(** The days of the months of year [y] before month [m]. *)
Definition days_before_month (y m : Z) : Z :=
  foldr Z.add 0 (days_in_month y <$> seqZ 1 (m - 1)).

(** [date(y, m, d).toordinal()]: day 1 is 0001-01-01. *)
Definition ordinal (y m d : Z) : Z :=
  days_before_year y + days_before_month y m + d.

(** [date(1970, 1, 1).toordinal()]. *)
Definition EPOCH_ORDINAL : Z := 719163.

(** [n] is [x] rounded to the nearest integer, ties to even. *)
Definition rounds_to (n : Z) (x : Q) : Prop :=
  (Qabs (x - inject_Z n) < 1 # 2)%Q ∨
  ((Qabs (x - inject_Z n) == 1 # 2)%Q ∧ Z.even n = true).

(** The day [y]-[m]-[d] is the UTC date of epoch [t]: [t], rounded to
    microseconds, lies between the midnight that starts the day and the
    next one. *)
Definition utc_date (t : Q) (y m d : Z) : Prop :=
  1 ≤ m ≤ 12 ∧ 1 ≤ d ≤ days_in_month y m ∧
  ∃ us : Z,
    rounds_to us (t * 1000000) ∧
    86400000000 * (ordinal y m d - EPOCH_ORDINAL) ≤ us
    < 86400000000 * (ordinal y m d - EPOCH_ORDINAL + 1).

(** The decimal digit [n `mod` 10]. *)
Definition digit (n : Z) : ascii := ascii_of_N (48 + Z.to_N (n `mod` 10)).

(** [YYYY-MM-DD]. *)
Definition iso_date (y m d : Z) : string :=
  String (digit (y `div` 1000)) (String (digit (y `div` 100))
    (String (digit (y `div` 10)) (String (digit y)
      (String "-" (String (digit (m `div` 10)) (String (digit m)
        (String "-" (String (digit (d `div` 10)) (String (digit d) ""))))))))).

(** [p] holds of the [n] integers from [start] on. *)
Fixpoint forall_from (p : Z → bool) (start : Z) (n : nat) : bool :=
  match n with
  | O => true
  | S n' => p start && forall_from p (start + 1) n'
  end.

(** [y] is [x] up to the rounding of binary64: half a unit in the last of
    53 bits, or half the least subnormal number. *)
Definition rounded (x y : Q) : Prop :=
  (Qabs (y - x) <= Qabs x / 2 ^ 53 + 1 / 2 ^ 1075)%Q.

(** * Properties *)

(** ** Fingerprint engine *)

Section sorted_set.
Context {A : Type} `{EqDecision A} (R : relation A).
Context `{!∀ x y, Decision (R x y)}.
Context `{!PartialOrder R, !Total R}.

Lemma sorted_set_Sorted l : Sorted R (sorted_set R l).
Proof. apply (Sorted_merge_sort R). Qed.

Lemma sorted_set_NoDup l : NoDup (sorted_set R l).
Proof.
  unfold sorted_set. rewrite merge_sort_Permutation. apply NoDup_remove_dups.
Qed.

Lemma elem_of_sorted_set l x : x ∈ sorted_set R l ↔ x ∈ l.
Proof.
  unfold sorted_set. rewrite merge_sort_Permutation. apply elem_of_remove_dups.
Qed.

(** [sorted(set(l))] is determined by the set of elements of [l]. *)
Lemma sorted_set_ext l k :
  (∀ x, x ∈ l ↔ x ∈ k) → sorted_set R l = sorted_set R k.
Proof.
  intros Hlk. apply (Sorted_unique R); try apply sorted_set_Sorted.
  apply NoDup_Permutation; try apply sorted_set_NoDup.
  intros x. by rewrite !elem_of_sorted_set.
Qed.

Lemma sorted_set_Permutation l k : l ≡ₚ k → sorted_set R l = sorted_set R k.
Proof. intros Hp. apply sorted_set_ext. intros x. by rewrite Hp. Qed.

Lemma sorted_set_duplicate l x : x ∈ l → sorted_set R (x :: l) = sorted_set R l.
Proof. intros Hx. apply sorted_set_ext. intros y.
  rewrite elem_of_cons. split; [by intros [->|?] | by right]. Qed.
End sorted_set.

(** C1: the fingerprint and its material are a function of the sets of the
    three inputs.  Inputs with the same elements, in any order and with any
    repetition, give the same result, and an absent input counts as the
    empty list. *)
Theorem compute_fingerprint_sets (m1 m2 : option (list Z))
    (u1 u2 k1 k2 : option (list string)) :
  same_set m1 m2 → same_set u1 u2 → same_set k1 k2 →
  compute_fingerprint m1 u1 k1 = compute_fingerprint m2 u2 k2.
Proof.
  intros Hm Hu Hk. unfold compute_fingerprint.
  rewrite (sorted_set_ext Z.le _ _ Hm).
  rewrite (sorted_set_ext String.le _ _ Hu).
  rewrite (sorted_set_ext String.le _ _ Hk).
  reflexivity.
Qed.

Lemma compute_fingerprint_sets_witness :
  same_set (Some [224; 76; 224]) (Some [76; 224]) ∧
  same_set None (Some ([] : list string)) ∧
  same_set (Some ["fe9f"; "fd6f"]) (Some ["fd6f"; "fe9f"; "fd6f"]) ∧
  compute_fingerprint (Some [224; 76; 224]) None (Some ["fe9f"; "fd6f"])
  = compute_fingerprint (Some [76; 224]) (Some []) (Some ["fd6f"; "fe9f"; "fd6f"]).
Proof.
  assert (H1 : same_set (Some [224; 76; 224]) (Some [76; 224])).
  { intros a. simpl. rewrite !elem_of_cons, !elem_of_nil. tauto. }
  assert (H2 : same_set None (Some ([] : list string))).
  { intros a. simpl. tauto. }
  assert (H3 : same_set (Some ["fe9f"; "fd6f"]) (Some ["fd6f"; "fe9f"; "fd6f"])).
  { intros a. simpl. rewrite !elem_of_cons, !elem_of_nil. tauto. }
  split; [exact H1 |]. split; [exact H2 |]. split; [exact H3 |].
  exact (compute_fingerprint_sets _ _ _ _ _ _ H1 H2 H3).
Defined.

(** ** Staleness sweep: one record *)

Lemma mark_left_rec_fresh now_ts now_iso rec :
  is_stale now_ts rec = false → mark_left_rec now_ts now_iso rec = Ok (rec, false).
Proof.
  unfold is_stale, mark_left_rec, epoch. intros Hs.
  destruct (present rec); simpl in *; [|done].
  destruct (Qle_bool (default 0%Q (last_seen_ts rec)) 0); simpl in *; [done|].
  by rewrite Hs.
Qed.

Lemma mark_left_rec_stale now_ts now_iso rec :
  is_stale now_ts rec = true →
  mark_left_rec now_ts now_iso rec
  = rec' ← _update_presence_time (stamp_left now_iso rec) now_ts; Ok (rec', true).
Proof.
  unfold is_stale, mark_left_rec, epoch. intros Hs.
  apply andb_true_iff in Hs as [[Hp Hpos]%andb_true_iff Hto].
  rewrite Hp. simpl. apply negb_true_iff in Hpos. rewrite Hpos, Hto. reflexivity.
Qed.

(** The flag returned with the record tells whether it was stale. *)
Lemma mark_left_rec_flag now_ts now_iso rec rec' t :
  mark_left_rec now_ts now_iso rec = Ok (rec', t) → t = is_stale now_ts rec.
Proof.
  destruct (is_stale now_ts rec) eqn:Hs.
  - rewrite mark_left_rec_stale by done.
    destruct (_update_presence_time _ _); simpl; congruence.
  - rewrite mark_left_rec_fresh by done. congruence.
Qed.

Lemma update_presence_time_no_enter rec leave_ts :
  falsy_ts (last_enter_ts rec) = true → _update_presence_time rec leave_ts = Ok rec.
Proof. unfold _update_presence_time. by intros ->. Qed.

Lemma update_presence_time_enter rec leave_ts :
  falsy_ts (last_enter_ts rec) = false →
  _update_presence_time rec leave_ts
  = day_key ← utc_date_isoformat (epoch (last_enter_ts rec));
    Ok (set_last_left_ts (Some leave_ts)
          (set_presence_by_day
             (<[day_key := fadd (default (Finite 0)
                                   (presence_by_day rec !! day_key))
                                (fmax0 (fsub leave_ts
                                          (epoch (last_enter_ts rec))))]>
                (presence_by_day rec)) rec)).
Proof. unfold _update_presence_time. by intros ->. Qed.

(** What [_update_presence_time] leaves alone. *)
Lemma update_presence_time_frame rec leave_ts rec' :
  _update_presence_time rec leave_ts = Ok rec' →
  present rec' = present rec ∧ last_left rec' = last_left rec ∧
  leave_count rec' = leave_count rec ∧ seen_count rec' = seen_count rec ∧
  enter_count rec' = enter_count rec ∧ reenter_count rec' = reenter_count rec ∧
  last_seen_ts rec' = last_seen_ts rec ∧ last_enter_ts rec' = last_enter_ts rec.
Proof.
  destruct (falsy_ts (last_enter_ts rec)) eqn:He.
  - rewrite update_presence_time_no_enter by done. by intros [= <-].
  - rewrite update_presence_time_enter by done.
    destruct (utc_date_isoformat _); simpl; [|done]. by intros [= <-].
Qed.

(** ** Staleness sweep: the whole registry *)

Section sweep_devices.
Context (now_ts : Q) (now_iso : string).
Implicit Types ds : gmap string DeviceRecord.

(** The sweep completes exactly when no record raises, and then it has
    applied [mark_left_rec] to every record. *)
Lemma sweep_devices_spec ds dirty0 :
  match sweep_devices now_ts now_iso ds dirty0 with
  | Ok (ds', d) =>
      (∀ fp, ds' !! fp
             = rec ← ds !! fp;
               match mark_left_rec now_ts now_iso rec with
               | Ok (rec', _) => Some rec'
               | Raise _ => None
               end) ∧
      (∀ fp rec, ds !! fp = Some rec →
                 is_Some (ds' !! fp)) ∧
      (d = true ↔ dirty0 = true ∨
                  ∃ fp rec, ds !! fp = Some rec ∧ is_stale now_ts rec = true)
  | Raise e =>
      ∃ fp rec, ds !! fp = Some rec ∧
                mark_left_rec now_ts now_iso rec = Raise e
  end.
Proof.
  unfold sweep_devices.
  apply (map_fold_weak_ind (λ r ds,
    match r with
    | Ok (ds', d) =>
        (∀ fp, ds' !! fp
               = rec ← ds !! fp;
                 match mark_left_rec now_ts now_iso rec with
                 | Ok (rec', _) => Some rec'
                 | Raise _ => None
                 end) ∧
        (∀ fp rec, ds !! fp = Some rec → is_Some (ds' !! fp)) ∧
        (d = true ↔ dirty0 = true ∨
                    ∃ fp rec, ds !! fp = Some rec ∧ is_stale now_ts rec = true)
    | Raise e =>
        ∃ fp rec, ds !! fp = Some rec ∧
                  mark_left_rec now_ts now_iso rec = Raise e
    end)); clear ds.
  - split; [|split].
    + intros fp. by rewrite !lookup_empty.
    + intros fp rec. by rewrite lookup_empty.
    + split; [by left|]. intros [?|(fp & rec & Hl & _)]; [done|].
      by rewrite lookup_empty in Hl.
  - intros fp rec ds r Hfresh IH. destruct r as [[ds' d]|e]; simpl.
    + destruct IH as (Hlk & Hdom & Hd).
      destruct (mark_left_rec now_ts now_iso rec) as [[rec' t]|e] eqn:Hm; simpl.
      * split; [|split].
        -- intros fp'. destruct (decide (fp = fp')) as [<-|Hne].
           ++ rewrite !lookup_insert_eq. simpl. by rewrite Hm.
           ++ rewrite !lookup_insert_ne by done. apply Hlk.
        -- intros fp' rec0. destruct (decide (fp = fp')) as [<-|Hne].
           ++ rewrite !lookup_insert_eq. eauto.
           ++ rewrite !lookup_insert_ne by done. apply Hdom.
        -- apply mark_left_rec_flag in Hm as ->.
           rewrite orb_true_iff, Hd. split.
           ++ intros [[?|(fp' & rec0 & Hl & Hs)]|Hs]; [by left| |].
              ** right. exists fp', rec0. split; [|done].
                 rewrite lookup_insert_ne; [done|]. intros <-. congruence.
              ** right. exists fp, rec. by rewrite lookup_insert_eq.
           ++ intros [?|(fp' & rec0 & Hl & Hs)]; [by left; left|].
              destruct (decide (fp = fp')) as [<-|Hne].
              ** rewrite lookup_insert_eq in Hl. right. congruence.
              ** rewrite lookup_insert_ne in Hl by done. left; right; eauto.
      * exists fp, rec. by rewrite lookup_insert_eq.
    + destruct IH as (fp' & rec0 & Hl & Hr). exists fp', rec0. split; [|done].
      rewrite lookup_insert_ne; [done|]. intros <-. congruence.
Qed.

Lemma sweep_devices_lookup ds dirty0 ds' d fp rec :
  sweep_devices now_ts now_iso ds dirty0 = Ok (ds', d) →
  ds !! fp = Some rec →
  ∃ rec', mark_left_rec now_ts now_iso rec = Ok (rec', is_stale now_ts rec) ∧
          ds' !! fp = Some rec'.
Proof.
  intros Hsw Hl. pose proof (sweep_devices_spec ds dirty0) as Hspec.
  rewrite Hsw in Hspec. destruct Hspec as (Hlk & Hdom & _).
  destruct (Hdom _ _ Hl) as [rec' Hrec']. exists rec'. split; [|done].
  rewrite Hlk, Hl in Hrec'. simpl in Hrec'.
  destruct (mark_left_rec now_ts now_iso rec) as [[r t]|] eqn:Hm; [|done].
  apply mark_left_rec_flag in Hm as Ht. congruence.
Qed.

Lemma sweep_devices_lookup_None ds dirty0 ds' d fp :
  sweep_devices now_ts now_iso ds dirty0 = Ok (ds', d) →
  ds !! fp = None → ds' !! fp = None.
Proof.
  intros Hsw Hl. pose proof (sweep_devices_spec ds dirty0) as Hspec.
  rewrite Hsw in Hspec. destruct Hspec as (Hlk & _). by rewrite Hlk, Hl.
Qed.

(** The sweep returns when every record's turn does. *)
Lemma sweep_devices_returns ds dirty0 :
  (∀ fp rec, ds !! fp = Some rec →
             ∃ res, mark_left_rec now_ts now_iso rec = Ok res) →
  ∃ res, sweep_devices now_ts now_iso ds dirty0 = Ok res.
Proof.
  intros Hall. pose proof (sweep_devices_spec ds dirty0) as Hspec.
  destruct (sweep_devices now_ts now_iso ds dirty0) as [res|e]; [eauto|].
  destruct Hspec as (fp & rec & Hl & Hr).
  destruct (Hall _ _ Hl) as [res Hres]. congruence.
Qed.
End sweep_devices.

Lemma mark_left_if_stale_devices self now_ts now_iso self' :
  mark_left_if_stale self now_ts now_iso = Ok self' →
  ∃ d, sweep_devices now_ts now_iso (devices (registry self)) (dirty self)
       = Ok (devices (registry self'), d).
Proof.
  unfold mark_left_if_stale.
  destruct (sweep_devices _ _ _ _) as [[ds d]|e]; simpl; [|done].
  intros [= <-]. simpl. eauto.
Qed.

Lemma is_stale_iff now_ts rec :
  is_stale now_ts rec = true ↔
  present rec = true ∧ (0 < epoch (last_seen_ts rec))%Q ∧
  (inject_Z LEAVE_TIMEOUT <= now_ts - epoch (last_seen_ts rec))%Q.
Proof.
  unfold is_stale. rewrite !andb_true_iff, negb_true_iff, Qle_bool_iff.
  rewrite <-not_true_iff_false, Qle_bool_iff.
  split.
  - intros [[Hp Hs] Ht]. repeat split; try done. by apply Qnot_le_lt.
  - intros (Hp & Hs & Ht). repeat split; try done. by apply Qlt_not_le.
Qed.

Lemma no_last_seen_epoch rec : no_last_seen rec ↔ (epoch (last_seen_ts rec) <= 0)%Q.
Proof.
  unfold no_last_seen, epoch. destruct (last_seen_ts rec); simpl; [done|].
  split; [intros _; apply Qle_refl | done].
Qed.

(** The sweep returns when every stale record is without an enter epoch or
    has one inside the calendar. *)
Lemma mark_left_if_stale_returns self now_ts now_iso :
  (∀ fp rec, devices (registry self) !! fp = Some rec →
             is_stale now_ts rec = true →
             falsy_ts (last_enter_ts rec) = false →
             ∃ day, utc_date_isoformat (epoch (last_enter_ts rec)) = Ok day) →
  ∃ self', mark_left_if_stale self now_ts now_iso = Ok self'.
Proof.
  intros Hall. unfold mark_left_if_stale.
  destruct (sweep_devices_returns now_ts now_iso (devices (registry self))
              (dirty self)) as [[ds d] ->]; [|simpl; eauto].
  intros fp rec Hl. destruct (is_stale now_ts rec) eqn:Hs.
  - rewrite mark_left_rec_stale by done.
    destruct (falsy_ts (last_enter_ts rec)) eqn:He.
    + rewrite update_presence_time_no_enter by done. simpl. eauto.
    + rewrite update_presence_time_enter by done.
      destruct (Hall _ _ Hl Hs He) as [day Hday].
      change (last_enter_ts (stamp_left now_iso rec)) with (last_enter_ts rec).
      rewrite Hday. cbn [mbind Exc_bind]. eauto.
  - rewrite mark_left_rec_fresh by done. eauto.
Qed.

(** C2, as the code has it: a sweep that returns has marked as left exactly
    the stale records (present, with a positive last-seen epoch that lies
    [LEAVE_TIMEOUT] seconds or more before [now_ts]).  It has cleared
    [present], stamped [last_left], incremented [leave_count], and stamped
    [last_left_ts] when the record has an enter epoch.  Every other record
    is unchanged. *)
Theorem mark_left_if_stale_transitions self now_ts now_iso self' :
  mark_left_if_stale self now_ts now_iso = Ok self' →
  ∀ fp,
    match devices (registry self) !! fp with
    | None => devices (registry self') !! fp = None
    | Some rec =>
        ∃ rec', devices (registry self') !! fp = Some rec' ∧
          if is_stale now_ts rec then
            present rec = true ∧ present rec' = false ∧
            last_left rec' = Some now_iso ∧
            leave_count rec' = Some (count (leave_count rec) + 1) ∧
            (falsy_ts (last_enter_ts rec) = false →
             last_left_ts rec' = Some now_ts)
          else rec' = rec
    end.
Proof.
  intros Hrun fp. apply mark_left_if_stale_devices in Hrun as [d Hsw].
  destruct (devices (registry self) !! fp) as [rec|] eqn:Hl.
  - destruct (sweep_devices_lookup _ _ _ _ _ _ _ _ Hsw Hl) as (rec' & Hm & Hl').
    exists rec'. split; [done|].
    destruct (is_stale now_ts rec) eqn:Hs.
    + rewrite mark_left_rec_stale in Hm by done.
      destruct (_update_presence_time _ _) as [r|] eqn:Hu; simplify_eq/=.
      split; [by apply is_stale_iff in Hs as [? _]|].
      destruct (update_presence_time_frame _ _ _ Hu) as (-> & -> & -> & _).
      repeat split. intros He.
      rewrite update_presence_time_enter in Hu by done.
      destruct (utc_date_isoformat _); by simplify_eq/=.
    + rewrite mark_left_rec_fresh in Hm by done. congruence.
  - eapply sweep_devices_lookup_None; eauto.
Qed.

(** ** Upsert: the observation step *)

Ltac observe_cases :=
  unfold observe; cbn -[fresh_in drop length];
  repeat match goal with
         | |- context [match ?x with Some _ => _ | None => _ end] =>
             destruct x eqn:?; cbn -[fresh_in drop length]
         | |- context [if (?b <? ?x)%Z then _ else _] =>
             destruct (b <? x)%Z eqn:?; cbn -[fresh_in drop length]
         end.

(** The presence fields are not touched by the observation step. *)
Lemma observe_presence iso ts address name rssi source rec :
  let rec' := observe iso ts address name rssi source rec in
  present rec' = present rec ∧ last_left rec' = last_left rec ∧
  last_enter rec' = last_enter rec ∧ last_enter_ts rec' = last_enter_ts rec ∧
  last_left_ts rec' = last_left_ts rec ∧ enter_count rec' = enter_count rec ∧
  leave_count rec' = leave_count rec ∧ reenter_count rec' = reenter_count rec ∧
  presence_by_day rec' = presence_by_day rec ∧
  primary_tag rec' = primary_tag rec.
Proof. cbv zeta. observe_cases; repeat split. Qed.

Lemma observe_last_seen_ts iso ts address name rssi source rec :
  last_seen_ts (observe iso ts address name rssi source rec) = Some ts.
Proof. observe_cases; reflexivity. Qed.

Lemma observe_seen_count iso ts address name rssi source rec :
  seen_count (observe iso ts address name rssi source rec)
  = Some (count (seen_count rec) + 1).
Proof. observe_cases; reflexivity. Qed.

Lemma observe_last_rssi iso ts address name rssi source rec :
  last_rssi (observe iso ts address name rssi source rec) = rssi.
Proof. observe_cases; reflexivity. Qed.

Lemma observe_best_rssi iso ts address name rssi source rec :
  best_rssi (observe iso ts address name rssi source rec)
  = match rssi with
    | None => best_rssi rec
    | Some x => Some (match best_rssi rec with
                      | None => x
                      | Some best => Z.max best x
                      end)
    end.
Proof.
  unfold observe. destruct rssi as [x|]; simpl.
  - destruct (best_rssi rec) as [best|] eqn:Hb; simpl.
    + destruct (Z.ltb_spec best x); simpl;
        repeat (case_match; simpl); rewrite ?Hb; f_equal; lia.
    + repeat (case_match; simpl); reflexivity.
  - repeat (case_match; simpl); reflexivity.
Qed.

(** ** Upsert: the registry *)

Section upsert.
Context (self : BLEVisitorLogger) (now_iso : string) (now_ts : Q).
Context (address name : option string) (rssi : option Z).
Context (mfg_data : option (gmap Z (list Byte.byte))).
Context (su sk : option (list string)) (source : option string).

Let fp := sighting_fp mfg_data su sk.
Let rec0 := record_before (devices (registry self)) now_iso mfg_data su sk.
Let material :=
  (compute_fingerprint (Some (mfg_keys mfg_data)) su sk).2.
Let step :=
  enter now_iso now_ts address name rssi fp material
        (observe now_iso now_ts address name rssi source rec0).

Lemma upsert_unfold :
  upsert self now_iso now_ts address name rssi mfg_data su sk source
  = (mkLogger (path self)
       (mkRegistry (set_updated_utc (Some now_iso) (meta (registry self)))
                   (<[fp := step.1]> (devices (registry self))))
       true (last_flush self) (stop self),
     step.2).
Proof.
  subst step rec0 material fp.
  unfold upsert, record_before, sighting_fp, sighting_record.
  destruct (compute_fingerprint _ _ _) as [f m]; cbn [fst snd].
  destruct (devices (registry self) !! f); cbn [fst snd].
  - destruct (enter _ _ _ _ _ _ _ _). reflexivity.
  - destruct (classify_tags _ _); cbn [fst snd].
    destruct (enter _ _ _ _ _ _ _ _). reflexivity.
Qed.

Lemma upsert_sent :
  (upsert self now_iso now_ts address name rssi mfg_data su sk source).2
  = step.2.
Proof. by rewrite upsert_unfold. Qed.

Lemma record_before_lookup rec :
  devices (registry self) !! fp = Some rec → rec0 = rec.
Proof.
  subst step rec0 material fp.
  unfold record_before, sighting_fp, sighting_record.
  destruct (compute_fingerprint _ _ _) as [f m]; cbn [fst snd]. by intros ->.
Qed.

Lemma record_before_new :
  devices (registry self) !! fp = None →
  ∃ tags primary, rec0 = new_record fp material tags primary now_iso.
Proof.
  subst step rec0 material fp.
  unfold record_before, sighting_fp, sighting_record.
  destruct (compute_fingerprint _ _ _) as [f m]; cbn [fst snd]. intros ->.
  destruct (classify_tags _ _). cbn [fst snd]. eauto.
Qed.

Lemma record_after_eq :
  record_after self now_iso now_ts address name rssi mfg_data su sk source
  = Some step.1.
Proof. unfold record_after. rewrite upsert_unfold. simpl. apply lookup_insert_eq. Qed.

Lemma upsert_other fp' :
  fp' ≠ fp →
  devices (registry (upsert self now_iso now_ts address name rssi mfg_data
                            su sk source).1) !! fp'
  = devices (registry self) !! fp'.
Proof. intros Hne. rewrite upsert_unfold. simpl. by apply lookup_insert_ne. Qed.
End upsert.

(** ** Upsert: the enter step *)

Lemma enter_present iso ts address name rssi fp material rec :
  present rec = true →
  enter iso ts address name rssi fp material rec = (rec, None).
Proof. unfold enter. by intros ->. Qed.

Lemma enter_absent iso ts address name rssi fp material rec :
  present rec = false →
  let rec' := (enter iso ts address name rssi fp material rec).1 in
  present rec' = true ∧
  enter_count rec' = Some (count (enter_count rec) + 1) ∧
  reenter_count rec'
  = (if last_left rec is Some _ then Some (count (reenter_count rec) + 1)
     else reenter_count rec) ∧
  last_enter rec' = Some iso ∧ last_enter_ts rec' = Some ts ∧
  seen_count rec' = seen_count rec ∧ leave_count rec' = leave_count rec ∧
  last_left rec' = last_left rec ∧ last_left_ts rec' = last_left_ts rec ∧
  last_seen_ts rec' = last_seen_ts rec ∧ best_rssi rec' = best_rssi rec ∧
  last_rssi rec' = last_rssi rec ∧
  presence_by_day rec' = presence_by_day rec ∧
  primary_tag rec' = primary_tag rec.
Proof.
  unfold enter. intros ->. simpl.
  destruct (last_left rec) eqn:Hl.
  - rewrite bool_decide_eq_true_2 by done.
    destruct (_qualifies_for_notify _ _); simpl; rewrite ?Hl; repeat split.
  - rewrite bool_decide_eq_false_2 by (intros H; by apply H).
    destruct (_qualifies_for_notify _ _); simpl; rewrite ?Hl; repeat split.
Qed.

(** A sweep that returns has given every record its turn of the loop. *)
Lemma mark_left_if_stale_lookup self now_ts now_iso self' fp rec :
  mark_left_if_stale self now_ts now_iso = Ok self' →
  devices (registry self) !! fp = Some rec →
  ∃ rec', mark_left_rec now_ts now_iso rec = Ok (rec', is_stale now_ts rec) ∧
          devices (registry self') !! fp = Some rec'.
Proof.
  intros Hrun Hl. apply mark_left_if_stale_devices in Hrun as [d Hsw].
  eapply sweep_devices_lookup; eauto.
Qed.

Lemma mark_left_if_stale_transitions_witness :
  ∃ self',
    mark_left_if_stale
      (sample_logger {[ "fp0" := sample_rec "fp0" true (Some 1000%Q) (Some 900%Q);
                        "fp1" := sample_rec "fp1" true (Some 1100%Q) (Some 900%Q) ]})
      1130%Q "1970-01-01T00:18:50Z" = Ok self' ∧
    ∀ fp,
      match ({[ "fp0" := sample_rec "fp0" true (Some 1000%Q) (Some 900%Q);
                "fp1" := sample_rec "fp1" true (Some 1100%Q) (Some 900%Q) ]}
             : gmap string DeviceRecord) !! fp with
      | None => devices (registry self') !! fp = None
      | Some rec =>
          ∃ rec', devices (registry self') !! fp = Some rec' ∧
            if is_stale 1130%Q rec then
              present rec = true ∧ present rec' = false ∧
              last_left rec' = Some "1970-01-01T00:18:50Z" ∧
              leave_count rec' = Some (count (leave_count rec) + 1) ∧
              (falsy_ts (last_enter_ts rec) = false →
               last_left_ts rec' = Some 1130%Q)
            else rec' = rec
      end.
Proof.
  eexists. split.
  - vm_compute. reflexivity.
  - apply (mark_left_if_stale_transitions
             (sample_logger
                {[ "fp0" := sample_rec "fp0" true (Some 1000%Q) (Some 900%Q);
                   "fp1" := sample_rec "fp1" true (Some 1100%Q) (Some 900%Q) ]})
             1130%Q "1970-01-01T00:18:50Z").
    vm_compute. reflexivity.
Defined.

(** C2 as stated fails at the boundary: a present record last seen exactly
    [LEAVE_TIMEOUT] seconds before the sweep, which is not more than the
    timeout, is marked as left. *)
Lemma mark_left_if_stale_boundary :
  let rec := sample_rec "fp0" true (Some 1000%Q) (Some 900%Q) in
  let self := sample_logger {[ "fp0" := rec ]} in
  present rec = true ∧
  ¬ (inject_Z LEAVE_TIMEOUT < 1120 - epoch (last_seen_ts rec))%Q ∧
  ∃ self' rec',
    mark_left_if_stale self 1120%Q "1970-01-01T00:18:40Z" = Ok self' ∧
    devices (registry self') !! "fp0" = Some rec' ∧
    present rec' = false ∧ leave_count rec' = Some 1.
Proof.
  simpl. split; [done|]. split; [by vm_compute|].
  eexists _, _. split; [vm_compute; reflexivity|]. split; [vm_compute; reflexivity|].
  done.
Qed.

(** C10: a present record without a last-seen epoch (missing, zero or
    negative) is skipped by every sweep, whatever the time: its turn of the
    loop returns it unchanged, so it stays present with its leave count and
    dwell aggregation as they were.  An upsert on it stamps a last-seen
    epoch again. *)
Theorem mark_left_if_stale_skips_unseen self fp rec now_ts now_iso :
  devices (registry self) !! fp = Some rec →
  present rec = true →
  no_last_seen rec →
  mark_left_rec now_ts now_iso rec = Ok (rec, false) ∧
  (∀ self', mark_left_if_stale self now_ts now_iso = Ok self' →
            devices (registry self') !! fp = Some rec) ∧
  (∀ iso ts address name rssi mfg_data su sk source,
     sighting_fp mfg_data su sk = fp →
     ∃ rec', record_after self iso ts address name rssi mfg_data su sk source
             = Some rec' ∧
             present rec' = true ∧ last_seen_ts rec' = Some ts).
Proof.
  intros Hl Hp Hn.
  assert (Hs : is_stale now_ts rec = false).
  { apply not_true_iff_false. rewrite is_stale_iff. intros (_ & Hpos & _).
    apply no_last_seen_epoch in Hn. by apply Qlt_not_le in Hpos. }
  split; [by apply mark_left_rec_fresh|]. split.
  - intros self' Hrun.
    destruct (mark_left_if_stale_lookup _ _ _ _ _ _ Hrun Hl) as (rec' & Hm & Hl').
    rewrite mark_left_rec_fresh in Hm by done. congruence.
  - intros iso ts address name rssi mfg_data su sk source Hfp.
    rewrite record_after_eq. eexists. split; [reflexivity|].
    rewrite <-Hfp in Hl. rewrite (record_before_lookup _ _ _ _ _ _ Hl).
    pose proof (observe_presence iso ts address name rssi source rec) as Ho.
    cbv zeta in Ho. destruct Ho as (Hpres & _).
    rewrite Hp in Hpres. rewrite (enter_present _ _ _ _ _ _ _ _ Hpres). cbn [fst].
    split; [done | apply observe_last_seen_ts].
Qed.

Lemma mark_left_if_stale_skips_unseen_witness :
  let rec := sample_rec "fp0" true (Some 0%Q) (Some 900%Q) in
  let self := sample_logger {[ "fp0" := rec ]} in
  devices (registry self) !! "fp0" = Some rec ∧
  present rec = true ∧
  no_last_seen rec ∧
  mark_left_rec 99999%Q "1970-01-02T03:46:39Z" rec = Ok (rec, false).
Proof.
  simpl.
  assert (H1 : devices (registry (sample_logger
                 {[ "fp0" := sample_rec "fp0" true (Some 0%Q) (Some 900%Q) ]}))
               !! "fp0" = Some (sample_rec "fp0" true (Some 0%Q) (Some 900%Q))).
  { vm_compute. reflexivity. }
  assert (H2 : present (sample_rec "fp0" true (Some 0%Q) (Some 900%Q)) = true).
  { reflexivity. }
  assert (H3 : no_last_seen (sample_rec "fp0" true (Some 0%Q) (Some 900%Q))).
  { vm_compute. discriminate. }
  split; [exact H1|]. split; [exact H2|]. split; [exact H3|].
  exact (proj1 (mark_left_if_stale_skips_unseen _ _ _ 99999%Q
                  "1970-01-02T03:46:39Z" H1 H2 H3)).
Defined.

(** ** Calendar: the date of an epoch *)

Lemma round_half_even_spec x : rounds_to (round_half_even x) x.
Proof.
  unfold rounds_to, round_half_even.
  pose proof (Qfloor_le x) as Hlo. pose proof (Qlt_floor x) as Hhi.
  set (f := Qfloor x) in *.
  assert (Hf1 : inject_Z (f + 1) = (inject_Z f + 1)%Q) by apply inject_Z_plus.
  rewrite Hf1 in Hhi.
  destruct (x - inject_Z f ?= 1 # 2)%Q eqn:Hc.
  - apply Qeq_alt in Hc. destruct (Z.even f) eqn:He.
    + right. split; [|done]. rewrite Qabs_pos by lra. lra.
    + right. split.
      * rewrite Hf1. rewrite Qabs_neg by lra. lra.
      * rewrite Z.even_add, He. reflexivity.
  - apply Qlt_alt in Hc. left.
    rewrite Qabs_pos; [done|]. lra.
  - apply Qgt_alt in Hc. left. rewrite Hf1.
    rewrite Qabs_neg by lra. lra.
Qed.

Lemma days_before_month_eq y m :
  1 ≤ m ≤ 12 →
  days_before_month y m
  = 30 * (m - 1) + (m + m `div` 9) `div` 2
    - (if m <=? 2 then 0 else if is_leap y then 1 else 2).
Proof.
  intros Hm.
  assert (m = 1 ∨ m = 2 ∨ m = 3 ∨ m = 4 ∨ m = 5 ∨ m = 6 ∨ m = 7 ∨ m = 8 ∨
          m = 9 ∨ m = 10 ∨ m = 11 ∨ m = 12) as Hcases by lia.
  unfold days_before_month, days_in_month.
  repeat (destruct Hcases as [->|Hcases]; [destruct (is_leap y); reflexivity|]).
  subst m. destruct (is_leap y); reflexivity.
Qed.

Lemma is_leap_spec y :
  is_leap y = true ↔ y `mod` 4 = 0 ∧ (y `mod` 100 ≠ 0 ∨ y `mod` 400 = 0).
Proof.
  unfold is_leap.
  rewrite orb_true_iff, andb_true_iff, negb_true_iff, !Z.eqb_eq, Z.eqb_neq.
  Z.div_mod_to_equations. lia.
Qed.

(** [civil_from_days] inverts [ordinal], on every day. *)
Lemma civil_from_days_spec days :
  let '(y, m, d) := civil_from_days days in
  1 ≤ m ≤ 12 ∧ 1 ≤ d ≤ days_in_month y m ∧
  ordinal y m d - EPOCH_ORDINAL = days.
Proof.
  unfold civil_from_days. cbv zeta.
  set (z := days + 719468). set (era := z `div` 146097).
  set (doe := z - era * 146097).
  set (yoe := (doe - doe `div` 1460 + doe `div` 36524 - doe `div` 146096)
              `div` 365).
  set (doy := doe - (365 * yoe + yoe `div` 4 - yoe `div` 100)).
  set (mp := (5 * doy + 2) `div` 153).
  set (d := doy - (153 * mp + 2) `div` 5 + 1).
  assert (Hdoe : 0 ≤ doe < 146097)
    by (subst doe era; Z.div_mod_to_equations; lia).
  assert (Hyoe : 0 ≤ yoe ≤ 399 ∧ 0 ≤ doy ≤ 365 ∧
                 (doy = 365 →
                  (yoe + 1) `mod` 4 = 0 ∧
                  ((yoe + 1) `mod` 100 ≠ 0 ∨ yoe = 399)))
    by (subst doy yoe; clearbody doe; Z.div_mod_to_equations; lia).
  destruct Hyoe as (Hyoe & Hdoy & Hleap).
  assert (Hdays : days = 146097 * era + 365 * yoe + yoe `div` 4
                         - yoe `div` 100 + doy - 719468)
    by (subst doy doe z; lia).
  clearbody doy yoe era. clear Hdoe doe z.
  assert (Hmp : 0 ≤ mp ≤ 11) by (subst mp; Z.div_mod_to_equations; lia).
  assert (Hd : d = doy - (153 * mp + 2) `div` 5 + 1) by done.
  assert (Hmpd : 153 * mp ≤ 5 * doy + 2 < 153 * mp + 153)
    by (subst mp; Z.div_mod_to_equations; lia).
  clearbody d mp.
  assert (Hl : ∀ y, is_leap y = true ↔
                    y `mod` 4 = 0 ∧ (y `mod` 100 ≠ 0 ∨ y `mod` 400 = 0))
    by apply is_leap_spec.
  assert (Hcases : mp = 0 ∨ mp = 1 ∨ mp = 2 ∨ mp = 3 ∨ mp = 4 ∨ mp = 5 ∨
                   mp = 6 ∨ mp = 7 ∨ mp = 8 ∨ mp = 9 ∨ mp = 10 ∨ mp = 11)
    by lia.
  assert (Hfin : ∀ m y,
            1 ≤ m ≤ 12 →
            (m = if mp <? 10 then mp + 3 else mp - 9) →
            (y = if m <=? 2 then yoe + era * 400 + 1 else yoe + era * 400) →
            1 ≤ d ≤ days_in_month y m ∧
            ordinal y m d - EPOCH_ORDINAL = days).
  { intros m y Hm Hmeq Hyeq.
    unfold ordinal, EPOCH_ORDINAL. rewrite (days_before_month_eq y m Hm).
    unfold days_in_month, days_before_year.
    specialize (Hl y).
    destruct (is_leap y) eqn:Hly;
      [destruct (proj1 Hl eq_refl) as [Hl4 Hl100]
      |assert (Hnl : ¬ (y `mod` 4 = 0 ∧ (y `mod` 100 ≠ 0 ∨ y `mod` 400 = 0)))
         by (intros H; apply Hl in H; congruence)];
      clear Hl Hly;
      repeat (destruct Hcases as [->|Hcases];
              [vm_compute in Hmeq; subst m; match type of Hyeq with
               | context [(?a <=? ?b)] =>
                   let r := eval vm_compute in (a <=? b) in
                   change (a <=? b) with r in Hyeq
               end;
               cbv iota in Hyeq; subst y;
               repeat match goal with
                      | |- context [(?a =? ?b)] =>
                          let r := eval vm_compute in (a =? b) in
                          change (a =? b) with r
                      | |- context [(?a <=? ?b)] =>
                          let r := eval vm_compute in (a <=? b) in
                          change (a <=? b) with r
                      end;
               cbv iota; cbn [orb];
               Z.div_mod_to_equations; lia|]);
      subst mp; vm_compute in Hmeq; subst m; match type of Hyeq with
               | context [(?a <=? ?b)] =>
                   let r := eval vm_compute in (a <=? b) in
                   change (a <=? b) with r in Hyeq
               end;
               cbv iota in Hyeq; subst y;
      repeat match goal with
             | |- context [(?a =? ?b)] =>
                 let r := eval vm_compute in (a =? b) in
                 change (a =? b) with r
             | |- context [(?a <=? ?b)] =>
                 let r := eval vm_compute in (a <=? b) in
                 change (a <=? b) with r
             end;
      cbv iota; cbn [orb];
      Z.div_mod_to_equations; lia. }
  assert (Hm : 1 ≤ (if mp <? 10 then mp + 3 else mp - 9) ≤ 12)
    by (destruct (Z.ltb_spec mp 10); lia).
  split; [done|]. by apply Hfin.
Qed.

Lemma forall_from_spec p start n i :
  forall_from p start n = true → start ≤ i < start + Z.of_nat n → p i = true.
Proof.
  revert start. induction n as [|n IH]; intros start; cbn [forall_from].
  - lia.
  - intros [Hp Hn]%andb_true_iff Hi.
    destruct (decide (i = start)) as [->|Hne]; [done|].
    apply (IH (start + 1)); [done|lia].
Qed.

Lemma zfill_4 y :
  1 ≤ y ≤ 9999 →
  zfill 4 y
  = String (digit (y `div` 1000)) (String (digit (y `div` 100))
      (String (digit (y `div` 10)) (String (digit y) ""))).
Proof.
  intros Hy.
  assert (H : forall_from
                (λ y, bool_decide
                        (zfill 4 y
                         = String (digit (y `div` 1000))
                             (String (digit (y `div` 100))
                                (String (digit (y `div` 10))
                                   (String (digit y) "")))))
                1 (Z.to_nat 9999) = true)
    by (vm_compute; reflexivity).
  apply (forall_from_spec _ _ _ y) in H; [|lia].
  by apply bool_decide_eq_true in H.
Qed.

Lemma zfill_2 x :
  1 ≤ x ≤ 31 →
  zfill 2 x = String (digit (x `div` 10)) (String (digit x) "").
Proof.
  intros Hx.
  assert (H : forall_from
                (λ x, bool_decide
                        (zfill 2 x
                         = String (digit (x `div` 10)) (String (digit x) "")))
                1 (Z.to_nat 31) = true)
    by (vm_compute; reflexivity).
  apply (forall_from_spec _ _ _ x) in H; [|lia].
  by apply bool_decide_eq_true in H.
Qed.

Lemma days_in_month_le y m : days_in_month y m ≤ 31.
Proof.
  unfold days_in_month.
  destruct (m =? 2); [by destruct (is_leap y)|].
  by destruct ((m =? 4) || (m =? 6) || (m =? 9) || (m =? 11)).
Qed.

Lemma isoformat_iso_date y m d :
  1 ≤ y ≤ 9999 → 1 ≤ m ≤ 12 → 1 ≤ d ≤ 31 → isoformat y m d = iso_date y m d.
Proof.
  intros Hy Hm Hd. unfold isoformat, iso_date.
  rewrite (zfill_4 y Hy), (zfill_2 m), (zfill_2 d) by lia. reflexivity.
Qed.

(** The date [utc_date_isoformat] returns is the UTC date of the epoch,
    as [YYYY-MM-DD]. *)
Lemma utc_date_isoformat_spec t day :
  utc_date_isoformat t = Ok day →
  ∃ y m d, 1 ≤ y ≤ 9999 ∧ utc_date t y m d ∧ day = iso_date y m d.
Proof.
  unfold utc_date_isoformat.
  set (us := round_half_even (t * 1000000)).
  pose proof (civil_from_days_spec (us `div` 86400000000)) as Hc.
  destruct (civil_from_days (us `div` 86400000000)) as [[y m] d].
  destruct Hc as (Hm & Hd & Hord).
  destruct ((1 <=? y) && (y <=? 9999)) eqn:Hy; [|done].
  apply andb_true_iff in Hy as [Hy1%Z.leb_le Hy2%Z.leb_le].
  intros [= <-]. exists y, m, d. split; [done|]. split.
  - split; [done|]. split; [done|]. exists us.
    split; [apply round_half_even_spec|].
    rewrite Hord. Z.div_mod_to_equations. lia.
  - pose proof (days_in_month_le y m). apply isoformat_iso_date; lia.
Qed.

(** ** Floats: rounding *)

Lemma Qmult_le_l_weak a b c : (0 <= a)%Q → (b <= c)%Q → (a * b <= a * c)%Q.
Proof.
  intros Ha Hbc. rewrite !(Qmult_comm a). by apply Qmult_le_compat_r.
Qed.

Ltac qreplace x y tac :=
  let H := fresh in
  assert (H : Qeq x y) by tac; rewrite H; clear H.

Lemma Qpower_2_pos e : (0 < 2 ^ e)%Q.
Proof. apply Qpower_0_lt. reflexivity. Qed.

Lemma Qpower_2_plus a b : (2 ^ (a + b) == 2 ^ a * 2 ^ b)%Q.
Proof. apply Qpower_plus. discriminate. Qed.

Lemma Qpower_2_minus a b : (2 ^ (a - b) == 2 ^ a / 2 ^ b)%Q.
Proof.
  unfold Z.sub. rewrite Qpower_2_plus, Qpower_opp. reflexivity.
Qed.

(** [ilog2] is a lower bound of the binary logarithm. *)
Lemma ilog2_le x : ¬ (x == 0)%Q → (2 ^ ilog2 x <= Qabs x)%Q.
Proof.
  intros Hx. unfold ilog2.
  set (n := Z.abs (Qnum x)). set (d := Z.pos (Qden x)).
  set (e := Z.log2 n - Z.log2 d).
  destruct (Qle_bool (2 ^ e) (Qabs x)) eqn:Hle; [by apply Qle_bool_iff|].
  assert (Hn : 0 < n).
  { subst n. destruct x as [[|p|p] q]; [|done|done].
    destruct Hx. reflexivity. }
  assert (Hd : 0 < d) by done.
  destruct (Z.log2_spec n Hn) as [Hn1 _].
  destruct (Z.log2_spec d Hd) as [_ Hd2].
  pose proof (Z.log2_nonneg n) as Hn0. pose proof (Z.log2_nonneg d) as Hd0.
  assert (Habs : (Qabs x == inject_Z n / inject_Z d)%Q).
  { subst n d. destruct x as [xn xd]. unfold Qabs. cbn [Qnum Qden].
    rewrite (Qmake_Qdiv (Z.abs xn) xd). reflexivity. }
  rewrite Habs.
  replace (e - 1) with (Z.log2 n - Z.succ (Z.log2 d)) by (subst e; lia).
  rewrite Qpower_2_minus.
  assert (H1 : (2 ^ Z.log2 n <= inject_Z n)%Q).
  { rewrite <-(Zpower_Qpower 2) by done. rewrite <-Zle_Qle. exact Hn1. }
  assert (H2 : (inject_Z d <= 2 ^ Z.succ (Z.log2 d))%Q).
  { rewrite <-(Zpower_Qpower 2) by lia. rewrite <-Zle_Qle. lia. }
  assert (H3 : (0 < inject_Z d)%Q) by (rewrite <-(Zlt_Qlt 0); done).
  pose proof (Qpower_2_pos (Z.log2 n)) as H4.
  pose proof (Qpower_2_pos (Z.succ (Z.log2 d))) as H5.
  apply Qle_shift_div_l; [done|].
  apply Qle_trans with (2 ^ Z.log2 n)%Q; [|done].
  qreplace (2 ^ Z.log2 n / 2 ^ Z.succ (Z.log2 d) * inject_Z d)%Q
           (2 ^ Z.log2 n * (inject_Z d / 2 ^ Z.succ (Z.log2 d)))%Q
           ltac:(field; lra).
  assert (Hone : (inject_Z d / 2 ^ Z.succ (Z.log2 d) <= 1)%Q).
  { apply Qle_shift_div_r; [done|]. lra. }
  assert (Hm : (2 ^ Z.log2 n * (inject_Z d / 2 ^ Z.succ (Z.log2 d))
                <= 2 ^ Z.log2 n * 1)%Q) by (apply Qmult_le_l; done).
  lra.
Qed.

(** [round64] is within the rounding of binary64, and finite below
    [2 ^ 1023]. *)
Lemma round64_rounded x :
  (Qabs x < 2 ^ 1023)%Q → ∃ y, round64 x = Finite y ∧ rounded x y.
Proof.
  intros Hx. unfold round64.
  destruct (Qeq_bool x 0) eqn:H0.
  { exists 0%Q. split; [done|]. apply Qeq_bool_iff in H0. unfold rounded.
    rewrite H0. vm_compute. discriminate. }
  assert (Hnz : ¬ (x == 0)%Q).
  { intros H. apply Qeq_bool_iff in H. congruence. }
  pose proof (ilog2_le x Hnz) as Hlog.
  set (e := Z.max (ilog2 x) (-1022)).
  set (ulp := (2 ^ (e - 52))%Q).
  set (m := round_half_even (x / ulp)).
  assert (Hulp : (0 < ulp)%Q) by apply Qpower_2_pos.
  assert (Herr : (Qabs (inject_Z m * ulp - x) <= ulp / 2)%Q).
  { assert (Hr : (Qabs (x / ulp - inject_Z m) <= 1 # 2)%Q).
    { destruct (round_half_even_spec (x / ulp)) as [Hr|[Hr _]].
      - by apply Qlt_le_weak.
      - fold m in Hr. rewrite Hr. apply Qle_refl. }
    fold m in Hr.
    qreplace (inject_Z m * ulp - x)%Q
             (- ((x / ulp - inject_Z m) * ulp))%Q ltac:(field; lra).
    rewrite Qabs_opp, Qabs_Qmult, (Qabs_pos ulp) by lra.
    qreplace (ulp / 2)%Q ((1 # 2) * ulp)%Q ltac:(field; lra).
    apply Qmult_le_r; done. }
  assert (Hhalf : (ulp / 2 <= Qabs x / 2 ^ 53 + 1 / 2 ^ 1075)%Q).
  { pose proof (Qabs_nonneg x) as Hax.
    pose proof (Qpower_2_pos 53) as H53. pose proof (Qpower_2_pos 1075) as H75.
    assert (Hq1 : (0 <= Qabs x / 2 ^ 53)%Q).
    { apply Qle_shift_div_l; [done|]. lra. }
    assert (Hq2 : (0 <= 1 / 2 ^ 1075)%Q).
    { apply Qle_shift_div_l; [done|]. lra. }
    subst ulp e. destruct (Z.max_spec (ilog2 x) (-1022)) as [[_ ->]|[_ ->]].
    - assert (He : (2 ^ (-1022 - 52) / 2 == 1 / 2 ^ 1075)%Q)
        by (vm_compute; reflexivity).
      rewrite He. lra.
    - assert (He : (2 ^ (ilog2 x - 52) / 2 == 2 ^ ilog2 x / 2 ^ 53)%Q).
      { rewrite Qpower_2_minus.
        assert (H2 : (2 ^ 53 == 2 ^ 52 * 2)%Q) by (vm_compute; reflexivity).
        rewrite H2. field; pose proof (Qpower_2_pos 52); lra. }
      rewrite He.
      apply Qle_trans with (Qabs x / 2 ^ 53)%Q; [|lra].
      apply Qmult_le_r; [|done]. apply Qinv_lt_0_compat. done. }
  assert (Hy : (Qabs (inject_Z m * ulp) < 2 ^ 1024)%Q).
  { apply Qle_lt_trans
      with (Qabs x + Qabs (inject_Z m * ulp - x))%Q.
    - assert (He : (inject_Z m * ulp == x + (inject_Z m * ulp - x))%Q) by ring.
      rewrite He at 1. apply Qabs_triangle.
    - apply Qle_lt_trans
        with (Qabs x + (Qabs x / 2 ^ 53 + 1 / 2 ^ 1075))%Q; [lra|].
      pose proof (Qabs_nonneg x) as Hax.
      assert (Hh : (Qabs x / 2 ^ 53 <= Qabs x * (1 # 2))%Q).
      { apply Qmult_le_l_weak; [done|]. vm_compute. discriminate. }
      assert (H75 : (1 / 2 ^ 1075 < 1 # 2)%Q) by (vm_compute; reflexivity).
      assert (H24 : (2 ^ 1024 == 2 ^ 1023 + 2 ^ 1023)%Q)
        by (vm_compute; reflexivity).
      assert (H1 : (1 <= 2 ^ 1023)%Q) by (vm_compute; discriminate).
      rewrite H24. clear H24 Herr Hhalf.
      generalize dependent (Qabs x). intros a Ha1 Ha2 Ha3.
      generalize dependent (2 ^ 1023)%Q. intros b Hb1 Hb2.
      generalize dependent (a / 2 ^ 53)%Q. intros q Hq.
      generalize dependent (1 / 2 ^ 1075)%Q. intros t Ht. lra. }
  destruct (Qle_bool (2 ^ 1024) (Qabs (inject_Z m * ulp))) eqn:Hov.
  { apply Qle_bool_iff in Hov. lra. }
  eexists. split; [reflexivity|]. unfold rounded. lra.
Qed.

(** ** Dwell aggregation *)

Lemma falsy_ts_Some t : falsy_ts (Some t) = false ↔ ¬ (t == 0)%Q.
Proof.
  simpl. rewrite <-Qeq_bool_iff. by destruct (Qeq_bool t 0).
Qed.

(** [not enter_ts] holds of a missing epoch, of [None] and of [0.0]. *)
Lemma falsy_ts_true t :
  falsy_ts t = true ↔ t = None ∨ ∃ q, t = Some q ∧ (q == 0)%Q.
Proof.
  destruct t as [q|]; simpl.
  - rewrite Qeq_bool_iff. split; [eauto|]. by intros [|(? & [= <-] & ?)].
  - split; [by left|done].
Qed.

(** [max(0.0, x)] of a finite float. *)
Lemma fmax0_Finite a : ∃ e, fmax0 (Finite a) = Finite e ∧ (e == Qmax 0 a)%Q.
Proof.
  simpl. destruct (Qle_bool a 0) eqn:Ha.
  - exists 0%Q. split; [done|]. apply Qle_bool_iff in Ha.
    by rewrite Q.max_l.
  - exists a. split; [done|]. rewrite Q.max_r; [done|].
    apply Qlt_le_weak, Qnot_le_lt. rewrite <-Qle_bool_iff. congruence.
Qed.

Lemma rounded_eq x x' y : (x == x')%Q → rounded x y → rounded x' y.
Proof. unfold rounded. by intros ->. Qed.

(** A rounded value is not twice as far from zero as what it rounds, one
    apart. *)
Lemma rounded_bound x y : rounded x y → (Qabs y <= 2 * Qabs x + 1)%Q.
Proof.
  unfold rounded. intros Hr.
  pose proof (Qabs_nonneg x) as Hx.
  assert (Hh : (Qabs x / 2 ^ 53 <= Qabs x * 1)%Q).
  { apply Qmult_le_l_weak; [done|]. vm_compute. discriminate. }
  assert (H75 : (1 / 2 ^ 1075 <= 1)%Q) by (vm_compute; discriminate).
  assert (Ht : (Qabs y <= Qabs x + Qabs (y - x))%Q).
  { assert (He : (y == x + (y - x))%Q) by ring.
    rewrite He at 1. apply Qabs_triangle. }
  generalize dependent (Qabs (y - x)). intros d Hd1 Hd2.
  generalize dependent (Qabs x / 2 ^ 53)%Q. intros q Hq1 Hq2.
  generalize dependent (1 / 2 ^ 1075)%Q. intros t Ht1 Ht2.
  lra.
Qed.

(** The sum the sweep stores: when the bucket and the two epochs are finite
    and below [2 ^ 1000] in magnitude, it is the bucket plus the elapsed
    time, clamped at zero, each of the difference and the sum rounded
    once. *)
Lemma dwell_sum_rounded o leave_ts enter_ts :
  (Qabs o < 2 ^ 1000)%Q → (Qabs leave_ts < 2 ^ 1000)%Q →
  (Qabs enter_ts < 2 ^ 1000)%Q →
  ∃ Δ v,
    rounded (leave_ts - enter_ts) Δ ∧ rounded (o + Qmax 0 Δ) v ∧
    fadd (Finite o) (fmax0 (fsub leave_ts enter_ts)) = Finite v.
Proof.
  intros Ho Hl He. unfold fsub.
  assert (H1000 : (1 <= 2 ^ 1000)%Q) by (vm_compute; discriminate).
  assert (H1023 : (8 * 2 ^ 1000 <= 2 ^ 1023)%Q) by (vm_compute; discriminate).
  assert (Hx : (Qabs (leave_ts - enter_ts) <= Qabs leave_ts + Qabs enter_ts)%Q).
  { unfold Qminus. rewrite <-(Qabs_opp enter_ts). apply Qabs_triangle. }
  destruct (round64_rounded (leave_ts - enter_ts)) as (Δ & HΔ & HrΔ).
  { generalize dependent (2 ^ 1000)%Q. generalize dependent (2 ^ 1023)%Q.
    intros. lra. }
  rewrite HΔ. destruct (fmax0_Finite Δ) as (e & -> & Hemax).
  pose proof (rounded_bound _ _ HrΔ) as HbΔ.
  assert (Hesz : (Qabs e <= Qabs Δ)%Q).
  { rewrite Hemax. pose proof (Qabs_nonneg Δ). pose proof (Qle_Qabs Δ).
    rewrite Qabs_pos by apply Q.le_max_l.
    apply Q.max_lub; lra. }
  pose proof (Qabs_triangle o e) as Hoe.
  destruct (round64_rounded (o + e)) as (v & Hv & Hrv).
  { generalize dependent (2 ^ 1000)%Q. generalize dependent (2 ^ 1023)%Q.
    intros. lra. }
  exists Δ, v. split; [done|]. split; [|done].
  eapply rounded_eq; [|done]. by rewrite Hemax.
Qed.

(** The dwell aggregation after one turn of the sweep loop. *)
Lemma mark_left_rec_dwell now_ts now_iso rec rec' t :
  mark_left_rec now_ts now_iso rec = Ok (rec', t) →
  if t && negb (falsy_ts (last_enter_ts rec)) then
    ∃ day, utc_date_isoformat (epoch (last_enter_ts rec)) = Ok day ∧
      presence_by_day rec'
      = <[day := fadd (default (Finite 0) (presence_by_day rec !! day))
                      (fmax0 (fsub now_ts (epoch (last_enter_ts rec))))]>
          (presence_by_day rec)
  else presence_by_day rec' = presence_by_day rec.
Proof.
  intros Hm. pose proof (mark_left_rec_flag _ _ _ _ _ Hm) as ->.
  destruct (is_stale now_ts rec) eqn:Hs; simpl.
  - rewrite mark_left_rec_stale in Hm by done.
    destruct (falsy_ts (last_enter_ts rec)) eqn:He; simpl.
    + rewrite update_presence_time_no_enter in Hm by done. by simplify_eq/=.
    + rewrite update_presence_time_enter in Hm by done.
      change (last_enter_ts (stamp_left now_iso rec)) with (last_enter_ts rec)
        in Hm.
      destruct (utc_date_isoformat _) as [day|] eqn:Hday;
        cbn [mbind Exc_bind] in Hm; simplify_eq.
      exists day. split; reflexivity.
  - rewrite mark_left_rec_fresh in Hm by done. by simplify_eq.
Qed.



(** The first day of the epoch. *)
Lemma utc_date_epoch_day t :
  (0 <= t)%Q → (t < 86399)%Q → utc_date t 1970 1 1.
Proof.
  intros H0 H1. split; [done|]. split; [done|].
  exists (round_half_even (t * 1000000)).
  split; [apply round_half_even_spec|].
  change (ordinal 1970 1 1 - EPOCH_ORDINAL) with 0.
  unfold round_half_even.
  pose proof (Qfloor_le (t * 1000000)) as Hfl.
  assert (Hf0 : 0 ≤ Qfloor (t * 1000000)).
  { change 0 with (Qfloor 0). apply Qfloor_resp_le. lra. }
  generalize dependent (Qfloor (t * 1000000)). intros f Hfl Hf0.
  assert (Hf1 : f < 86399000000).
  { apply Z.lt_nge. intros Hge. rewrite (Zle_Qle 86399000000 f) in Hge.
    change (inject_Z 86399000000) with (86399000000 # 1)%Q in Hge.
    generalize dependent (inject_Z f). intros q Hq1 Hq2. lra. }
  destruct (_ ?= _)%Q; [destruct (Z.even f)|..]; lia.
Qed.

(** C3 as stated fails in two ways.  A present record whose enter epoch is
    [0.0], marked as left by the sweep at [1130.0], keeps its aggregation
    as it was, where the claim adds 1130 seconds to the bucket of
    1970-01-01: [not enter_ts] holds of [0.0].  And a bucket does not grow
    by exactly the elapsed time: with [0.1] in the bucket of 1970-01-01, a
    record that entered at [1000.0] and is marked as left at [1130.0] holds
    the float [130.1] there, which is not the sum of [0.1] and 130. *)
Lemma dwell_aggregation_inexact :
  let tenth := (3602879701896397 # 36028797018963968)%Q in
  let rec0 := sample_rec "fp0" true (Some 1000%Q) (Some 0%Q) in
  let rec1 :=
    set_presence_by_day {[ "1970-01-01" := Finite tenth ]}
      (sample_rec "fp0" true (Some 1000%Q) (Some 1000%Q)) in
  (present rec0 = true ∧ last_enter_ts rec0 = Some 0%Q ∧
   utc_date 0 1970 1 1 ∧
   ∃ self' rec',
     mark_left_if_stale (sample_logger {[ "fp0" := rec0 ]}) 1130%Q
       "1970-01-01T00:18:50Z" = Ok self' ∧
     devices (registry self') !! "fp0" = Some rec' ∧
     present rec' = false ∧
     presence_by_day rec0 !! iso_date 1970 1 1 = None ∧
     presence_by_day rec' !! iso_date 1970 1 1 = None) ∧
  (present rec1 = true ∧ last_enter_ts rec1 = Some 1000%Q ∧
   utc_date 1000 1970 1 1 ∧
   presence_by_day rec1 !! iso_date 1970 1 1 = Some (Finite tenth) ∧
   ∃ self' rec' v,
     mark_left_if_stale (sample_logger {[ "fp0" := rec1 ]}) 1130%Q
       "1970-01-01T00:18:50Z" = Ok self' ∧
     devices (registry self') !! "fp0" = Some rec' ∧
     present rec' = false ∧
     presence_by_day rec' !! iso_date 1970 1 1 = Some (Finite v) ∧
     ¬ (v == tenth + (1130 - 1000))%Q).
Proof.
  intros tenth rec0 rec1. split.
  - split; [reflexivity|]. split; [reflexivity|].
    split; [apply utc_date_epoch_day; lra|].
    eexists _, _. split; [vm_compute; reflexivity|].
    split; [vm_compute; reflexivity|]. split; [reflexivity|].
    split; vm_compute; reflexivity.
  - split; [reflexivity|]. split; [reflexivity|].
    split; [apply utc_date_epoch_day; lra|].
    split; [vm_compute; reflexivity|].
    eexists _, _, _. split; [vm_compute; reflexivity|].
    split; [vm_compute; reflexivity|]. split; [reflexivity|].
    split; [vm_compute; reflexivity|]. vm_compute. discriminate.
Qed.

Example dwell_130_seconds :
  ∃ self' rec' v,
    mark_left_if_stale
      (sample_logger {[ "fp0" := sample_rec "fp0" true (Some 1000%Q) (Some 1000%Q) ]})
      1130%Q "1970-01-01T00:18:50Z" = Ok self' ∧
    devices (registry self') !! "fp0" = Some rec' ∧
    presence_by_day rec' !! "1970-01-01" = Some (Finite v) ∧ (v == 130)%Q.
Proof.
  eexists _, _, _. split; [vm_compute; reflexivity|].
  split; [vm_compute; reflexivity|]. split; [vm_compute; reflexivity|].
  reflexivity.
Qed.

(** ** Notification policy *)

Lemma name_suppressed_iff name :
  _name_suppressed name = true ↔
  (lower (strip (default "" name)) ∈ SUPPRESS_NOTIFY_NAMES).
Proof. unfold _name_suppressed, py_in. apply bool_decide_eq_true. Qed.

Lemma nonempty_iff s : nonempty s = true ↔ s ≠ "".
Proof. by destruct s. Qed.

Lemma qualifies_for_notify_iff rec name :
  _qualifies_for_notify rec name = true ↔
  (lower (strip (default "" name)) ∉ SUPPRESS_NOTIFY_NAMES) ∧
  (strip (default "" name) ≠ "" ∨ primary_tag rec ≠ Some "unclassified").
Proof.
  unfold _qualifies_for_notify.
  destruct (_name_suppressed name) eqn:Hs.
  - apply name_suppressed_iff in Hs. split; [done|]. intros [Hn _]. by destruct Hn.
  - apply not_true_iff_false in Hs. rewrite name_suppressed_iff in Hs.
    rewrite orb_true_iff, nonempty_iff, negb_true_iff, bool_decide_eq_false.
    split; [by intros ? | by intros [_ ?]].
Qed.

(** *** Whitespace and letter case *)

Lemma str_app_cons a s t : String a s +:+ t = String a (s +:+ t).
Proof. reflexivity. Qed.

Lemma str_app_nil_r s : s +:+ "" = s.
Proof. induction s as [|a s IH]; [done|]. by rewrite str_app_cons, IH. Qed.

Lemma str_app_assoc s t u : (s +:+ t) +:+ u = s +:+ (t +:+ u).
Proof.
  induction s as [|a s IH]; [done|]. by rewrite !str_app_cons, IH.
Qed.

Lemma ascii_of_N_of_ascii a n : N_of_ascii a = n → a = ascii_of_N n.
Proof. intros <-. by rewrite ascii_N_embedding. Qed.

Lemma whitespace_app s t : whitespace s → whitespace t → whitespace (s +:+ t).
Proof.
  induction 1 as [|cp s Hcp Hs IH]; intros Ht; [done|].
  rewrite str_app_assoc. constructor; [done|]. by apply IH.
Qed.

Lemma whitespace_one cp : cp ∈ py_whitespace → whitespace (utf8 cp).
Proof.
  intros Hcp. rewrite <-(str_app_nil_r (utf8 cp)).
  apply whitespace_cons; [done | apply whitespace_nil].
Qed.

Lemma isspace2_bytes a b :
  isspace2 a b = true →
  a = ascii_of_N 0xC2 ∧ (b = ascii_of_N 0x85 ∨ b = ascii_of_N 0xA0).
Proof.
  unfold isspace2. rewrite andb_true_iff, orb_true_iff, !N.eqb_eq.
  intros [Ha [Hb|Hb]]; split;
    first [ by apply ascii_of_N_of_ascii
          | left; by apply ascii_of_N_of_ascii
          | right; by apply ascii_of_N_of_ascii ].
Qed.

Lemma isspace3_bytes a b c :
  isspace3 a b c = true →
  (a = ascii_of_N 0xE1 ∧ b = ascii_of_N 0x9A ∧ c = ascii_of_N 0x80) ∨
  (a = ascii_of_N 0xE2 ∧ b = ascii_of_N 0x80 ∧
   ((0x80 ≤ N_of_ascii c ≤ 0x8A)%N ∨ c = ascii_of_N 0xA8 ∨
    c = ascii_of_N 0xA9 ∨ c = ascii_of_N 0xAF)) ∨
  (a = ascii_of_N 0xE2 ∧ b = ascii_of_N 0x81 ∧ c = ascii_of_N 0x9F) ∨
  (a = ascii_of_N 0xE3 ∧ b = ascii_of_N 0x80 ∧ c = ascii_of_N 0x80).
Proof.
  unfold isspace3.
  rewrite !orb_true_iff, !andb_true_iff, !orb_true_iff, !andb_true_iff,
    !N.eqb_eq, !N.leb_le.
  intros [[[[[Ha Hb] Hc]|[[Ha Hb] Hc]]|[[Ha Hb] Hc]]|[[Ha Hb] Hc]].
  - left. by repeat split; apply ascii_of_N_of_ascii.
  - right; left. split; [by apply ascii_of_N_of_ascii|].
    split; [by apply ascii_of_N_of_ascii|].
    destruct Hc as [[[Hc|Hc]|Hc]|Hc].
    + by left.
    + right; left. by apply ascii_of_N_of_ascii.
    + right; right; left. by apply ascii_of_N_of_ascii.
    + right; right; right. by apply ascii_of_N_of_ascii.
  - right; right; left. by repeat split; apply ascii_of_N_of_ascii.
  - right; right; right. by repeat split; apply ascii_of_N_of_ascii.
Qed.

(** One whitespace character is the UTF-8 form of a whitespace code
    point, and conversely. *)
Lemma one_space_utf8 t :
  one_space t = true → ∃ cp, cp ∈ py_whitespace ∧ t = utf8 cp.
Proof.
  assert (Hin : ∀ cp, bool_decide (cp ∈ py_whitespace) = true →
                      cp ∈ py_whitespace)
    by (intros cp; apply bool_decide_eq_true_1).
  destruct t as [|a [|b [|c [|d t]]]]; cbn [one_space]; try done.
  - intros Ha. exists (Z.of_N (N_of_ascii a)).
    destruct a as [[] [] [] [] [] [] [] []]; try discriminate Ha;
      (split; [apply Hin; vm_compute; reflexivity | reflexivity]).
  - intros [-> [-> | ->]]%isspace2_bytes.
    + exists 0x85. split; [apply Hin; vm_compute; reflexivity | reflexivity].
    + exists 0xA0. split; [apply Hin; vm_compute; reflexivity | reflexivity].
  - intros [(-> & -> & ->)|[(-> & -> & Hc)|[(-> & -> & ->)|(-> & -> & ->)]]]%isspace3_bytes.
    + exists 0x1680. split; [apply Hin; vm_compute; reflexivity | reflexivity].
    + destruct Hc as [Hc|[-> |[-> | ->]]].
      * exists (0x2000 + (Z.of_N (N_of_ascii c) - 0x80)).
        destruct c as [[] [] [] [] [] [] [] []];
          try (exfalso; vm_compute in Hc; destruct Hc as [H1 H2];
               first [ by apply H1 | by apply H2 ]);
          (split; [apply Hin; vm_compute; reflexivity | reflexivity]).
      * exists 0x2028. split; [apply Hin; vm_compute; reflexivity | reflexivity].
      * exists 0x2029. split; [apply Hin; vm_compute; reflexivity | reflexivity].
      * exists 0x202F. split; [apply Hin; vm_compute; reflexivity | reflexivity].
    + exists 0x205F. split; [apply Hin; vm_compute; reflexivity | reflexivity].
    + exists 0x3000. split; [apply Hin; vm_compute; reflexivity | reflexivity].
Qed.

Lemma utf8_one_space cp : cp ∈ py_whitespace → one_space (utf8 cp) = true.
Proof.
  unfold py_whitespace. rewrite !elem_of_cons, elem_of_nil.
  intros H. repeat (destruct H as [->|H]; [reflexivity|]). done.
Qed.

Lemma lstrip_one_space t s : one_space t = true → lstrip (t +:+ s) = lstrip s.
Proof.
  destruct t as [|a [|b [|c [|d t]]]]; cbn [one_space]; try done.
  - intros Ha. rewrite str_app_cons. cbn [lstrip]. by rewrite Ha.
  - intros Hab. rewrite !str_app_cons. cbn [lstrip]. rewrite Hab.
    apply isspace2_bytes in Hab as [-> _]. reflexivity.
  - intros Habc. rewrite !str_app_cons. cbn [lstrip]. rewrite Habc.
    apply isspace3_bytes in Habc
      as [(-> & -> & _)|[(-> & -> & _)|[(-> & -> & _)|(-> & -> & _)]]];
      reflexivity.
Qed.

Lemma lstrip_whitespace l s : whitespace l → lstrip (l +:+ s) = lstrip s.
Proof.
  induction 1 as [|cp l Hcp Hl IH]; [done|].
  rewrite str_app_assoc, lstrip_one_space by by apply utf8_one_space. done.
Qed.

Lemma rstrip_one_space t s :
  one_space t = true → rstrip s = "" → rstrip (t +:+ s) = "".
Proof.
  destruct t as [|a [|b [|c [|d t]]]]; cbn [one_space]; try done.
  - intros Ha Hs. rewrite str_app_cons. change ("" +:+ s) with s. cbn [rstrip]. rewrite Hs.
    cbn [one_space]. by rewrite Ha.
  - intros Hab Hs. rewrite !str_app_cons. change ("" +:+ s) with s. cbn [rstrip]. rewrite Hs.
    pose proof Hab as [-> [-> | ->]]%isspace2_bytes; reflexivity.
  - intros Habc Hs. rewrite !str_app_cons. change ("" +:+ s) with s. cbn [rstrip]. rewrite Hs.
    pose proof Habc
      as [(-> & -> & ->)|[(-> & -> & Hc)|[(-> & -> & ->)|(-> & -> & ->)]]]%isspace3_bytes;
      try reflexivity.
    cbn [one_space].
    assert (isspace c = false) as ->.
    { unfold isspace. destruct Hc as [Hc|[-> |[-> | ->]]]; try reflexivity.
      destruct (N_of_ascii c); [lia|].
      apply orb_false_iff. split; apply andb_false_iff; right;
        apply N.leb_gt; lia. }
    assert (isspace2 (ascii_of_N 128) c = false) as -> by reflexivity.
    by rewrite Habc.
Qed.

Lemma rstrip_whitespace r : whitespace r → rstrip r = "".
Proof.
  induction 1 as [|cp r Hcp Hr IH]; [done|].
  by apply rstrip_one_space; [apply utf8_one_space|].
Qed.

Lemma rstrip_app_whitespace s r : whitespace r → rstrip (s +:+ r) = rstrip s.
Proof.
  intros Hr. induction s as [|a s IH]; [by apply rstrip_whitespace|].
  rewrite str_app_cons. cbn [rstrip]. by rewrite IH.
Qed.

(** What [lstrip] and [rstrip] drop is whitespace. *)
Lemma lstrip_dropped s : ∃ l, s = l +:+ lstrip s ∧ whitespace l.
Proof.
  remember (String.length s) as n eqn:Hn. revert s Hn.
  induction n as [n IH] using lt_wf_ind. intros s ->.
  assert (Hone : ∀ t s', one_space t = true → s = t +:+ s' →
                 (String.length s' < String.length s)%nat →
                 ∃ l, s = l +:+ lstrip s ∧ whitespace l).
  { intros t s' Ht -> Hlen. destruct (IH _ Hlen s' eq_refl) as (l & Hl & Hws).
    destruct (one_space_utf8 _ Ht) as (cp & Hcp & ->).
    exists (utf8 cp +:+ l). split; [|by constructor].
    rewrite lstrip_one_space by by apply utf8_one_space.
    by rewrite str_app_assoc, <-Hl. }
  destruct s as [|a s1]; [exists ""; by split; [|constructor]|].
  destruct (isspace a) eqn:Ha.
  { apply (Hone (String a "") s1); [done|done|]. cbn. lia. }
  destruct s1 as [|b s2].
  { exists "". split; [|constructor]. cbn [lstrip]. by rewrite Ha. }
  destruct (isspace2 a b) eqn:Hab.
  { apply (Hone (String a (String b "")) s2); [done|done|]. cbn. lia. }
  destruct s2 as [|c s3].
  { exists "". split; [|constructor]. cbn [lstrip]. by rewrite Ha, Hab. }
  destruct (isspace3 a b c) eqn:Habc.
  { apply (Hone (String a (String b (String c ""))) s3); [done|done|]. cbn. lia. }
  exists "". split; [|constructor]. cbn [lstrip]. by rewrite Ha, Hab, Habc.
Qed.

Lemma rstrip_dropped s : ∃ r, s = rstrip s +:+ r ∧ whitespace r.
Proof.
  induction s as [|a s (r & Hr & Hws)]; [exists ""; by split; [|constructor]|].
  cbn [rstrip]. destruct (one_space (String a (rstrip s))) eqn:Hone.
  - destruct (one_space_utf8 _ Hone) as (cp & Hcp & Hcp').
    exists (utf8 cp +:+ r). split; [|by constructor].
    rewrite <-Hcp', str_app_cons, <-Hr. done.
  - exists r. split; [|done]. by rewrite str_app_cons, <-Hr.
Qed.

Lemma strip_dropped s :
  ∃ l r, s = l +:+ strip s +:+ r ∧ whitespace l ∧ whitespace r.
Proof.
  destruct (lstrip_dropped s) as (l & Hl & Hwl).
  destruct (rstrip_dropped (lstrip s)) as (r & Hr & Hwr).
  exists l, r. split; [|done]. unfold strip. by rewrite <-Hr.
Qed.

(** A string is stripped to nothing exactly when it is whitespace. *)
Lemma strip_empty_iff s : strip s = "" ↔ whitespace s.
Proof.
  split.
  - intros Hs. destruct (strip_dropped s) as (l & r & Heq & Hl & Hr).
    rewrite Hs in Heq. rewrite Heq. by apply whitespace_app.
  - intros Hs. unfold strip.
    rewrite <-(str_app_nil_r s), lstrip_whitespace by done. done.
Qed.

Lemma visible_bytes a :
  visible a = true → (N_of_ascii a < 128)%N ∧ isspace a = false.
Proof.
  unfold visible. rewrite andb_true_iff, N.ltb_lt, negb_true_iff. done.
Qed.

Lemma lstrip_visible a s : visible a = true → lstrip (String a s) = String a s.
Proof.
  intros [Ha Hsp]%visible_bytes. cbn [lstrip]. rewrite Hsp.
  destruct s as [|b s]; [done|].
  assert (isspace2 a b = false) as ->.
  { unfold isspace2. destruct (N.eqb_spec (N_of_ascii a) 0xC2); [lia|done]. }
  destruct s as [|c s]; [done|].
  assert (isspace3 a b c = false) as ->; [|done].
  unfold isspace3.
  destruct (N.eqb_spec (N_of_ascii a) 0xE1); [lia|].
  destruct (N.eqb_spec (N_of_ascii a) 0xE2); [lia|].
  destruct (N.eqb_spec (N_of_ascii a) 0xE3); [lia|done].
Qed.

Lemma one_space_last a s e :
  one_space (String a s) = true → str_last s = Some e →
  (128 ≤ N_of_ascii e)%N.
Proof.
  destruct s as [|b [|c [|d s]]]; cbn [one_space str_last]; try done.
  - intros [_ [-> | ->]]%isspace2_bytes [= <-]; vm_compute; discriminate.
  - intros [(_ & _ & ->)|[(_ & _ & Hc)|[(_ & _ & ->)|(_ & _ & ->)]]]%isspace3_bytes
      [= <-]; try (vm_compute; discriminate).
    destruct Hc as [Hc|[-> |[-> | ->]]]; try (vm_compute; discriminate). lia.
Qed.

Lemma rstrip_visible s e :
  str_last s = Some e → visible e = true → rstrip s = s.
Proof.
  intros Hlast [He Hsp]%visible_bytes.
  induction s as [|a s IH]; [done|].
  destruct s as [|b s].
  - injection Hlast as ->. cbn [rstrip one_space]. by rewrite Hsp.
  - change (str_last (String a (String b s))) with (str_last (String b s))
      in Hlast.
    cbn [rstrip] in *. rewrite (IH Hlast).
    destruct (one_space (String a (String b s))) eqn:Hone; [|done].
    pose proof (one_space_last _ _ _ Hone Hlast). lia.
Qed.

(** Between whitespace, a string that starts and ends with a visible
    ASCII character is what [strip] returns. *)
Lemma strip_between l a core r e :
  whitespace l → whitespace r →
  visible a = true → str_last (String a core) = Some e → visible e = true →
  strip (l +:+ String a core +:+ r) = String a core.
Proof.
  intros Hl Hr Ha Hlast He. unfold strip.
  rewrite lstrip_whitespace by done.
  rewrite str_app_cons, lstrip_visible by done.
  rewrite <-str_app_cons, rstrip_app_whitespace by done.
  by eapply rstrip_visible.
Qed.

Lemma same_letter_lower a b : same_letter a b → lower_ascii a = lower_ascii b.
Proof.
  unfold lower_ascii.
  intros [->|[[[Ha1 Ha2] Hb]|[[Hb1 Hb2] Ha]]]; [done|..].
  - rewrite Hb.
    destruct (N.leb_spec 65 (N_of_ascii a)); [|lia].
    destruct (N.leb_spec (N_of_ascii a) 90); [|lia].
    destruct (N.leb_spec 65 (N_of_ascii a + 32)); [|lia].
    destruct (N.leb_spec (N_of_ascii a + 32) 90); [lia|]. cbn [andb].
    rewrite <-Hb. by rewrite ascii_N_embedding.
  - rewrite Ha.
    destruct (N.leb_spec 65 (N_of_ascii b)); [|lia].
    destruct (N.leb_spec (N_of_ascii b) 90); [|lia].
    destruct (N.leb_spec 65 (N_of_ascii b + 32)); [|lia].
    destruct (N.leb_spec (N_of_ascii b + 32) 90); [lia|]. cbn [andb].
    rewrite <-Ha. by rewrite ascii_N_embedding.
Qed.

Lemma lower_ascii_same_letter a : same_letter a (lower_ascii a).
Proof.
  unfold lower_ascii, same_letter.
  destruct (N.leb_spec 65 (N_of_ascii a)); [|by left].
  destruct (N.leb_spec (N_of_ascii a) 90); [|by left]. cbn [andb].
  right; left. split; [lia|].
  rewrite N_ascii_embedding; [done|lia].
Qed.

Lemma caseless_lower s t : caseless s t → lower s = lower t.
Proof.
  revert t. induction s as [|a s IH]; intros [|b t]; cbn [caseless lower];
    try done.
  intros [Hab Hst]. by rewrite (same_letter_lower _ _ Hab), (IH _ Hst).
Qed.

Lemma lower_caseless s : caseless s (lower s).
Proof.
  induction s as [|a s IH]; cbn [caseless lower]; [done|].
  split; [apply lower_ascii_same_letter | done].
Qed.

Lemma same_letter_visible a b : same_letter a b → visible b = true → visible a = true.
Proof.
  intros Hab [Hb Hsp]%visible_bytes. unfold visible, isspace in *.
  destruct Hab as [->|[[[Ha1 Ha2] Hb']|[[Hb1 Hb2] Ha]]].
  - apply andb_true_iff. split; [by apply N.ltb_lt|]. by rewrite Hsp.
  - apply andb_true_iff. split; [apply N.ltb_lt; lia|].
    apply negb_true_iff, orb_false_iff.
    split; apply andb_false_iff; right; apply N.leb_gt; lia.
  - rewrite Ha. apply andb_true_iff. split; [apply N.ltb_lt; lia|].
    apply negb_true_iff, orb_false_iff.
    split; apply andb_false_iff; right; apply N.leb_gt; lia.
Qed.

Lemma caseless_last s t e :
  caseless s t → str_last t = Some e → visible e = true →
  ∃ e', str_last s = Some e' ∧ visible e' = true.
Proof.
  revert t. induction s as [|a s IH]; intros [|b t]; cbn [caseless];
    try done.
  intros [Hab Hst] Hlast He.
  destruct s as [|a' s], t as [|b' t]; try done.
  - injection Hlast as <-. exists a. split; [done|].
    by eapply same_letter_visible.
  - change (str_last (String b (String b' t))) with (str_last (String b' t))
      in Hlast.
    change (str_last (String a (String a' s))) with (str_last (String a' s)).
    by eapply IH.
Qed.

(** The suppression test, without [strip] and [lower]. *)
Lemma name_suppressed_spec name :
  _name_suppressed name = true ↔ suppressed (default "" name).
Proof.
  rewrite name_suppressed_iff. set (s := default "" name). split.
  - intros Hin. destruct (strip_dropped s) as (l & r & Heq & Hl & Hr).
    exists l, (strip s), r, (lower (strip s)).
    split; [done|]. split; [done|]. split; [done|]. split; [done|].
    apply lower_caseless.
  - intros (l & core & r & t & -> & Hl & Hr & Ht & Hc).
    unfold SUPPRESS_NOTIFY_NAMES in *. apply list_elem_of_singleton in Ht as ->.
    destruct core as [|a core]; [done|].
    destruct (caseless_last _ _ "e"%char Hc eq_refl eq_refl) as (e' & Hlast & He').
    assert (Ha : visible a = true).
    { destruct Hc as [Ha _]. by apply (same_letter_visible _ _ Ha). }
    rewrite (strip_between _ _ _ _ _ Hl Hr Ha Hlast He').
    rewrite (caseless_lower _ _ Hc). apply list_elem_of_singleton. reflexivity.
Qed.

Lemma has_name_spec name :
  nonempty (strip (default "" name)) = true ↔ ¬ whitespace (default "" name).
Proof. by rewrite nonempty_iff, strip_empty_iff. Qed.

(** The policy, without [strip] and [lower]. *)
Lemma qualifies_for_notify_spec rec name :
  _qualifies_for_notify rec name = true ↔
  ¬ suppressed (default "" name) ∧
  (¬ whitespace (default "" name) ∨ primary_tag rec ≠ Some "unclassified").
Proof.
  rewrite qualifies_for_notify_iff, <-strip_empty_iff, <-name_suppressed_spec,
    name_suppressed_iff. done.
Qed.

(** *** What [strip] returns *)

Lemma str_length_app s t :
  String.length (s +:+ t) = (String.length s + String.length t)%nat.
Proof. induction s as [|c s IH]; simpl; [done | by rewrite IH]. Qed.

Lemma whitespace_lead b r : whitespace (String b r) → space_lead b = true.
Proof.
  inversion 1 as [|cp s Hcp Hs Heq].
  unfold py_whitespace in Hcp. rewrite !elem_of_cons, elem_of_nil in Hcp.
  repeat (destruct Hcp as [->|Hcp];
          [vm_compute in Heq; injection Heq as <-; reflexivity|]).
  done.
Qed.

Lemma isspace2_not_lead a b : isspace2 a b = true → space_lead b = false.
Proof. by intros [_ [-> | ->]]%isspace2_bytes. Qed.

Lemma isspace3_not_lead a b c :
  isspace3 a b c = true → space_lead b = false ∧ space_lead c = false.
Proof.
  intros [(_ & -> & ->)|[(_ & -> & Hc)|[(_ & -> & ->)|(_ & -> & ->)]]]%isspace3_bytes;
    try done.
  split; [done|]. destruct Hc as [Hc|[-> |[-> | ->]]]; try done.
  unfold space_lead, isspace.
  destruct (N.eqb_spec (N_of_ascii c) 0xC2); [lia|].
  destruct (N.eqb_spec (N_of_ascii c) 0xE1); [lia|].
  destruct (N.eqb_spec (N_of_ascii c) 0xE2); [lia|].
  destruct (N.eqb_spec (N_of_ascii c) 0xE3); [lia|].
  rewrite !orb_false_r. apply orb_false_iff.
  split; apply andb_false_iff; right; apply N.leb_gt; lia.
Qed.

Lemma lstrip_tight s :
  (∀ cp t, cp ∈ py_whitespace → s ≠ utf8 cp +:+ t) → lstrip s = s.
Proof.
  intros Hs.
  assert (Hno : ∀ t s', one_space t = true → s ≠ t +:+ s').
  { intros t s' Ht. destruct (one_space_utf8 _ Ht) as (cp & Hcp & ->).
    by apply Hs. }
  destruct s as [|a s1]; [done|]. cbn [lstrip].
  destruct (isspace a) eqn:Ha.
  { by destruct (Hno (String a "") s1). }
  destruct s1 as [|b s2]; [done|].
  destruct (isspace2 a b) eqn:Hab.
  { by destruct (Hno (String a (String b "")) s2). }
  destruct s2 as [|c s3]; [done|].
  destruct (isspace3 a b c) eqn:Habc; [|done].
  by destruct (Hno (String a (String b (String c ""))) s3).
Qed.

Lemma rstrip_tight s :
  (∀ cp t, cp ∈ py_whitespace → s ≠ t +:+ utf8 cp) → rstrip s = s.
Proof.
  induction s as [|a s IH]; intros Hs; [done|].
  cbn [rstrip]. rewrite IH.
  - destruct (one_space (String a s)) eqn:Hone; [|done].
    destruct (one_space_utf8 _ Hone) as (cp & Hcp & Heq).
    destruct (Hs cp "" Hcp). by rewrite Heq.
  - intros cp t Hcp ->. by destruct (Hs cp (String a t) Hcp).
Qed.

(** Whitespace after a string that does not start with a whitespace
    character does not make it start with one. *)
Lemma lstrip_app_tight s r :
  s ≠ "" → (∀ cp t, cp ∈ py_whitespace → s ≠ utf8 cp +:+ t) →
  whitespace r → lstrip (s +:+ r) = s +:+ r.
Proof.
  intros Hne Hs Hr.
  assert (Hno : ∀ t s', one_space t = true → s ≠ t +:+ s').
  { intros t s' Ht. destruct (one_space_utf8 _ Ht) as (cp & Hcp & ->).
    by apply Hs. }
  destruct s as [|a s1]; [done|]. rewrite str_app_cons. cbn [lstrip].
  destruct (isspace a) eqn:Ha.
  { by destruct (Hno (String a "") s1). }
  destruct s1 as [|b s2].
  { change ("" +:+ r) with r. destruct r as [|b r]; [done|].
    pose proof (whitespace_lead _ _ Hr) as Hb.
    destruct (isspace2 a b) eqn:Hab.
    { apply isspace2_not_lead in Hab. congruence. }
    destruct r as [|c r]; [done|].
    destruct (isspace3 a b c) eqn:Habc; [|done].
    apply isspace3_not_lead in Habc as [? _]. congruence. }
  rewrite str_app_cons.
  destruct (isspace2 a b) eqn:Hab.
  { by destruct (Hno (String a (String b "")) s2). }
  destruct s2 as [|c s3].
  { change ("" +:+ r) with r. destruct r as [|c r]; [done|].
    pose proof (whitespace_lead _ _ Hr) as Hc.
    destruct (isspace3 a b c) eqn:Habc; [|done].
    apply isspace3_not_lead in Habc as [_ ?]. congruence. }
  rewrite str_app_cons.
  destruct (isspace3 a b c) eqn:Habc; [|done].
  by destruct (Hno (String a (String b (String c ""))) s3).
Qed.

Lemma strip_trimmed raw text : trimmed raw text → strip raw = text.
Proof.
  intros (l & r & -> & Hl & Hr & Ht). unfold strip.
  rewrite lstrip_whitespace by done.
  destruct (decide (text = "")) as [->|Hne].
  - change ("" +:+ r) with r.
    rewrite <-(str_app_nil_r r), lstrip_whitespace by done. done.
  - rewrite lstrip_app_tight; [|done| |done].
    + rewrite rstrip_app_whitespace by done.
      apply rstrip_tight. intros cp t Hcp. by apply Ht.
    + intros cp t Hcp. by apply Ht.
Qed.

Lemma strip_tight s : tight (strip s).
Proof.
  intros cp t Hcp. split.
  - intros Heq. destruct (lstrip_dropped s) as (l & Hl & Hwl).
    destruct (rstrip_dropped (lstrip s)) as (r & Hr & Hwr).
    fold (strip s) in Hr. rewrite Heq, str_app_assoc in Hr.
    assert (Hidem : lstrip (lstrip s) = lstrip s).
    { clear. remember (String.length s) as n eqn:Hn. revert s Hn.
      induction n as [n IH] using lt_wf_ind. intros s ->.
      destruct s as [|a s1]; [done|]. cbn [lstrip].
      destruct (isspace a) eqn:Ha.
      { apply (IH (String.length s1)); [cbn; lia | done]. }
      destruct s1 as [|b s2]; [cbn [lstrip]; by rewrite Ha|].
      destruct (isspace2 a b) eqn:Hab.
      { apply (IH (String.length s2)); [cbn; lia | done]. }
      destruct s2 as [|c s3]; [cbn [lstrip]; by rewrite Ha, Hab|].
      destruct (isspace3 a b c) eqn:Habc.
      { apply (IH (String.length s3)); [cbn; lia | done]. }
      cbn [lstrip]. by rewrite Ha, Hab, Habc. }
    rewrite Hr in Hidem at 1.
    rewrite lstrip_one_space in Hidem by by apply utf8_one_space.
    assert (Hlen : ∀ x, (String.length (lstrip x) ≤ String.length x)%nat).
    { clear. intros x. destruct (lstrip_dropped x) as (l & Hl & _).
      rewrite Hl at 2. rewrite str_length_app. lia. }
    pose proof (Hlen (t +:+ r)) as Hle. rewrite Hidem, Hr in Hle.
    rewrite !str_length_app in Hle.
    assert (0 < String.length (utf8 cp))%nat; [|lia].
    unfold py_whitespace in Hcp. rewrite !elem_of_cons, elem_of_nil in Hcp.
    repeat (destruct Hcp as [->|Hcp]; [vm_compute; lia|]). done.
  - intros Heq. unfold strip in Heq.
    assert (Hr : rstrip (rstrip (lstrip s)) = rstrip (lstrip s)).
    { generalize (lstrip s). clear. intros x.
      induction x as [|a x IH]; [done|]. cbn [rstrip].
      destruct (one_space (String a (rstrip x))) eqn:Hone; [done|].
      cbn [rstrip]. by rewrite IH, Hone. }
    rewrite Heq in Hr at 1.
    rewrite rstrip_app_whitespace in Hr by by apply whitespace_one.
    rewrite Heq in Hr.
    assert (Hlen : ∀ x, (String.length (rstrip x) ≤ String.length x)%nat).
    { clear. intros x. destruct (rstrip_dropped x) as (r & Hr & _).
      rewrite Hr at 2. rewrite str_length_app. lia. }
    pose proof (Hlen t) as Hle. rewrite Hr in Hle.
    rewrite str_length_app in Hle.
    assert (0 < String.length (utf8 cp))%nat; [|lia].
    unfold py_whitespace in Hcp. rewrite !elem_of_cons, elem_of_nil in Hcp.
    repeat (destruct Hcp as [->|Hcp]; [vm_compute; lia|]). done.
Qed.

(** [strip] returns the text between the whitespace, and nothing else
    is. *)
Lemma strip_spec raw text : strip raw = text ↔ trimmed raw text.
Proof.
  split; [|apply strip_trimmed].
  intros <-. destruct (strip_dropped raw) as (l & r & Heq & Hl & Hr).
  exists l, r. split; [done|]. split; [done|]. split; [done|]. apply strip_tight.
Qed.

(** The enter step posts exactly when the policy says so. *)
Lemma enter_sent iso ts address name rssi fp material rec :
  present rec = false →
  is_Some (enter iso ts address name rssi fp material rec).2 ↔
  (lower (strip (default "" name)) ∉ SUPPRESS_NOTIFY_NAMES) ∧
  (strip (default "" name) ≠ "" ∨ primary_tag rec ≠ Some "unclassified").
Proof.
  intros Hp. unfold enter. rewrite Hp. cbn [negb].
  match goal with
  | |- context [_qualifies_for_notify ?r name] =>
      rewrite <-(qualifies_for_notify_iff rec name);
      replace (_qualifies_for_notify r name)
        with (_qualifies_for_notify rec name)
        by (unfold _qualifies_for_notify;
            destruct (bool_decide (_ ≠ None)); reflexivity)
  end.
  destruct (_qualifies_for_notify rec name); cbn [snd].
  - split; [done | eauto].
  - split; [by intros [? ?] | done].
Qed.

(** C4: an upsert that takes its record from absent to present posts the
    webhook if and only if the name is not suppressed and the name is not
    blank or the primary tag is not "unclassified".  The name is suppressed
    when, between whitespace, it reads as a suppressed name whatever the
    case of its letters; it is blank when it is missing, empty or made of
    whitespace only.  A suppressed name therefore never posts, whatever the
    tags. *)
Theorem upsert_notifies self now_iso now_ts address name rssi mfg_data su sk
    source :
  present (record_before (devices (registry self)) now_iso mfg_data su sk)
  = false →
  is_Some (upsert self now_iso now_ts address name rssi mfg_data su sk
                  source).2 ↔
  ¬ suppressed (default "" name) ∧
  (¬ whitespace (default "" name) ∨
   primary_tag (record_before (devices (registry self)) now_iso mfg_data su sk)
   ≠ Some "unclassified").
Proof.
  intros Hp. rewrite upsert_sent.
  pose proof (observe_presence now_iso now_ts address name rssi source
                (record_before (devices (registry self)) now_iso mfg_data su sk))
    as Ho.
  cbv zeta in Ho. destruct Ho as (Hpres & _ & _ & _ & _ & _ & _ & _ & _ & Htag).
  rewrite enter_sent by congruence. rewrite Htag.
  rewrite <-strip_empty_iff, <-name_suppressed_spec, name_suppressed_iff.
  done.
Qed.

(** An upsert on a present record never posts. *)
Lemma upsert_present_silent self now_iso now_ts address name rssi mfg_data su
    sk source :
  present (record_before (devices (registry self)) now_iso mfg_data su sk)
  = true →
  (upsert self now_iso now_ts address name rssi mfg_data su sk source).2 = None.
Proof.
  intros Hp. rewrite upsert_sent.
  pose proof (observe_presence now_iso now_ts address name rssi source
                (record_before (devices (registry self)) now_iso mfg_data su sk))
    as Ho.
  cbv zeta in Ho. destruct Ho as (Hpres & _). rewrite Hp in Hpres.
  by rewrite (enter_present _ _ _ _ _ _ _ _ Hpres).
Qed.

Lemma upsert_notifies_witness :
  let name := utf8 0xA0 +:+ "Your_Devices_Here" +:+ utf8 0x3000 in
  present (record_before (devices (registry (sample_logger ∅)))
             "1970-01-01T00:15:00Z" (Some {[ 76 := [] ]}) None None) = false ∧
  (is_Some (upsert (sample_logger ∅) "1970-01-01T00:15:00Z" 900%Q
                   (Some "AA:BB:CC:DD:EE:FF") (Some name)
                   (Some (-60)) (Some {[ 76 := [] ]}) None None None).2 ↔
   ¬ suppressed (default "" (Some name)) ∧
   (¬ whitespace (default "" (Some name)) ∨
    primary_tag (record_before (devices (registry (sample_logger ∅)))
                   "1970-01-01T00:15:00Z" (Some {[ 76 := [] ]}) None None)
    ≠ Some "unclassified")).
Proof.
  intros name.
  assert (Hp : present (record_before (devices (registry (sample_logger ∅)))
                 "1970-01-01T00:15:00Z" (Some {[ 76 := [] ]}) None None)
               = false).
  { vm_compute. reflexivity. }
  split; [exact Hp|].
  exact (upsert_notifies (sample_logger ∅) "1970-01-01T00:15:00Z" 900%Q
           (Some "AA:BB:CC:DD:EE:FF") (Some name)
           (Some (-60)) (Some {[ 76 := [] ]}) None None None Hp).
Defined.

(** A suppressed name between no-break spaces is silent, tags or not. *)
Example suppressed_name_between_nbsp_is_silent :
  (upsert (sample_logger ∅) "1970-01-01T00:15:00Z" 900%Q
          (Some "AA:BB:CC:DD:EE:FF")
          (Some (utf8 0xA0 +:+ "Your_Devices_Here" +:+ utf8 0x3000))
          (Some (-60)) (Some {[ 76 := [] ]}) None None None).2 = None.
Proof. vm_compute. reflexivity. Qed.

(** A name made of no-break spaces is blank. *)
Example nbsp_name_is_silent :
  (upsert (sample_logger ∅) "1970-01-01T00:15:00Z" 900%Q
          (Some "AA:BB:CC:DD:EE:FF") (Some (utf8 0xA0 +:+ utf8 0xA0))
          (Some (-60)) None None None None).2 = None.
Proof. vm_compute. reflexivity. Qed.

Example suppressed_name_is_silent :
  (upsert (sample_logger ∅) "1970-01-01T00:15:00Z" 900%Q
          (Some "AA:BB:CC:DD:EE:FF") (Some " Your_Devices_Here ")
          (Some (-60)) (Some {[ 76 := [] ]}) None None None).2 = None.
Proof. vm_compute. reflexivity. Qed.

Example tagged_nameless_is_posted :
  p_primary_tag <$>
    (upsert (sample_logger ∅) "1970-01-01T00:15:00Z" 900%Q
            (Some "AA:BB:CC:DD:EE:FF") None
            (Some (-60)) (Some {[ 76 := [] ]}) None None None).2
  = Some (Some "vendor:apple").
Proof. vm_compute. reflexivity. Qed.

Example untagged_nameless_is_silent :
  (upsert (sample_logger ∅) "1970-01-01T00:15:00Z" 900%Q
          (Some "AA:BB:CC:DD:EE:FF") (Some "  ")
          (Some (-60)) None None None None).2 = None.
Proof. vm_compute. reflexivity. Qed.

(** ** Counters *)

(** C7: an upsert that takes its record from absent to present increments
    [enter_count], and increments [reenter_count] exactly when the record
    carries a leave timestamp.  On a fingerprint that is not registered yet
    it leaves [enter_count] at 1 and [reenter_count] at 0. *)
Theorem upsert_reenter_count self now_iso now_ts address name rssi mfg_data
    su sk source :
  let before := record_before (devices (registry self)) now_iso mfg_data su sk in
  present before = false →
  ∃ rec',
    record_after self now_iso now_ts address name rssi mfg_data su sk source
    = Some rec' ∧
    present rec' = true ∧
    enter_count rec' = Some (count (enter_count before) + 1) ∧
    (last_left before ≠ None →
     reenter_count rec' = Some (count (reenter_count before) + 1)) ∧
    (last_left before = None → reenter_count rec' = reenter_count before) ∧
    (devices (registry self) !! sighting_fp mfg_data su sk = None →
     enter_count rec' = Some 1 ∧ reenter_count rec' = Some 0).
Proof.
  intros before Hp. rewrite record_after_eq. eexists. split; [reflexivity|].
  fold before.
  pose proof (observe_presence now_iso now_ts address name rssi source before)
    as Ho.
  cbv zeta in Ho. destruct Ho as (Hpres & Hll & _ & _ & _ & Hec & _ & Hrc & _).
  rewrite Hp in Hpres.
  pose proof (enter_absent now_iso now_ts address name rssi
                (sighting_fp mfg_data su sk)
                (compute_fingerprint (Some (mfg_keys mfg_data)) su sk).2
                _ Hpres) as Hen.
  cbv zeta in Hen. destruct Hen as (H1 & H2 & H3 & _).
  rewrite Hll, Hrc in H3. rewrite Hec in H2.
  split; [done|]. split; [done|]. split; [|split].
  - intros Hleft. rewrite H3. by destruct (last_left before).
  - intros Hleft. by rewrite H3, Hleft.
  - intros Hnew. subst before.
    destruct (record_before_new self now_iso mfg_data su sk Hnew)
      as (tags & primary & Hrec).
    rewrite H2, H3, Hrec. done.
Qed.

Lemma upsert_reenter_count_witness :
  present (record_before (devices (registry (sample_logger ∅)))
             "1970-01-01T00:15:00Z" (Some {[ 76 := [] ]}) None None) = false ∧
  ∃ rec',
    record_after (sample_logger ∅) "1970-01-01T00:15:00Z" 900%Q
      (Some "AA:BB:CC:DD:EE:FF") None (Some (-60)) (Some {[ 76 := [] ]})
      None None None = Some rec' ∧
    present rec' = true ∧ enter_count rec' = Some 1 ∧
    reenter_count rec' = Some 0.
Proof.
  assert (Hp : present (record_before (devices (registry (sample_logger ∅)))
                 "1970-01-01T00:15:00Z" (Some {[ 76 := [] ]}) None None)
               = false).
  { vm_compute. reflexivity. }
  split; [exact Hp|].
  destruct (upsert_reenter_count (sample_logger ∅) "1970-01-01T00:15:00Z"
              900%Q (Some "AA:BB:CC:DD:EE:FF") None (Some (-60))
              (Some {[ 76 := [] ]}) None None None Hp)
    as (rec' & Ha & Hpres & _ & _ & _ & Hnew).
  exists rec'. split; [exact Ha|]. split; [exact Hpres|].
  apply Hnew. vm_compute. reflexivity.
Defined.

(** Enter, leave after the timeout, enter again. *)
Example reenter_after_leave :
  ∃ self' rec',
    run_ops (sample_logger ∅)
      [ OpUpsert "1970-01-01T00:15:00Z" 900%Q (Some "AA:BB:CC:DD:EE:FF") None
                 (Some (-60)) (Some {[ 76 := [] ]}) None None None;
        OpSweep 1030%Q "1970-01-01T00:17:10Z";
        OpUpsert "1970-01-01T00:20:00Z" 1200%Q (Some "AA:BB:CC:DD:EE:FF") None
                 (Some (-55)) (Some {[ 76 := [] ]}) None None None ]
    = Ok self' ∧
    devices (registry self') !! "ea096de977f0" = Some rec' ∧
    present rec' = true ∧ seen_count rec' = Some 2 ∧
    enter_count rec' = Some 2 ∧ leave_count rec' = Some 1 ∧
    reenter_count rec' = Some 1 ∧ best_rssi rec' = Some (-55) ∧
    primary_tag rec' = Some "vendor:apple".
Proof.
  eexists _, _. split; [vm_compute; reflexivity|].
  split; [vm_compute; reflexivity|]. repeat split.
Qed.

(** C9: an upsert stores its signal strength in [last_rssi] as it is, [None]
    included.  Without a signal strength [best_rssi] keeps its value; with
    one it becomes the larger of its value and the new one, or the new one
    when it had none.  ([record_before] is the registered record when the
    fingerprint is registered.) *)
Theorem upsert_rssi self now_iso now_ts address name rssi mfg_data su sk
    source :
  let before := record_before (devices (registry self)) now_iso mfg_data su sk in
  ∃ rec',
    record_after self now_iso now_ts address name rssi mfg_data su sk source
    = Some rec' ∧
    last_rssi rec' = rssi ∧
    best_rssi rec'
    = match rssi with
      | None => best_rssi before
      | Some x => Some (match best_rssi before with
                        | None => x
                        | Some best => Z.max best x
                        end)
      end.
Proof.
  intros before. rewrite record_after_eq. eexists. split; [reflexivity|].
  fold before.
  set (obs := observe now_iso now_ts address name rssi source before).
  pose proof (observe_last_rssi now_iso now_ts address name rssi source before)
    as Hlast.
  pose proof (observe_best_rssi now_iso now_ts address name rssi source before)
    as Hbest.
  fold obs in Hlast, Hbest. destruct (present obs) eqn:Hp.
  - rewrite (enter_present _ _ _ _ _ _ _ _ Hp). by cbn [fst].
  - pose proof (enter_absent now_iso now_ts address name rssi
                  (sighting_fp mfg_data su sk)
                  (compute_fingerprint (Some (mfg_keys mfg_data)) su sk).2
                  _ Hp) as Hen.
    cbv zeta in Hen. destruct Hen as (_&_&_&_&_&_&_&_&_&_&Hb&Hr&_).
    split; congruence.
Qed.

Example rssi_none_overwrites_last :
  ∃ rec',
    record_after
      (sample_logger {[ "ea096de977f0" :=
         sample_rec "ea096de977f0" true (Some 1000%Q) (Some 900%Q) ]})
      "1970-01-01T00:17:00Z" 1020%Q None None None (Some {[ 76 := [] ]})
      None None None = Some rec' ∧
    last_rssi rec' = None ∧ best_rssi rec' = Some (-55).
Proof. eexists. split; [vm_compute; reflexivity|]. split; reflexivity. Qed.

Lemma counters_le_refl r : counters_le r r.
Proof. unfold counters_le. lia. Qed.

Lemma counters_le_trans r1 r2 r3 :
  counters_le r1 r2 → counters_le r2 r3 → counters_le r1 r3.
Proof. unfold counters_le. lia. Qed.

(** One upsert: every registered record keeps or raises its counters, and
    the record of the sighting's fingerprint is seen once more. *)
Lemma upsert_counters self now_iso now_ts address name rssi mfg_data su sk
    source fp rec :
  devices (registry self) !! fp = Some rec →
  ∃ rec',
    devices (registry (upsert self now_iso now_ts address name rssi mfg_data
                              su sk source).1) !! fp = Some rec' ∧
    counters_le rec rec' ∧
    count (seen_count rec')
    = count (seen_count rec)
      + (if bool_decide (sighting_fp mfg_data su sk = fp) then 1 else 0).
Proof.
  intros Hl. case_bool_decide as Hfp.
  - subst fp.
    pose proof (record_after_eq self now_iso now_ts address name rssi
                  mfg_data su sk source) as Ha.
    unfold record_after in Ha. rewrite Ha. eexists. split; [done|].
    rewrite (record_before_lookup _ _ _ _ _ _ Hl).
    set (obs := observe now_iso now_ts address name rssi source rec).
    pose proof (observe_presence now_iso now_ts address name rssi source rec)
      as Ho.
    pose proof (observe_seen_count now_iso now_ts address name rssi source rec)
      as Hsc.
    cbv zeta in Ho. fold obs in Ho, Hsc.
    destruct Ho as (Hp & _ & _ & _ & _ & Hec & Hlc & Hrc & _).
    destruct (present obs) eqn:Hpo.
    + rewrite (enter_present _ _ _ _ _ _ _ _ Hpo). cbn [fst].
      unfold counters_le. rewrite Hsc, Hec, Hlc, Hrc. simpl. lia.
    + pose proof (enter_absent now_iso now_ts address name rssi
                    (sighting_fp mfg_data su sk)
                    (compute_fingerprint (Some (mfg_keys mfg_data)) su sk).2
                    _ Hpo) as Hen.
      cbv zeta in Hen. destruct Hen as (_ & He & Hr & _ & _ & Hs & Hl' & _).
      unfold counters_le. rewrite He, Hr, Hs, Hl', Hsc, Hec, Hlc, Hrc.
      destruct (last_left obs); simpl; lia.
  - rewrite upsert_other by done. exists rec.
    split; [done|]. split; [apply counters_le_refl | lia].
Qed.

(** One sweep that returns: every record keeps or raises its counters and
    keeps its sighting count. *)
Lemma mark_left_if_stale_counters self now_ts now_iso self' fp rec :
  mark_left_if_stale self now_ts now_iso = Ok self' →
  devices (registry self) !! fp = Some rec →
  ∃ rec',
    devices (registry self') !! fp = Some rec' ∧
    counters_le rec rec' ∧ seen_count rec' = seen_count rec.
Proof.
  intros Hrun Hl.
  destruct (mark_left_if_stale_lookup _ _ _ _ _ _ Hrun Hl) as (rec' & Hm & Hl').
  exists rec'. split; [done|].
  destruct (is_stale now_ts rec) eqn:Hs.
  - rewrite mark_left_rec_stale in Hm by done.
    destruct (_update_presence_time _ _) as [r|] eqn:Hu; simplify_eq/=.
    destruct (update_presence_time_frame _ _ _ Hu)
      as (_ & _ & Hlc & Hsc & Hec & Hrc & _).
    unfold counters_le. rewrite Hlc, Hsc, Hec, Hrc. simpl.
    split; [|done]. unfold count. lia.
  - rewrite mark_left_rec_fresh in Hm by done. simplify_eq.
    split; [apply counters_le_refl | done].
Qed.

(** C8: over every sequence of upserts and sweeps that runs to its end, a
    registered record never has a counter decrease, and its sighting count
    grows by exactly the number of upserts filed under its fingerprint:
    one per upsert, whatever its presence state, and none per sweep. *)
Theorem counters_monotone ops self self' fp rec :
  run_ops self ops = Ok self' →
  devices (registry self) !! fp = Some rec →
  ∃ rec',
    devices (registry self') !! fp = Some rec' ∧
    counters_le rec rec' ∧
    count (seen_count rec')
    = count (seen_count rec) + Z.of_nat (length (filter (upserts fp) ops)).
Proof.
  revert self rec. induction ops as [|o ops IH]; intros self rec Hrun Hl.
  - simpl in Hrun. simplify_eq. exists rec.
    split; [done|]. split; [apply counters_le_refl | simpl; lia].
  - simpl in Hrun.
    destruct (apply_op self o) as [self1|] eqn:Hop; simplify_eq/=.
    assert (∃ rec1, devices (registry self1) !! fp = Some rec1 ∧
              counters_le rec rec1 ∧
              count (seen_count rec1)
              = count (seen_count rec)
                + (if upserts fp o then 1 else 0)) as (rec1 & Hl1 & Hle1 & Hs1).
    { destruct o as [iso ts address name rssi mfg_data su sk source|ts iso];
        simpl in Hop.
      - simplify_eq. apply upsert_counters; done.
      - destruct (mark_left_if_stale_counters _ _ _ _ _ _ Hop Hl)
          as (rec1 & Hl1 & Hle1 & Hs1).
        exists rec1. split; [done|]. split; [done|]. rewrite Hs1. simpl. lia. }
    destruct (IH _ _ Hrun Hl1) as (rec' & Hl' & Hle' & Hs').
    exists rec'. split; [done|]. split; [by eapply counters_le_trans|].
    rewrite Hs', Hs1, filter_cons. destruct (upserts fp o); simpl; lia.
Qed.

Lemma counters_monotone_witness :
  let rec := sample_rec "ea096de977f0" true (Some 1000%Q) (Some 900%Q) in
  let self := sample_logger {[ "ea096de977f0" := rec ]} in
  let ops :=
    [ OpUpsert "1970-01-01T00:17:00Z" 1020%Q (Some "AA:BB:CC:DD:EE:FF") None
               (Some (-70)) (Some {[ 76 := [] ]}) None None None;
      OpSweep 1200%Q "1970-01-01T00:20:00Z";
      OpUpsert "1970-01-01T00:21:00Z" 1260%Q None (Some "tag") None
               (Some {[ 76 := [] ]}) (Some []) None None;
      OpUpsert "1970-01-01T00:21:01Z" 1261%Q None None (Some (-40))
               (Some {[ 117 := [] ]}) None None None ] in
  ∃ self',
    run_ops self ops = Ok self' ∧
    devices (registry self) !! "ea096de977f0" = Some rec ∧
    ∃ rec',
      devices (registry self') !! "ea096de977f0" = Some rec' ∧
      counters_le rec rec' ∧
      count (seen_count rec') = count (seen_count rec) + 2.
Proof.
  intros rec self ops. eexists. split; [vm_compute; reflexivity|].
  assert (Hl : devices (registry self) !! "ea096de977f0" = Some rec).
  { vm_compute. reflexivity. }
  split; [exact Hl|].
  refine (counters_monotone ops self _ "ea096de977f0" rec _ Hl).
  vm_compute. reflexivity.
Defined.

(** Every upsert, on a registered fingerprint or a new one, counts one
    sighting. *)
Lemma upsert_seen_count self now_iso now_ts address name rssi mfg_data su sk
    source :
  ∃ rec',
    record_after self now_iso now_ts address name rssi mfg_data su sk source
    = Some rec' ∧
    seen_count rec'
    = Some (count (seen_count (record_before (devices (registry self)) now_iso
                                             mfg_data su sk)) + 1).
Proof.
  rewrite record_after_eq. eexists. split; [reflexivity|].
  set (before := record_before _ _ _ _ _).
  set (obs := observe now_iso now_ts address name rssi source before).
  pose proof (observe_seen_count now_iso now_ts address name rssi source before)
    as Hsc.
  fold obs in Hsc. destruct (present obs) eqn:Hp.
  - by rewrite (enter_present _ _ _ _ _ _ _ _ Hp).
  - pose proof (enter_absent now_iso now_ts address name rssi
                  (sighting_fp mfg_data su sk)
                  (compute_fingerprint (Some (mfg_keys mfg_data)) su sk).2
                  _ Hp) as Hen.
    cbv zeta in Hen. destruct Hen as (_ & _ & _ & _ & _ & Hs & _). congruence.
Qed.

(** ** Registry store: recovery *)

(** A usable file holds a dict between the whitespace around it; it is
    returned with the two top-level keys filled in. *)
Lemma load_registry_dict fs depth path now_iso raw text members :
  fs !! path = Some (Text raw) →
  trimmed raw text → text ≠ "" →
  json_loads depth text = Ok (JObj members) →
  load_registry fs depth path now_iso
  = Ok (JObj (setdefault "devices" (JObj [])
                 (setdefault "meta" (JObj []) members))).
Proof.
  intros Hf Ht%strip_trimmed Hne Hl.
  unfold load_registry, load_registry_try, read_text.
  rewrite Hf. rewrite bool_decide_eq_true_2 by eauto.
  cbn [negb mbind Exc_bind]. rewrite Ht.
  apply nonempty_iff in Hne. rewrite Hne, Hl. reflexivity.
Qed.

(** The fresh registry is returned for every file [load_registry] cannot
    use. *)
Lemma load_registry_unusable fs depth path now_iso :
  unusable fs depth path →
  load_registry fs depth path now_iso = Ok (fresh_registry now_iso).
Proof.
  unfold load_registry, load_registry_try, read_text.
  intros [Hf|Hf|Hf|raw Hf Hb%strip_empty_iff
         |raw text e Hf Ht%strip_trimmed Hp
         |raw text data Hf Ht%strip_trimmed Hp Hd]; rewrite Hf.
  - rewrite bool_decide_eq_false_2; [done|]. by intros [? ?].
  - by destruct (negb _).
  - by destruct (negb _).
  - destruct (negb _); [done|]. cbn [mbind Exc_bind]. by rewrite Hb.
  - destruct (negb _); [done|]. cbn [mbind Exc_bind]. rewrite Ht.
    destruct (negb (nonempty text)); [done|]. by rewrite Hp.
  - destruct (negb _); [done|]. cbn [mbind Exc_bind]. rewrite Ht.
    destruct (negb (nonempty text)); [done|]. rewrite Hp.
    destruct data; try done. by destruct (Hd members).
Qed.

(** [load_registry] returns a dict that has the two top-level keys. *)
Lemma load_registry_shape fs depth path now_iso :
  ∃ registry,
    load_registry fs depth path now_iso = Ok (JObj registry) ∧
    py_in "meta" registry.*1 = true ∧ py_in "devices" registry.*1 = true.
Proof.
  assert (Hfresh : ∃ registry,
            Ok (fresh_registry now_iso) = Ok (JObj registry) ∧
            py_in "meta" registry.*1 = true ∧
            py_in "devices" registry.*1 = true).
  { eexists. split; [reflexivity|]. split; reflexivity. }
  assert (Hset : ∀ k v d, py_in k (setdefault k v d).*1 = true).
  { intros k v d. unfold setdefault, has_key.
    destruct (py_in k d.*1) eqn:Hk; [done|].
    apply bool_decide_eq_true. rewrite fmap_app. apply elem_of_app. right.
    by left. }
  assert (Hmono : ∀ k' k v d,
            py_in k' d.*1 = true → py_in k' (setdefault k v d).*1 = true).
  { intros k' k v d Hk. unfold setdefault. destruct (has_key k d); [done|].
    apply bool_decide_eq_true. rewrite fmap_app. apply elem_of_app. left.
    by apply bool_decide_eq_true in Hk. }
  unfold load_registry. destruct (negb _); [exact Hfresh|].
  unfold load_registry_try.
  destruct (read_text fs path) as [raw|e]; cbn [mbind Exc_bind]; [|exact Hfresh].
  destruct (negb (nonempty (strip raw))); [exact Hfresh|].
  destruct (json_loads depth (strip raw)) as [data|e]; cbn [mbind Exc_bind];
    [|exact Hfresh].
  destruct data; try exact Hfresh.
  eexists. split; [reflexivity|]. split; [apply Hmono, Hset | apply Hset].
Qed.

(** X1: [load_registry] returns on every file system, and on every state
    of the file it cannot use (absent, directory, not UTF-8, empty or
    whitespace, not JSON between the whitespace around it, JSON but not a
    dict) it returns the fresh registry: no device, and metadata that holds
    the current time as creation time. *)
Theorem load_registry_recovers fs depth path now_iso :
  (∃ data, load_registry fs depth path now_iso = Ok data) ∧
  (unusable fs depth path →
   load_registry fs depth path now_iso
   = Ok (JObj [("meta", JObj [("created_utc", JStr now_iso)]);
               ("devices", JObj [])])).
Proof.
  split.
  - destruct (load_registry_shape fs depth path now_iso) as (r & Hr & _). eauto.
  - apply load_registry_unusable.
Qed.

Lemma load_registry_recovers_witness :
  let fs : gmap string file :=
    {[ "/home/bluelog.json"
       := Text (utf8 0xA0 +:+ "{" +:+ char 34 +:+ "meta" +:+ char 34 +:+ ": {"
                +:+ utf8 0xA0) ]} in
  unusable fs 990 "/home/bluelog.json" ∧
  load_registry fs 990 "/home/bluelog.json" "2024-01-01T00:00:00Z"
  = Ok (JObj [("meta", JObj [("created_utc", JStr "2024-01-01T00:00:00Z")]);
              ("devices", JObj [])]).
Proof.
  intros fs.
  assert (H : unusable fs 990 "/home/bluelog.json").
  { eapply (file_unparseable fs _ _ _
              ("{" +:+ char 34 +:+ "meta" +:+ char 34 +:+ ": {")
              JSONDecodeError).
    - vm_compute. reflexivity.
    - apply strip_spec. vm_compute. reflexivity.
    - vm_compute. reflexivity. }
  split; [exact H|].
  exact (proj2 (load_registry_recovers fs 990 "/home/bluelog.json"
                  "2024-01-01T00:00:00Z") H).
Defined.

(** A document between no-break spaces is loaded: [strip] removes them. *)
Example load_registry_between_nbsp :
  load_registry
    {[ "/home/bluelog.json"
       := Text (utf8 0xA0 +:+ "{" +:+ char 34 +:+ "devices" +:+ char 34
                +:+ ": {}, " +:+ char 34 +:+ "meta" +:+ char 34
                +:+ ": {}}" +:+ utf8 0x2003) ]}
    990 "/home/bluelog.json" "2024-01-01T00:00:00Z"
  = Ok (JObj [("devices", JObj []); ("meta", JObj [])]).
Proof. vm_compute. reflexivity. Qed.

(** A document the decoder gives up on is recovered from too: an integer
    of more than 4300 digits, and lists nested deeper than the recursion
    limit allows. *)
Example load_registry_long_integer :
  load_registry
    {[ "/home/bluelog.json"
       := Text ("{" +:+ char 34 +:+ "meta" +:+ char 34 +:+ ": "
                +:+ Nat.iter 4301 (String "7") "" +:+ "}") ]}
    990 "/home/bluelog.json" "2024-01-01T00:00:00Z"
  = Ok (fresh_registry "2024-01-01T00:00:00Z").
Proof. vm_compute. reflexivity. Qed.

Example load_registry_deep_nesting :
  load_registry
    {[ "/home/bluelog.json"
       := Text ("{" +:+ char 34 +:+ "meta" +:+ char 34 +:+ ": [[[]]]}") ]}
    3 "/home/bluelog.json" "2024-01-01T00:00:00Z"
  = Ok (fresh_registry "2024-01-01T00:00:00Z").
Proof. vm_compute. reflexivity. Qed.

(** C6: [load_registry] never raises.  It returns a dict that holds
    [meta] and [devices] whatever the file system, and for a file that is
    absent, empty or whitespace only, that [json.loads] raises on, or that
    parses to something else than a dict, this is the fresh registry: no
    device, and metadata that holds the current time as creation time. *)
Theorem load_registry_never_raises fs depth path now_iso :
  let fresh :=
    JObj [("meta", JObj [("created_utc", JStr now_iso)]);
          ("devices", JObj [])] in
  (∃ registry,
     load_registry fs depth path now_iso = Ok (JObj registry) ∧
     py_in "meta" registry.*1 = true ∧ py_in "devices" registry.*1 = true) ∧
  (fs !! path = None → load_registry fs depth path now_iso = Ok fresh) ∧
  (∀ raw, fs !! path = Some (Text raw) → whitespace raw →
          load_registry fs depth path now_iso = Ok fresh) ∧
  (∀ raw text e,
     fs !! path = Some (Text raw) → trimmed raw text →
     json_loads depth text = Raise e →
     load_registry fs depth path now_iso = Ok fresh) ∧
  (∀ raw text data,
     fs !! path = Some (Text raw) → trimmed raw text →
     json_loads depth text = Ok data → (∀ members, data ≠ JObj members) →
     load_registry fs depth path now_iso = Ok fresh).
Proof.
  intros fresh. split; [apply load_registry_shape|].
  split; [|split; [|split]].
  - intros Hf. by apply load_registry_unusable, file_absent.
  - intros raw Hf Hw. by eapply load_registry_unusable, file_blank.
  - intros raw text e Hf Ht He.
    by eapply load_registry_unusable, file_unparseable.
  - intros raw text data Hf Ht Hd Hn.
    by eapply load_registry_unusable, file_not_a_dict.
Qed.

Lemma load_registry_never_raises_witness :
  let fs : gmap string file :=
    {[ "/home/bluelog.json" := Text (" [1, 2]" +:+ utf8 0x85) ]} in
  fs !! "/home/bluelog.json" = Some (Text (" [1, 2]" +:+ utf8 0x85)) ∧
  trimmed (" [1, 2]" +:+ utf8 0x85) "[1, 2]" ∧
  json_loads 990 "[1, 2]" = Ok (JArr [JInt 1; JInt 2]) ∧
  load_registry fs 990 "/home/bluelog.json" "2024-01-01T00:00:00Z"
  = Ok (JObj [("meta", JObj [("created_utc", JStr "2024-01-01T00:00:00Z")]);
              ("devices", JObj [])]).
Proof.
  intros fs.
  assert (H1 : fs !! "/home/bluelog.json"
               = Some (Text (" [1, 2]" +:+ utf8 0x85)))
    by (vm_compute; reflexivity).
  assert (H2 : trimmed (" [1, 2]" +:+ utf8 0x85) "[1, 2]")
    by (apply strip_spec; vm_compute; reflexivity).
  assert (H3 : json_loads 990 "[1, 2]" = Ok (JArr [JInt 1; JInt 2]))
    by (vm_compute; reflexivity).
  split; [exact H1|]. split; [exact H2|]. split; [exact H3|].
  exact (proj2 (proj2 (proj2 (proj2
           (load_registry_never_raises fs 990 "/home/bluelog.json"
              "2024-01-01T00:00:00Z"))))
           _ _ _ H1 H2 H3 ltac:(discriminate)).
Defined.

(** ** Fingerprint engine: shape of the result *)

Lemma hex_length n x : String.length (Sha1.hex n x) = n.
Proof. induction n as [|n IH]; simpl; [done | by rewrite IH]. Qed.

Lemma hex_digit_is_hex x : 0 ≤ x < 16 → is_hex_digit (Sha1.hex_digit x) = true.
Proof.
  intros Hx.
  assert (x = 0 ∨ x = 1 ∨ x = 2 ∨ x = 3 ∨ x = 4 ∨ x = 5 ∨ x = 6 ∨ x = 7 ∨
          x = 8 ∨ x = 9 ∨ x = 10 ∨ x = 11 ∨ x = 12 ∨ x = 13 ∨ x = 14 ∨ x = 15)
    as Hcases by lia.
  repeat (destruct Hcases as [->|Hcases]; [reflexivity|]). by subst.
Qed.

Lemma hex_all_hex n x : all_chars is_hex_digit (Sha1.hex n x) = true.
Proof.
  induction n as [|n IH]; simpl; [done|]. rewrite IH, andb_true_r.
  apply hex_digit_is_hex.
  change 15 with (Z.ones 4). rewrite Z.land_ones by lia.
  apply Z.mod_pos_bound. lia.
Qed.

Lemma all_chars_app p s t :
  all_chars p (s +:+ t) = all_chars p s && all_chars p t.
Proof.
  induction s as [|c s IH]; simpl; [done|]. by rewrite IH, andb_assoc.
Qed.

Lemma str_take_length n s :
  (n ≤ String.length s)%nat → String.length (str_take n s) = n.
Proof.
  revert s. induction n as [|n IH]; intros [|c s] Hn; simpl in *; try lia.
  rewrite IH; lia.
Qed.

Lemma all_chars_take p n s : all_chars p s = true → all_chars p (str_take n s) = true.
Proof.
  revert s. induction n as [|n IH]; intros [|c s]; simpl; try done.
  intros [Hc Hs]%andb_true_iff. rewrite Hc. by apply IH.
Qed.

Lemma hexdigest_shape s :
  String.length (Sha1.hexdigest s) = 40%nat ∧
  all_chars is_hex_digit (Sha1.hexdigest s) = true.
Proof.
  unfold Sha1.hexdigest. destruct (Sha1.digest _) as [a b c d e].
  rewrite !str_length_app, !hex_length, !all_chars_app, !hex_all_hex. done.
Qed.

Lemma Sorted_weaken {A} (R1 R2 : relation A) l :
  (∀ x y, R1 x y → R2 x y) → Sorted R1 l → Sorted R2 l.
Proof.
  intros HR. induction 1 as [|x l Hl IH Hx]; constructor; [done|].
  destruct Hx; constructor; auto.
Qed.

(** [sorted(set(l))] is strictly increasing. *)
Lemma sorted_set_strict {A} `{EqDecision A} (R : relation A)
    `{!∀ x y, Decision (R x y)} `{!PartialOrder R, !Total R} l :
  Sorted (strict R) (sorted_set R l).
Proof.
  pose proof (sorted_set_NoDup R l) as Hnd.
  pose proof (Sorted_StronglySorted R _ (sorted_set_Sorted R l)) as Hss.
  apply StronglySorted_Sorted.
  induction Hss as [|x k Hk IH Hx]; [constructor|].
  apply NoDup_cons in Hnd as [Hnotin Hnd]. constructor; [by apply IH|].
  apply Forall_forall. intros y Hy. split; [by eapply Forall_forall|].
  intros Hyx. rewrite Forall_forall in Hx.
  assert (x = y) as -> by (apply (anti_symm R); auto). done.
Qed.

(** X2: the fingerprint is always twelve lowercase hexadecimal digits, and
    each list of the material is strictly sorted (so free of duplicates)
    and holds exactly the elements of the input it comes from. *)
Theorem compute_fingerprint_shape (mfg_ids : option (list Z))
    (su sk : option (list string)) :
  let '(fp, material) := compute_fingerprint mfg_ids su sk in
  String.length fp = 12%nat ∧ all_chars is_hex_digit fp = true ∧
  (Sorted Z.lt (manufacturer_ids material) ∧
   ∀ x, x ∈ manufacturer_ids material ↔ x ∈ or_empty mfg_ids) ∧
  (Sorted (strict String.le) (service_uuids material) ∧
   ∀ u, u ∈ service_uuids material ↔ u ∈ or_empty su) ∧
  (Sorted (strict String.le) (service_data_keys material) ∧
   ∀ k, k ∈ service_data_keys material ↔ k ∈ or_empty sk).
Proof.
  unfold compute_fingerprint. cbn [manufacturer_ids service_uuids service_data_keys].
  destruct (hexdigest_shape
    ("mfg=" +:+ join "," (str_int <$> sorted_set Z.le (or_empty mfg_ids))
     +:+ "|svc=" +:+ join "," (sorted_set String.le (or_empty su))
     +:+ "|sdk=" +:+ join "," (sorted_set String.le (or_empty sk))))
    as [Hlen Hhex].
  split; [apply str_take_length; rewrite Hlen; lia|].
  split; [by apply all_chars_take|].
  split; [split|split; split].
  - eapply Sorted_weaken; [|apply (sorted_set_strict Z.le)].
    intros x y [Hxy Hyx]. lia.
  - apply elem_of_sorted_set; apply _.
  - apply (sorted_set_strict String.le).
  - apply elem_of_sorted_set; apply _.
  - apply (sorted_set_strict String.le).
  - apply elem_of_sorted_set; apply _.
Qed.

(** ** Classifier *)

Lemma existsb_elem_of {A} (p : A → bool) (l : list A) :
  existsb p l = true ↔ ∃ x, x ∈ l ∧ p x = true.
Proof.
  rewrite existsb_exists. split; intros (x & Hx & Hp); exists x.
  - by rewrite list_elem_of_In.
  - by rewrite <-list_elem_of_In.
Qed.

Lemma py_in_iff {A} `{EqDecision A} (x : A) l : py_in x l = true ↔ x ∈ l.
Proof. unfold py_in. apply bool_decide_eq_true. Qed.

Ltac eval_sorted_set :=
  repeat match goal with
  | |- context [sorted_set String.le ?l] =>
      let r := eval vm_compute in (sorted_set String.le l) in
      change (sorted_set String.le l) with r
  end.


(** X4: the classification depends only on the sets of manufacturer ids
    and service UUIDs: order, repetition and an absent input make no
    difference. *)
Theorem classify_tags_sets (m1 m2 : option (list Z))
    (u1 u2 : option (list string)) :
  same_set m1 m2 → same_set u1 u2 →
  classify_tags m1 u1 = classify_tags m2 u2.
Proof.
  intros Hm Hu. unfold classify_tags.
  assert (Hin : ∀ x, py_in x (or_empty m1) = py_in x (or_empty m2)).
  { intros x. apply eq_true_iff_eq. rewrite !py_in_iff. apply Hm. }
  assert (Hex : existsb (λ u, startswith "0000feaa" (lower u)) (or_empty u1)
                = existsb (λ u, startswith "0000feaa" (lower u)) (or_empty u2)).
  { apply eq_true_iff_eq. rewrite !existsb_elem_of.
    split; intros (u & Hin' & Hp); exists u; split; try done; by apply Hu. }
  by rewrite !Hin, Hex.
Qed.

Lemma classify_tags_sets_witness :
  same_set (Some [224; 76; 224]) (Some [76; 224]) ∧
  same_set None (Some ([] : list string)) ∧
  classify_tags (Some [224; 76; 224]) None = classify_tags (Some [76; 224]) (Some []).
Proof.
  assert (H1 : same_set (Some [224; 76; 224]) (Some [76; 224])).
  { intros a. simpl. rewrite !elem_of_cons, !elem_of_nil. tauto. }
  assert (H2 : same_set None (Some ([] : list string))).
  { intros a. simpl. tauto. }
  split; [exact H1|]. split; [exact H2|].
  exact (classify_tags_sets _ _ _ _ H1 H2).
Defined.

Example classify_primary_is_rule_order :
  classify_tags (Some [224; 76]) (Some ["0000FEAA-0000-1000-8000-00805f9b34fb"])
  = (["beacon:eddystone"; "vendor:apple"; "vendor:google"], "vendor:apple").
Proof. vm_compute. reflexivity. Qed.

(** ** Upsert: histories *)

(** The enter step leaves the observation fields alone. *)
Lemma enter_observations iso ts address name rssi fp0 material rec :
  let rec' := (enter iso ts address name rssi fp0 material rec).1 in
  last_events rec' = last_events rec ∧ addresses rec' = addresses rec ∧
  names_seen rec' = names_seen rec ∧ fp rec' = fp rec ∧
  fingerprint rec' = fingerprint rec ∧ tags rec' = tags rec ∧
  first_seen rec' = first_seen rec ∧ last_seen rec' = last_seen rec.
Proof.
  unfold enter. destruct (present rec); simpl; [done|].
  destruct (bool_decide _); destruct (_qualifies_for_notify _ _); done.
Qed.

Ltac observe_split rec address name rssi :=
  unfold observe; cbn -[fresh_in drop length];
  destruct rssi as [?x|];
    [destruct (best_rssi rec) as [?b|] eqn:?;
     cbn -[fresh_in drop length];
     [match goal with |- context [(?b <? ?x)%Z] => destruct (b <? x)%Z end|]|];
  cbn -[fresh_in drop length];
  destruct (fresh_in address (addresses rec)) eqn:?;
  cbn -[fresh_in drop length];
  destruct (fresh_in name (names_seen rec)) eqn:?;
  cbn -[fresh_in drop length].

Lemma observe_last_events iso ts address name rssi source rec :
  last_events (observe iso ts address name rssi source rec)
  = drop (length (last_events rec ++ [mkEvent iso address rssi source])%list
          - MAX_LAST_EVENTS)
         (last_events rec ++ [mkEvent iso address rssi source])%list.
Proof. observe_split rec address name rssi; reflexivity. Qed.

Lemma observe_addresses iso ts address name rssi source rec :
  addresses (observe iso ts address name rssi source rec)
  = match fresh_in address (addresses rec) with
    | Some a => (addresses rec ++ [a])%list
    | None => addresses rec
    end.
Proof. observe_split rec address name rssi; reflexivity. Qed.

Lemma observe_names_seen iso ts address name rssi source rec :
  names_seen (observe iso ts address name rssi source rec)
  = match fresh_in name (names_seen rec) with
    | Some n => (names_seen rec ++ [n])%list
    | None => names_seen rec
    end.
Proof. observe_split rec address name rssi; reflexivity. Qed.

Lemma observe_identity iso ts address name rssi source rec :
  let rec' := observe iso ts address name rssi source rec in
  fp rec' = fp rec ∧ fingerprint rec' = fingerprint rec ∧
  tags rec' = tags rec ∧ first_seen rec' = first_seen rec ∧
  last_seen rec' = iso.
Proof. cbv zeta. observe_cases; repeat split. Qed.

Lemma fresh_in_Some x l a :
  fresh_in x l = Some a ↔ x = Some a ∧ a ≠ "" ∧ a ∉ l.
Proof.
  unfold fresh_in. destruct x as [s|]; [|naive_solver].
  destruct (nonempty s) eqn:Hn; simpl.
  - apply nonempty_iff in Hn. unfold py_in.
    case_bool_decide; simpl; naive_solver.
  - apply not_true_iff_false in Hn. rewrite nonempty_iff in Hn. naive_solver.
Qed.

(** What an append-if-new step keeps and adds. *)
Lemma append_fresh x l :
  let l' := match fresh_in x l with Some a => (l ++ [a])%list | None => l end in
  (NoDup l → NoDup l') ∧ l `prefix_of` l' ∧
  (∀ a, x = Some a → a ≠ "" → a ∈ l') ∧
  (∀ a, a ∈ l' → a ∈ l ∨ (x = Some a ∧ a ≠ "")).
Proof.
  simpl. destruct (fresh_in x l) as [a|] eqn:Hf.
  - apply fresh_in_Some in Hf as (-> & Hne & Hnotin). repeat split.
    + intros Hnd. apply NoDup_app. repeat split; [done| |apply NoDup_singleton].
      intros y Hy Hy'%list_elem_of_singleton. by subst.
    + by apply prefix_app_r.
    + intros b [= <-] _. apply elem_of_app. right. by left.
    + intros b [?|Hb%list_elem_of_singleton]%elem_of_app; [by left|].
      subst. by right.
  - repeat split; [done|done| |by left].
    intros a -> Hne. destruct (decide (a ∈ l)) as [|Hnotin]; [done|].
    assert (fresh_in (Some a) l = Some a) as Hs by (by apply fresh_in_Some).
    congruence.
Qed.

(** The record an upsert leaves has the observation fields of the
    observation step. *)
Lemma record_after_observed self now_iso now_ts address name rssi mfg_data su
    sk source :
  let obs := observe now_iso now_ts address name rssi source
               (record_before (devices (registry self)) now_iso mfg_data su sk) in
  ∃ rec',
    record_after self now_iso now_ts address name rssi mfg_data su sk source
    = Some rec' ∧
    last_events rec' = last_events obs ∧ addresses rec' = addresses obs ∧
    names_seen rec' = names_seen obs ∧ fp rec' = fp obs ∧
    fingerprint rec' = fingerprint obs ∧ tags rec' = tags obs ∧
    first_seen rec' = first_seen obs ∧ last_seen rec' = last_seen obs.
Proof.
  intros obs. rewrite record_after_eq. eexists. split; [reflexivity|].
  apply enter_observations.
Qed.

Lemma last_drop_lt {A} (l : list A) n :
  (n < length l)%nat → last (drop n l) = last l.
Proof.
  intros Hn. rewrite <-(take_drop n l) at 2. rewrite last_app.
  destruct (last (drop n l)) eqn:Hl; [done|].
  apply last_None in Hl. apply (f_equal length) in Hl.
  rewrite length_drop in Hl. simpl in Hl. lia.
Qed.

(** X5: after every upsert the record holds at most [MAX_LAST_EVENTS]
    events, whatever it held before; they are the newest ones in order, the
    sighting's own event last.  Below the bound nothing is evicted. *)
Theorem upsert_last_events self now_iso now_ts address name rssi mfg_data su
    sk source :
  let before := record_before (devices (registry self)) now_iso mfg_data su sk in
  let ev := mkEvent now_iso address rssi source in
  ∃ rec',
    record_after self now_iso now_ts address name rssi mfg_data su sk source
    = Some rec' ∧
    (length (last_events rec') ≤ MAX_LAST_EVENTS)%nat ∧
    last (last_events rec') = Some ev ∧
    last_events rec' `suffix_of` (last_events before ++ [ev])%list ∧
    ((length (last_events before) < MAX_LAST_EVENTS)%nat →
     last_events rec' = (last_events before ++ [ev])%list).
Proof.
  intros before ev.
  destruct (record_after_observed self now_iso now_ts address name rssi
              mfg_data su sk source) as (rec' & Ha & Hev & _).
  exists rec'. split; [done|]. rewrite Hev, observe_last_events.
  fold before ev. set (l := (last_events before ++ [ev])%list).
  assert (Hlen : length l = S (length (last_events before))).
  { unfold l. rewrite length_app. simpl. lia. }
  unfold MAX_LAST_EVENTS. repeat split.
  - rewrite length_drop. lia.
  - rewrite last_drop_lt by lia. unfold l. apply last_snoc.
  - apply suffix_drop.
  - intros Hlt. replace (length l - 25)%nat with 0%nat by lia. done.
Qed.

(** X6: [addresses] and [names_seen] are append-only sets: an upsert keeps
    the list as a prefix, keeps it free of duplicates, adds the sighting's
    address (name) when it is non-empty, and adds nothing else. *)
Theorem upsert_addresses_names self now_iso now_ts address name rssi mfg_data
    su sk source :
  let before := record_before (devices (registry self)) now_iso mfg_data su sk in
  ∃ rec',
    record_after self now_iso now_ts address name rssi mfg_data su sk source
    = Some rec' ∧
    ((NoDup (addresses before) → NoDup (addresses rec')) ∧
     addresses before `prefix_of` addresses rec' ∧
     (∀ a, address = Some a → a ≠ "" → a ∈ addresses rec') ∧
     (∀ a, a ∈ addresses rec' →
           a ∈ addresses before ∨ (address = Some a ∧ a ≠ ""))) ∧
    ((NoDup (names_seen before) → NoDup (names_seen rec')) ∧
     names_seen before `prefix_of` names_seen rec' ∧
     (∀ n, name = Some n → n ≠ "" → n ∈ names_seen rec') ∧
     (∀ n, n ∈ names_seen rec' →
           n ∈ names_seen before ∨ (name = Some n ∧ n ≠ ""))).
Proof.
  intros before.
  destruct (record_after_observed self now_iso now_ts address name rssi
              mfg_data su sk source) as (rec' & Ha & _ & Had & Hn & _).
  exists rec'. split; [done|]. rewrite Had, Hn.
  rewrite observe_addresses, observe_names_seen. fold before.
  split; apply append_fresh.
Qed.

(** ** Upsert: the rest of the logger *)

(** X7: an upsert touches one record only.  Every other fingerprint keeps
    its record, the fingerprints registered are those from before and the
    sighting's own, the registry becomes dirty with [updated_utc] stamped,
    and the path, the flush clock, the stop flag and the other metadata
    stay as they were. *)
Theorem upsert_frame self now_iso now_ts address name rssi mfg_data su sk
    source :
  let self' := (upsert self now_iso now_ts address name rssi mfg_data su sk
                       source).1 in
  let fp0 := sighting_fp mfg_data su sk in
  (∀ fp', fp' ≠ fp0 →
          devices (registry self') !! fp' = devices (registry self) !! fp') ∧
  dom (devices (registry self')) = {[ fp0 ]} ∪ dom (devices (registry self)) ∧
  dirty self' = true ∧
  updated_utc (meta (registry self')) = Some now_iso ∧
  created_utc (meta (registry self')) = created_utc (meta (registry self)) ∧
  adapter (meta (registry self')) = adapter (meta (registry self)) ∧
  leave_timeout_sec (meta (registry self'))
  = leave_timeout_sec (meta (registry self)) ∧
  path self' = path self ∧ last_flush self' = last_flush self ∧
  stop self' = stop self.
Proof.
  intros self' fp0. subst self'. rewrite upsert_unfold. cbn [fst].
  split; [|split; [|done]].
  - intros fp' Hne. simpl. by rewrite lookup_insert_ne.
  - simpl. by rewrite dom_insert_L.
Qed.

(** X8: two sightings with the same sets of manufacturer ids, service
    UUIDs and service-data keys are filed under the same fingerprint,
    whatever their address, name, signal strength or source: the second
    upsert starts from the record the first one left and counts one more
    sighting on it. *)
Theorem upsert_same_signature self iso1 ts1 a1 n1 r1 m1 su1 sk1 src1
    iso2 ts2 a2 n2 r2 m2 su2 sk2 src2 :
  same_set (Some (mfg_keys m1)) (Some (mfg_keys m2)) →
  same_set su1 su2 → same_set sk1 sk2 →
  let self1 := (upsert self iso1 ts1 a1 n1 r1 m1 su1 sk1 src1).1 in
  sighting_fp m2 su2 sk2 = sighting_fp m1 su1 sk1 ∧
  ∃ rec1 rec2,
    record_after self iso1 ts1 a1 n1 r1 m1 su1 sk1 src1 = Some rec1 ∧
    record_before (devices (registry self1)) iso2 m2 su2 sk2 = rec1 ∧
    record_after self1 iso2 ts2 a2 n2 r2 m2 su2 sk2 src2 = Some rec2 ∧
    seen_count rec2 = Some (count (seen_count rec1) + 1) ∧
    first_seen rec2 = first_seen rec1.
Proof.
  intros Hm Hu Hk self1.
  assert (Hfp : sighting_fp m2 su2 sk2 = sighting_fp m1 su1 sk1).
  { unfold sighting_fp, compute_fingerprint.
    rewrite (sorted_set_ext Z.le _ _ Hm), (sorted_set_ext String.le _ _ Hu),
      (sorted_set_ext String.le _ _ Hk). reflexivity. }
  split; [done|].
  pose proof (record_after_eq self iso1 ts1 a1 n1 r1 m1 su1 sk1 src1) as Ha1.
  set (rec1 := (enter iso1 ts1 a1 n1 r1 (sighting_fp m1 su1 sk1)
                  (compute_fingerprint (Some (mfg_keys m1)) su1 sk1).2
                  (observe iso1 ts1 a1 n1 r1 src1
                     (record_before (devices (registry self)) iso1 m1 su1
                                    sk1))).1) in *.
  assert (Hb : record_before (devices (registry self1)) iso2 m2 su2 sk2 = rec1).
  { apply record_before_lookup. rewrite Hfp.
    unfold record_after in Ha1. exact Ha1. }
  destruct (upsert_seen_count self1 iso2 ts2 a2 n2 r2 m2 su2 sk2 src2)
    as (rec2 & Ha2 & Hsc).
  destruct (record_after_observed self1 iso2 ts2 a2 n2 r2 m2 su2 sk2 src2)
    as (rec2' & Ha2' & _ & _ & _ & _ & _ & _ & Hfs & _).
  assert (rec2' = rec2) as -> by congruence.
  exists rec1, rec2. rewrite Hb in Hsc, Hfs.
  pose proof (observe_identity iso2 ts2 a2 n2 r2 src2 rec1) as Hid.
  cbv zeta in Hid. destruct Hid as (_ & _ & _ & Hfs' & _).
  repeat split; try done. congruence.
Qed.

Lemma upsert_same_signature_witness :
  same_set (Some (mfg_keys (Some {[ 76 := []; 224 := [] ]})))
           (Some (mfg_keys (Some {[ 224 := [Byte.x01]; 76 := [] ]}))) ∧
  same_set (Some ["fe9f"; "fd6f"]) (Some ["fd6f"; "fe9f"; "fd6f"]) ∧
  same_set None (Some ([] : list string)) ∧
  sighting_fp (Some {[ 224 := [Byte.x01]; 76 := [] ]})
              (Some ["fd6f"; "fe9f"; "fd6f"]) (Some [])
  = sighting_fp (Some {[ 76 := []; 224 := [] ]}) (Some ["fe9f"; "fd6f"]) None.
Proof.
  assert (H1 : same_set (Some (mfg_keys (Some {[ 76 := []; 224 := [] ]})))
                 (Some (mfg_keys (Some {[ 224 := [Byte.x01]; 76 := [] ]})))).
  { intros a. vm_compute or_empty. tauto. }
  assert (H2 : same_set (Some ["fe9f"; "fd6f"]) (Some ["fd6f"; "fe9f"; "fd6f"])).
  { intros a. simpl. rewrite !elem_of_cons, !elem_of_nil. tauto. }
  assert (H3 : same_set None (Some ([] : list string))).
  { intros a. simpl. tauto. }
  split; [exact H1|]. split; [exact H2|]. split; [exact H3|].
  exact (proj1 (upsert_same_signature (sample_logger ∅)
                  "1970-01-01T00:15:00Z" 900%Q (Some "AA:BB:CC:DD:EE:FF") None
                  (Some (-60)) _ _ _ None
                  "1970-01-01T00:15:05Z" 905%Q (Some "11:22:33:44:55:66")
                  (Some "tag") None _ _ _ (Some "hci0") H1 H2 H3)).
Defined.

(** ** The presence state machine over runs *)

(** What a turn of the sweep loop leaves alone. *)
Lemma mark_left_rec_frame now_ts now_iso rec rec' t :
  mark_left_rec now_ts now_iso rec = Ok (rec', t) →
  fp rec' = fp rec ∧ seen_count rec' = seen_count rec ∧
  enter_count rec' = enter_count rec ∧ reenter_count rec' = reenter_count rec ∧
  last_enter_ts rec' = last_enter_ts rec ∧ last_seen_ts rec' = last_seen_ts rec ∧
  last_events rec' = last_events rec ∧ addresses rec' = addresses rec ∧
  names_seen rec' = names_seen rec ∧ last_enter rec' = last_enter rec ∧
  primary_tag rec' = primary_tag rec ∧ tags rec' = tags rec.
Proof.
  intros Hm. destruct (is_stale now_ts rec) eqn:Hs.
  - rewrite mark_left_rec_stale in Hm by done.
    destruct (falsy_ts (last_enter_ts rec)) eqn:He.
    + rewrite update_presence_time_no_enter in Hm by done. by simplify_eq/=.
    + rewrite update_presence_time_enter in Hm by done.
      destruct (utc_date_isoformat _); by simplify_eq/=.
  - rewrite mark_left_rec_fresh in Hm by done. by simplify_eq.
Qed.

Lemma mark_left_rec_consistent now_ts now_iso k rec rec' t :
  mark_left_rec now_ts now_iso rec = Ok (rec', t) →
  consistent k rec → consistent k rec'.
Proof.
  intros Hm Hc.
  destruct (mark_left_rec_frame _ _ _ _ _ Hm)
    as (Hfp & Hsc & Hec & Hrc & Het & Hst & Hev & Had & Hna & _).
  destruct (is_stale now_ts rec) eqn:Hs.
  - rewrite mark_left_rec_stale in Hm by done.
    destruct (_update_presence_time _ _) as [r|] eqn:Hu; simplify_eq/=.
    destruct (update_presence_time_frame _ _ _ Hu) as (Hp & Hll & Hlc & _).
    simpl in Hp, Hll, Hlc. apply is_stale_iff in Hs as (Hpres & _).
    unfold consistent in *.
    rewrite Hfp, Hsc, Hec, Hrc, Het, Hst, Hev, Had, Hna, Hp, Hll, Hlc.
    rewrite Hpres in Hc.
    destruct Hc as (? & ? & ? & ? & ? & ? & ? & ? & ? & ? & ?).
    unfold count in *. cbn [from_option]. unfold id in *.
    split; [done|]. split; [lia|]. split; [lia|]. split; [lia|].
    split; [lia|]. split; [split; intros; [discriminate|lia]|].
    repeat split; done.
  - rewrite mark_left_rec_fresh in Hm by done. by simplify_eq.
Qed.

Lemma upsert_consistent self now_iso now_ts address name rssi mfg_data su sk
    source :
  (∀ k rec, devices (registry self) !! k = Some rec → consistent k rec) →
  ∀ k rec,
    devices (registry (upsert self now_iso now_ts address name rssi mfg_data
                              su sk source).1) !! k = Some rec →
    consistent k rec.
Proof.
  intros Hall k rec Hl.
  destruct (decide (k = sighting_fp mfg_data su sk)) as [->|Hne].
  2:{ rewrite upsert_other in Hl by done. by apply Hall. }
  pose proof (record_after_eq self now_iso now_ts address name rssi mfg_data
                su sk source) as Ha.
  unfold record_after in Ha. rewrite Ha in Hl. simplify_eq.
  set (before := record_before (devices (registry self)) now_iso mfg_data su sk).
  set (obs := observe now_iso now_ts address name rssi source before).
  (* what is known of the record the upsert starts from *)
  assert (fp before = sighting_fp mfg_data su sk ∧
          0 ≤ count (enter_count before) ≤ count (seen_count before) ∧
          count (enter_count before)
          = count (leave_count before) + (if present before then 1 else 0) ∧
          count (reenter_count before)
          = Z.max 0 (count (enter_count before) - 1) ∧
          0 ≤ count (leave_count before) ∧
          (last_left before = None ↔ count (leave_count before) = 0) ∧
          (present before = true → is_Some (last_enter_ts before)) ∧
          (length (last_events before) ≤ MAX_LAST_EVENTS)%nat ∧
          NoDup (addresses before) ∧ NoDup (names_seen before))
    as (Hfp & Hes & Hel & Hre & Hl0 & Hll & Het & Hev & Had & Hna).
  { destruct (devices (registry self) !! sighting_fp mfg_data su sk)
      as [r|] eqn:Hr.
    - subst before. rewrite (record_before_lookup _ _ _ _ _ _ Hr).
      destruct (Hall _ _ Hr) as (? & ? & ? & ? & ? & Hiff & ? & ? & ? & ? & ?).
      split; [done|]. split; [lia|]. split; [done|]. split; [lia|].
      split; [done|]. split; [exact Hiff|]. repeat split; done.
    - destruct (record_before_new self now_iso mfg_data su sk Hr)
        as (tags & primary & Hb).
      subst before. rewrite Hb. unfold MAX_LAST_EVENTS, count.
      cbn [new_record fp enter_count seen_count leave_count reenter_count
           present last_left last_enter_ts last_events addresses names_seen
           from_option id length].
      split; [done|]. split; [lia|]. split; [done|]. split; [done|].
      split; [done|]. split; [done|]. split; [done|]. split; [lia|].
      split; constructor. }
  pose proof (observe_presence now_iso now_ts address name rssi source before)
    as Ho.
  cbv zeta in Ho. fold obs in Ho.
  destruct Ho as (Hp & Holl & _ & Hoet & _ & Hoec & Holc & Horc & _).
  pose proof (observe_seen_count now_iso now_ts address name rssi source before)
    as Hsc.
  pose proof (observe_last_seen_ts now_iso now_ts address name rssi source
                before) as Hst.
  pose proof (observe_identity now_iso now_ts address name rssi source before)
    as Hid.
  cbv zeta in Hid. destruct Hid as (Hofp & _).
  pose proof (observe_last_events now_iso now_ts address name rssi source
                before) as Hoev.
  pose proof (observe_addresses now_iso now_ts address name rssi source before)
    as Hoad.
  pose proof (observe_names_seen now_iso now_ts address name rssi source
                before) as Hona.
  pose proof (append_fresh address (addresses before)) as Haf.
  pose proof (append_fresh name (names_seen before)) as Hnf.
  cbv zeta in Haf, Hnf. destruct Haf as (Haf & _). destruct Hnf as (Hnf & _).
  fold obs in Hsc, Hst, Hofp, Hoev, Hoad, Hona.
  pose proof (enter_observations now_iso now_ts address name rssi
                (sighting_fp mfg_data su sk)
                (compute_fingerprint (Some (mfg_keys mfg_data)) su sk).2 obs)
    as Heo.
  cbv zeta in Heo. destruct Heo as (Heev & Head & Hena & Hefp & _).
  assert (Hobs_ev : (length (last_events obs) ≤ MAX_LAST_EVENTS)%nat).
  { rewrite Hoev, length_drop, length_app. unfold MAX_LAST_EVENTS. simpl. lia. }
  unfold consistent. rewrite Heev, Head, Hena, Hefp, Hofp, Hoad, Hona.
  unfold count in *.
  destruct (present obs) eqn:Hpo.
  - rewrite (enter_present _ _ _ _ _ _ _ _ Hpo). cbn [fst].
    rewrite Hpo, Hsc, Hst, Hoec, Holc, Horc, Holl, Hoet.
    rewrite <-Hp in Hel, Het. cbn [from_option]; unfold id in *.
    assert (is_Some (last_enter_ts before)) as Hsome by by apply Het.
    split; [done|]. split; [lia|]. split; [lia|]. split; [lia|].
    split; [done|]. split; [done|]. split; [done|]. split; [eauto|].
    split; [done|]. split; [by apply Haf | by apply Hnf].
  - pose proof (enter_absent now_iso now_ts address name rssi
                  (sighting_fp mfg_data su sk)
                  (compute_fingerprint (Some (mfg_keys mfg_data)) su sk).2
                  _ Hpo) as Hen.
    cbv zeta in Hen.
    destruct Hen as (H1 & H2 & H3 & _ & H5 & H6 & H7 & H8 & _ & H10 & _).
    rewrite H1, H2, H3, H5, H6, H7, H8, H10.
    rewrite Hsc, Hst, Hoec, Holc, Horc, Holl.
    rewrite <-Hp in Hel. unfold count in *. cbn [from_option]; unfold id in *.
    split; [done|]. split; [lia|]. split; [lia|].
    split.
    { destruct (last_left before) eqn:Hlast; cbn [from_option].
      - assert (from_option (λ x : Z, x) 0 (leave_count before) ≠ 0).
        { intros H0. by apply Hll in H0. }
        lia.
      - assert (from_option (λ x : Z, x) 0 (leave_count before) = 0)
          by by apply Hll.
        lia. }
    split; [done|]. split; [done|]. split; [eauto|]. split; [eauto|].
    split; [done|]. split; [by apply Haf | by apply Hnf].
Qed.
(** X9: the bookkeeping stays consistent over every run of upserts and
    sweeps.  If every registered record is consistent (as in an empty
    registry), then so is every record after the run: filed under its own
    fingerprint, entered once more than it left exactly while present,
    re-entered on every enter but the first, seen at least as often as
    entered, with a leave time exactly when it has left, an enter epoch,
    at most [MAX_LAST_EVENTS] events and no duplicate address or name. *)
Theorem run_ops_consistent ops self self' :
  (∀ k rec, devices (registry self) !! k = Some rec → consistent k rec) →
  run_ops self ops = Ok self' →
  ∀ k rec, devices (registry self') !! k = Some rec → consistent k rec.
Proof.
  revert self. induction ops as [|o ops IH]; intros self Hall Hrun.
  - simpl in Hrun. by simplify_eq.
  - simpl in Hrun.
    destruct (apply_op self o) as [self1|] eqn:Hop; simplify_eq/=.
    apply (IH self1); [|done]. clear IH Hrun.
    destruct o as [iso ts address name rssi mfg_data su sk source|ts iso];
      simpl in Hop.
    + simplify_eq. by apply upsert_consistent.
    + intros k rec1 Hl1.
      apply mark_left_if_stale_devices in Hop as [d Hsw].
      destruct (devices (registry self) !! k) as [rec|] eqn:Hl.
      * destruct (sweep_devices_lookup _ _ _ _ _ _ _ _ Hsw Hl)
          as (rec' & Hm & Hl').
        assert (rec' = rec1) as -> by congruence.
        eapply mark_left_rec_consistent; eauto.
      * rewrite (sweep_devices_lookup_None _ _ _ _ _ _ _ Hsw Hl) in Hl1.
        done.
Qed.

Lemma run_ops_consistent_witness :
  let ops :=
    [ OpUpsert "1970-01-01T00:15:00Z" 900%Q (Some "AA:BB:CC:DD:EE:FF") None
               (Some (-60)) (Some {[ 76 := [] ]}) None None None;
      OpSweep 1030%Q "1970-01-01T00:17:10Z";
      OpUpsert "1970-01-01T00:20:00Z" 1200%Q (Some "AA:BB:CC:DD:EE:FF") None
               (Some (-55)) (Some {[ 76 := [] ]}) None None None ] in
  (∀ k rec, devices (registry (sample_logger ∅)) !! k = Some rec →
            consistent k rec) ∧
  ∃ self' rec,
    run_ops (sample_logger ∅) ops = Ok self' ∧
    devices (registry self') !! "ea096de977f0" = Some rec ∧
    consistent "ea096de977f0" rec.
Proof.
  intros ops.
  assert (H0 : ∀ k rec, devices (registry (sample_logger ∅)) !! k = Some rec →
                        consistent k rec).
  { intros k rec Hl. simpl in Hl. by rewrite lookup_empty in Hl. }
  split; [exact H0|]. eexists _, _.
  split; [vm_compute; reflexivity|]. split; [vm_compute; reflexivity|].
  eapply (run_ops_consistent ops (sample_logger ∅) _ H0).
  - vm_compute. reflexivity.
  - vm_compute. reflexivity.
Defined.

(** ** Runs that return *)

Lemma mark_left_rec_enter_in_calendar now_ts now_iso rec rec' t :
  mark_left_rec now_ts now_iso rec = Ok (rec', t) →
  enter_in_calendar rec → enter_in_calendar rec'.
Proof.
  intros Hm. unfold enter_in_calendar.
  destruct (mark_left_rec_frame _ _ _ _ _ Hm) as (_ & _ & _ & _ & -> & _).
  done.
Qed.



(** A sweep raises when a present record entered outside the calendar. *)
Example sweep_outside_calendar_raises :
  run_ops (sample_logger ∅)
    [ OpUpsert "x" 253402300800%Q None None None None None None None;
      OpSweep 253402300920%Q "y" ]
  = Raise ValueError.
Proof. vm_compute. reflexivity. Qed.

(** ** Staleness sweep: the rest of the logger *)

Lemma sweep_devices_dirty now_ts now_iso ds dirty0 ds' d :
  sweep_devices now_ts now_iso ds dirty0 = Ok (ds', d) →
  d = true ↔ dirty0 = true ∨
             ∃ fp rec, ds !! fp = Some rec ∧ is_stale now_ts rec = true.
Proof.
  intros Hsw. pose proof (sweep_devices_spec now_ts now_iso ds dirty0) as Hspec.
  rewrite Hsw in Hspec. by destruct Hspec as (_ & _ & Hd).
Qed.

(** X11: a sweep that returns sets [dirty] when it marked a record as left
    and never clears it; it stamps [updated_utc] exactly when [dirty] is set
    afterwards, so also when the logger was dirty and nothing left; the
    registered fingerprints, the other metadata, [path], [last_flush] and
    [stop] are as before. *)
Theorem mark_left_if_stale_frame self now_ts now_iso self' :
  mark_left_if_stale self now_ts now_iso = Ok self' →
  (dirty self' = true ↔
   dirty self = true ∨
   ∃ fp rec, devices (registry self) !! fp = Some rec ∧
             is_stale now_ts rec = true) ∧
  updated_utc (meta (registry self'))
  = (if dirty self' then Some now_iso
     else updated_utc (meta (registry self))) ∧
  created_utc (meta (registry self')) = created_utc (meta (registry self)) ∧
  adapter (meta (registry self')) = adapter (meta (registry self)) ∧
  leave_timeout_sec (meta (registry self'))
  = leave_timeout_sec (meta (registry self)) ∧
  (∀ fp, is_Some (devices (registry self') !! fp)
         ↔ is_Some (devices (registry self) !! fp)) ∧
  path self' = path self ∧ last_flush self' = last_flush self ∧
  stop self' = stop self.
Proof.
  unfold mark_left_if_stale.
  destruct (sweep_devices _ _ _ _) as [[ds d]|e] eqn:Hsw;
    cbn [mbind Exc_bind]; [|done].
  intros [= <-]. cbn [dirty registry meta devices path last_flush stop].
  split; [by eapply sweep_devices_dirty|].
  split; [by destruct d|]. split; [by destruct d|]. split; [by destruct d|].
  split; [by destruct d|]. split; [|done].
  intros fp. destruct (devices (registry self) !! fp) as [rec|] eqn:Hl.
  - destruct (sweep_devices_lookup _ _ _ _ _ _ _ _ Hsw Hl) as (rec' & _ & ->).
    split; eauto.
  - rewrite (sweep_devices_lookup_None _ _ _ _ _ _ _ Hsw Hl).
    split; by intros [? ?].
Qed.

Lemma mark_left_if_stale_frame_witness :
  let self :=
    sample_logger
      {[ "fp0" := sample_rec "fp0" true (Some 1000%Q) (Some 900%Q) ]} in
  ∃ self',
    mark_left_if_stale self 1120%Q "1970-01-01T00:18:40Z" = Ok self' ∧
    updated_utc (meta (registry self'))
    = (if dirty self' then Some "1970-01-01T00:18:40Z"
       else updated_utc (meta (registry self))).
Proof.
  intros self.
  assert (∃ self', mark_left_if_stale self 1120%Q "1970-01-01T00:18:40Z"
                   = Ok self') as [self' Hrun].
  { eexists. vm_compute. reflexivity. }
  exists self'. split; [exact Hrun|].
  exact (proj1 (proj2 (mark_left_if_stale_frame _ _ _ _ Hrun))).
Defined.

Lemma is_stale_earlier now_ts now2 rec :
  (now2 <= now_ts)%Q → is_stale now2 rec = true → is_stale now_ts rec = true.
Proof.
  rewrite !is_stale_iff. intros Hle (Hp & Hpos & Hto).
  split; [done|]. split; [done|].
  eapply Qle_trans; [exact Hto|].
  apply Qplus_le_l. exact Hle.
Qed.

(** No record is stale once the sweep has passed, at the time of the sweep
    or any time before it. *)
Lemma mark_left_rec_settled now_ts now_iso now2 rec rec' t :
  mark_left_rec now_ts now_iso rec = Ok (rec', t) →
  (now2 <= now_ts)%Q → is_stale now2 rec' = false.
Proof.
  intros Hm Hle. destruct (is_stale now_ts rec) eqn:Hs.
  - rewrite mark_left_rec_stale in Hm by done.
    destruct (_update_presence_time _ _) as [r|] eqn:Hu;
      cbn [mbind Exc_bind] in Hm; [|done].
    injection Hm as <- <-.
    destruct (update_presence_time_frame _ _ _ Hu) as (Hp & _).
    unfold is_stale. rewrite Hp. reflexivity.
  - rewrite mark_left_rec_fresh in Hm by done. injection Hm as <- <-.
    destruct (is_stale now2 rec) eqn:Hs2; [|done].
    apply (is_stale_earlier now_ts) in Hs2; [congruence|done].
Qed.

Lemma sweep_devices_fresh now_ts now_iso ds dirty0 :
  (∀ fp rec, ds !! fp = Some rec → is_stale now_ts rec = false) →
  sweep_devices now_ts now_iso ds dirty0 = Ok (ds, dirty0).
Proof.
  intros Hall.
  pose proof (sweep_devices_spec now_ts now_iso ds dirty0) as Hspec.
  destruct (sweep_devices now_ts now_iso ds dirty0) as [[ds' d]|e].
  - destruct Hspec as (Hlk & _ & Hd). f_equal. f_equal.
    + apply map_eq. intros fp. rewrite Hlk.
      destruct (ds !! fp) as [rec|] eqn:Hl; [|done]. cbn [mbind option_bind].
      by rewrite mark_left_rec_fresh by eauto.
    + destruct d, dirty0; try done.
      * destruct Hd as [Hd _].
        destruct (Hd eq_refl) as [?|(fp & rec & Hl & Hs)]; [done|].
        rewrite (Hall _ _ Hl) in Hs. done.
      * destruct Hd as [_ Hd]. apply Hd. by left.
  - destruct Hspec as (fp & rec & Hl & Hr).
    rewrite mark_left_rec_fresh in Hr by eauto. done.
Qed.

(** X12: a second sweep at the time of the first, or before it, marks no
    record: it returns, the device records, [dirty] and the rest of the
    logger are those the first sweep left, and only [updated_utc] is stamped
    again when the logger is dirty. *)
Theorem mark_left_if_stale_twice self now_ts now_iso self' now2 iso2 :
  mark_left_if_stale self now_ts now_iso = Ok self' →
  (now2 <= now_ts)%Q →
  mark_left_if_stale self' now2 iso2
  = Ok (mkLogger (path self')
          (mkRegistry
             (if dirty self' then set_updated_utc (Some iso2) (meta (registry self'))
              else meta (registry self'))
             (devices (registry self')))
          (dirty self') (last_flush self') (stop self')).
Proof.
  intros Hrun Hle. unfold mark_left_if_stale at 1.
  rewrite sweep_devices_fresh; [reflexivity|].
  intros fp rec' Hl'.
  apply mark_left_if_stale_devices in Hrun as [d Hsw].
  destruct (devices (registry self) !! fp) as [rec|] eqn:Hl.
  - destruct (sweep_devices_lookup _ _ _ _ _ _ _ _ Hsw Hl) as (r & Hm & Hr).
    assert (r = rec') as -> by congruence.
    eapply mark_left_rec_settled; eauto.
  - rewrite (sweep_devices_lookup_None _ _ _ _ _ _ _ Hsw Hl) in Hl'. done.
Qed.

Lemma mark_left_if_stale_twice_witness :
  let self :=
    sample_logger
      {[ "fp0" := sample_rec "fp0" true (Some 1000%Q) (Some 900%Q) ]} in
  ∃ self',
    mark_left_if_stale self 1120%Q "1970-01-01T00:18:40Z" = Ok self' ∧
    (1120 <= 1120)%Q ∧
    ∃ self'', mark_left_if_stale self' 1120%Q "1970-01-01T00:18:41Z" = Ok self'' ∧
              devices (registry self'') = devices (registry self').
Proof.
  intros self.
  assert (∃ self', mark_left_if_stale self 1120%Q "1970-01-01T00:18:40Z"
                   = Ok self') as [self' Hrun].
  { eexists. vm_compute. reflexivity. }
  exists self'. split; [exact Hrun|]. split; [apply Qle_refl|].
  eexists. split.
  - exact (mark_left_if_stale_twice _ _ _ _ 1120%Q "1970-01-01T00:18:41Z"
             Hrun (Qle_refl _)).
  - reflexivity.
Defined.

(** ** A sighting and the sweep after it *)

(** The record an upsert leaves is present and last seen at the upsert. *)
Lemma record_after_present self now_iso now_ts address name rssi mfg_data su sk
    source :
  ∃ rec, record_after self now_iso now_ts address name rssi mfg_data su sk
           source = Some rec ∧
         present rec = true ∧ last_seen_ts rec = Some now_ts.
Proof.
  rewrite record_after_eq. eexists. split; [reflexivity|].
  set (obs := observe _ _ _ _ _ _ _).
  pose proof (observe_last_seen_ts now_iso now_ts address name rssi source
                (record_before (devices (registry self)) now_iso mfg_data su sk))
    as Hst.
  fold obs in Hst.
  destruct (present obs) eqn:Hp.
  - rewrite (enter_present _ _ _ _ _ _ _ _ Hp). cbn [fst]. done.
  - pose proof (enter_absent now_iso now_ts address name rssi
                  (sighting_fp mfg_data su sk)
                  (compute_fingerprint (Some (mfg_keys mfg_data)) su sk).2
                  _ Hp) as Hen.
    cbv zeta in Hen.
    destruct Hen as (H1 & _ & _ & _ & _ & _ & _ & _ & _ & H10 & _).
    split; [exact H1|]. by rewrite H10.
Qed.

(** X13: a sighting keeps its device present for [LEAVE_TIMEOUT] seconds.
    The sweep that follows an upsert at [now_ts] leaves the sighted record
    as the upsert left it when it runs less than 120 seconds later (or when
    [now_ts] is not positive), and marks it as left when it runs 120 seconds
    later or more. *)
Theorem upsert_then_sweep self now_iso now_ts address name rssi mfg_data su sk
    source sweep_ts sweep_iso self2 :
  mark_left_if_stale
    (upsert self now_iso now_ts address name rssi mfg_data su sk source).1
    sweep_ts sweep_iso = Ok self2 →
  ∃ rec1 rec2,
    record_after self now_iso now_ts address name rssi mfg_data su sk source
    = Some rec1 ∧
    devices (registry self2) !! sighting_fp mfg_data su sk = Some rec2 ∧
    present rec1 = true ∧
    (present rec2 = false ↔
     (0 < now_ts)%Q ∧ (inject_Z LEAVE_TIMEOUT <= sweep_ts - now_ts)%Q) ∧
    (present rec2 = true → rec2 = rec1) ∧
    (present rec2 = false →
     last_left rec2 = Some sweep_iso ∧
     leave_count rec2 = Some (count (leave_count rec1) + 1)).
Proof.
  intros Hrun.
  destruct (record_after_present self now_iso now_ts address name rssi mfg_data
              su sk source) as (rec1 & Hl & Hp & Hst).
  unfold record_after in Hl.
  destruct (mark_left_if_stale_lookup _ _ _ _ _ _ Hrun Hl) as (rec2 & Hm & Hl2).
  exists rec1, rec2. split; [exact Hl|]. split; [exact Hl2|]. split; [exact Hp|].
  assert (Hiff : is_stale sweep_ts rec1 = true ↔
                 (0 < now_ts)%Q ∧ (inject_Z LEAVE_TIMEOUT <= sweep_ts - now_ts)%Q).
  { rewrite is_stale_iff. unfold epoch. rewrite Hst. cbn [default from_option].
    unfold id. tauto. }
  destruct (is_stale sweep_ts rec1) eqn:Hs.
  - rewrite mark_left_rec_stale in Hm by done.
    destruct (_update_presence_time _ _) as [r|] eqn:Hu;
      cbn [mbind Exc_bind] in Hm; [|done].
    injection Hm as ->.
    destruct (update_presence_time_frame _ _ _ Hu) as (Hp2 & Hll & Hlc & _).
    cbn [stamp_left] in Hp2, Hll, Hlc.
    change (present (stamp_left sweep_iso rec1)) with false in Hp2.
    change (last_left (stamp_left sweep_iso rec1)) with (Some sweep_iso) in Hll.
    change (leave_count (stamp_left sweep_iso rec1))
      with (Some (count (leave_count rec1) + 1)) in Hlc.
    split; [|split].
    + split; [intros _; by apply Hiff | done].
    + rewrite Hp2. done.
    + done.
  - rewrite mark_left_rec_fresh in Hm by done. injection Hm as <-.
    split; [|split].
    + rewrite Hp. split; [done|]. intros H. apply Hiff in H. done.
    + done.
    + rewrite Hp. done.
Qed.

Lemma upsert_then_sweep_witness :
  let self := sample_logger ∅ in
  let self1 :=
    (upsert self "1970-01-01T00:15:00Z" 900%Q (Some "AA:BB:CC:DD:EE:FF") None
            (Some (-60)) (Some {[ 76 := [] ]}) None None None).1 in
  ∃ self2,
    mark_left_if_stale self1 1020%Q "1970-01-01T00:17:00Z" = Ok self2 ∧
    ∃ rec2,
      devices (registry self2) !! "ea096de977f0" = Some rec2 ∧
      (present rec2 = false ↔
       (0 < 900)%Q ∧ (inject_Z LEAVE_TIMEOUT <= 1020 - 900)%Q).
Proof.
  intros self self1.
  assert (∃ self2, mark_left_if_stale self1 1020%Q "1970-01-01T00:17:00Z"
                   = Ok self2) as [self2 Hrun].
  { eexists. vm_compute. reflexivity. }
  exists self2. split; [exact Hrun|].
  destruct (upsert_then_sweep _ _ _ _ _ _ _ _ _ _ _ _ _ Hrun)
    as (rec1 & rec2 & _ & Hl2 & _ & Hiff & _).
  exists rec2. split; [|exact Hiff].
  assert (Hfp : sighting_fp (Some {[ 76 := [] ]}) None None = "ea096de977f0")
    by (vm_compute; reflexivity).
  rewrite Hfp in Hl2. exact Hl2.
Defined.

(** ** The logger on the registry document *)

Lemma has_key_dict_get k d : has_key k d = true ↔ is_Some (dict_get k d).
Proof.
  unfold has_key. rewrite py_in_iff.
  induction d as [|[k' v] d IH]; cbn [fmap list_fmap fst dict_get].
  - rewrite elem_of_nil. split; [done|]. by intros [? ?].
  - rewrite elem_of_cons. case_bool_decide as Hk.
    + split; [eauto|]. intros _. by left.
    + rewrite <-IH. split; [|by right]. intros [?|?]; [done|assumption].
Qed.

Lemma has_key_false k d : has_key k d = false ↔ dict_get k d = None.
Proof.
  rewrite <-not_true_iff_false, has_key_dict_get, <-eq_None_not_Some. done.
Qed.

Lemma dict_get_app k d e :
  dict_get k (d ++ e)
  = match dict_get k d with Some v => Some v | None => dict_get k e end.
Proof.
  induction d as [|[k' v] d IH]; cbn [app dict_get]; [done|].
  by case_bool_decide.
Qed.

Lemma dict_get_setdefault k' k v d :
  dict_get k' (setdefault k v d)
  = match dict_get k' d with
    | Some x => Some x
    | None => if bool_decide (k' = k) then Some v else None
    end.
Proof.
  unfold setdefault. destruct (has_key k d) eqn:Hk.
  - destruct (dict_get k' d) eqn:Hg; [done|].
    case_bool_decide as Heq; [|done]. subst k'.
    apply has_key_dict_get in Hk as [x Hx]. congruence.
  - rewrite dict_get_app. cbn [dict_get]. by destruct (dict_get k' d).
Qed.

Lemma setdefault_present k v d : has_key k d = true → setdefault k v d = d.
Proof. unfold setdefault. by intros ->. Qed.

Lemma setdefault_prefix k v d : d `prefix_of` setdefault k v d.
Proof.
  unfold setdefault. destruct (has_key k d); [done|]. by apply prefix_app_r.
Qed.

Lemma has_key_setdefault k' k v d :
  has_key k' d = true → has_key k' (setdefault k v d) = true.
Proof.
  rewrite !has_key_dict_get, dict_get_setdefault. by intros [x ->].
Qed.

Lemma has_key_setdefault_eq k v d : has_key k (setdefault k v d) = true.
Proof.
  rewrite has_key_dict_get, dict_get_setdefault.
  destruct (dict_get k d); [eauto|]. rewrite bool_decide_eq_true_2 by done. eauto.
Qed.

Lemma dict_get_dict_set k' k v d :
  dict_get k' (dict_set k v d)
  = if bool_decide (k' = k) then Some v else dict_get k' d.
Proof.
  induction d as [|[k0 v0] d IH]; cbn [dict_set dict_get].
  - done.
  - destruct (bool_decide (k = k0)) eqn:Hk0; cbn [dict_get].
    + apply bool_decide_eq_true in Hk0 as <-. by case_bool_decide.
    + apply bool_decide_eq_false in Hk0. rewrite IH.
      repeat case_bool_decide; congruence.
Qed.

Lemma migrate_rec_idempotent rec rec' :
  migrate_rec rec = Done rec' → migrate_rec rec' = Done rec'.
Proof.
  destruct rec as [| | | | | |members]; try done.
  intros [= <-].
  set (members' := setdefault "presence_by_day" _ _).
  assert (Hall : Forall (λ k, has_key k members' = true) presence_defaults.*1).
  { subst members'. unfold presence_defaults. cbn [fmap list_fmap fst].
    repeat (apply Forall_cons; split;
            [repeat first [ apply has_key_setdefault_eq
                          | apply has_key_setdefault ]|]).
    apply Forall_nil_2. }
  clearbody members'. unfold presence_defaults in Hall.
  cbn [fmap list_fmap fst] in Hall.
  repeat match type of Hall with
         | Forall _ (_ :: _) => apply Forall_cons in Hall as [? Hall]
         end.
  unfold migrate_rec.
  rewrite (setdefault_present "present") by assumption.
  rewrite (setdefault_present "last_seen_ts") by assumption.
  rewrite (setdefault_present "last_left") by assumption.
  rewrite (setdefault_present "last_enter") by assumption.
  rewrite (setdefault_present "enter_count") by assumption.
  rewrite (setdefault_present "leave_count") by assumption.
  rewrite (setdefault_present "reenter_count") by assumption.
  rewrite (setdefault_present "last_enter_ts") by assumption.
  rewrite (setdefault_present "last_left_ts") by assumption.
  rewrite (setdefault_present "presence_by_day") by assumption.
  reflexivity.
Qed.

(** X14: the migration of one device record.  A record that is a dict
    keeps every key it has, with its value and its position; the ten
    presence keys it lacks are appended with their defaults; migrating the
    result again changes nothing.  A record that is not a dict raises
    [AttributeError]. *)
Theorem migrate_rec_spec (rec : json) :
  match rec with
  | JObj members =>
      ∃ members',
        migrate_rec rec = Done (JObj members') ∧
        members `prefix_of` members' ∧
        (∀ k, dict_get k members'
              = match dict_get k members with
                | Some v => Some v
                | None => dict_get k presence_defaults
                end) ∧
        migrate_rec (JObj members') = Done (JObj members')
  | _ => migrate_rec rec = Fail AttributeError
  end.
Proof.
  destruct rec as [| | | | | |members]; try reflexivity.
  eexists. split; [reflexivity|]. split; [|split].
  - repeat (etrans; [|apply setdefault_prefix]). done.
  - intros k. rewrite !dict_get_setdefault.
    destruct (dict_get k members); [done|].
    unfold presence_defaults. cbn [dict_get].
    repeat (case_bool_decide; [done|]). done.
  - by apply (migrate_rec_idempotent (JObj members)).
Qed.

(** The devices migrate exactly when each of them is a dict. *)
Lemma migrate_devices_returns ds :
  (∃ ds', migrate_devices ds = Done ds') ↔ Forall (λ kv, is_dict kv.2 = true) ds.
Proof.
  induction ds as [|[fp rec] ds IH]; cbn [migrate_devices].
  - split; [by constructor | eauto].
  - rewrite Forall_cons, <-IH. cbn [snd].
    destruct rec; cbn [migrate_rec mbind Outcome_bind is_dict];
      try (split; [by intros [? ?] | by intros [? _]]).
    destruct (migrate_devices ds) as [ds'|f]; cbn [mbind Outcome_bind].
    + split; eauto.
    + split; [by intros [? ?] | by intros [_ [? ?]]].
Qed.

Lemma migrate_devices_fails ds f : migrate_devices ds = Fail f → f = AttributeError.
Proof.
  induction ds as [|[fp rec] ds IH]; cbn [migrate_devices]; [done|].
  destruct rec; cbn [migrate_rec mbind Outcome_bind]; try by intros [= <-].
  destruct (migrate_devices ds) as [ds'|f']; cbn [mbind Outcome_bind]; [done|].
  intros [= <-]. by apply IH.
Qed.

(** X15: the constructor returns exactly when the document
    [load_registry] hands it has a dict under [meta], a dict under
    [devices] and only dicts in it; otherwise it raises, [TypeError] when
    [meta] is not a dict and [AttributeError] else.  When it returns, the
    logger is dirty, [meta] holds the three stamps, and every other top-level
    key is as loaded. *)
Theorem init_returns fs depth path load_iso now now_iso :
  ∃ registry,
    load_registry fs depth path load_iso = Ok (JObj registry) ∧
    match __init__ fs depth path load_iso now now_iso with
    | Done self =>
        well_shaped registry ∧
        doc_path self = path ∧ doc_dirty self = true ∧
        doc_last_flush self = now ∧ doc_stop self = false ∧
        (∃ meta meta',
           dict_get "meta" registry = Some (JObj meta) ∧
           dict_get "meta" (doc_registry self) = Some (JObj meta') ∧
           dict_get "updated_utc" meta' = Some (JStr now_iso) ∧
           dict_get "adapter" meta' = Some (JStr BLE_ADAPTER) ∧
           dict_get "leave_timeout_sec" meta' = Some (JInt LEAVE_TIMEOUT) ∧
           ∀ k, k ≠ "updated_utc" → k ≠ "adapter" → k ≠ "leave_timeout_sec" →
                dict_get k meta' = dict_get k meta) ∧
        (∀ k, k ≠ "meta" → k ≠ "devices" →
              dict_get k (doc_registry self) = dict_get k registry)
    | Fail f =>
        ¬ well_shaped registry ∧
        f = (if is_dict (default JNull (dict_get "meta" registry))
             then AttributeError else TypeError)
    end.
Proof.
  destruct (load_registry_shape fs depth path load_iso)
    as (registry & Hload & Hm & Hd).
  fold (has_key "meta" registry) in Hm. fold (has_key "devices" registry) in Hd.
  exists registry. split; [exact Hload|].
  unfold __init__. rewrite Hload.
  rewrite (setdefault_present "meta") by exact Hm.
  rewrite (setdefault_present "devices") by exact Hd.
  destruct (dict_get "meta" registry) as [m|] eqn:Hgm.
  2:{ apply has_key_dict_get in Hm as [? ?]. congruence. }
  assert (Hnm : is_dict m = false → ¬ well_shaped registry).
  { intros Hnd [[meta Hmeta] _]. rewrite Hgm in Hmeta.
    injection Hmeta as ->. done. }
  destruct m as [| | | | | |meta]; try (split; [by apply Hnm | done]).
  clear Hnm. cbn [default from_option is_dict].
  unfold _migrate_presence_fields. rewrite dict_get_dict_set.
  rewrite bool_decide_eq_false_2 by done.
  destruct (dict_get "devices" registry) as [dv|] eqn:Hgd.
  2:{ apply has_key_dict_get in Hd as [? ?]. congruence. }
  assert (Hnd : is_dict dv = false → ¬ well_shaped registry).
  { intros Hnd (_ & ds & Hds & _). rewrite Hgd in Hds.
    injection Hds as ->. done. }
  destruct dv as [| | | | | |ds];
    try (cbn [mbind Outcome_bind]; split; [by apply Hnd | done]).
  clear Hnd.
  pose proof (migrate_devices_returns ds) as Hret.
  destruct (migrate_devices ds) as [ds'|f] eqn:Hmig; cbn [mbind Outcome_bind].
  - cbn [doc_path doc_dirty doc_last_flush doc_stop doc_registry].
    split.
    { split; [eauto|]. exists ds. split; [done|]. apply Hret. eauto. }
    do 4 (split; [done|]). split.
    + eexists meta, _. split; [done|]. split.
      { rewrite dict_get_dict_set, bool_decide_eq_false_2 by done.
        rewrite dict_get_dict_set, bool_decide_eq_true_2 by done. done. }
      rewrite !dict_get_dict_set.
      split; [done|]. split; [done|]. split; [done|].
      intros k H1 H2 H3. rewrite !dict_get_dict_set.
      by rewrite !bool_decide_eq_false_2 by done.
    + intros k H1 H2. rewrite !dict_get_dict_set.
      by rewrite !bool_decide_eq_false_2 by done.
  - split.
    + intros (_ & ds0 & Hds & Hall). rewrite Hgd in Hds. injection Hds as <-.
      apply Hret in Hall as [? ?]. done.
    + by apply migrate_devices_fails in Hmig.
Qed.

(** A file that parses but holds a number under [meta] makes the
    constructor raise. *)
Example init_meta_not_a_dict :
  __init__ {[ "/home/bluelog.json"
              := Text ("{" +:+ char 34 +:+ "meta" +:+ char 34 +:+ ": 1}") ]}
           990 "/home/bluelog.json" "2024-01-01T00:00:00Z" 0%Q
           "2024-01-01T00:00:01Z"
  = Fail TypeError.
Proof. vm_compute. reflexivity. Qed.

(** X16: on a file [load_registry] cannot use, the constructor returns a
    dirty logger on the fresh registry: no device, and metadata that holds
    the creation time, the update time, the adapter and the leave
    timeout. *)
Theorem init_unusable fs depth path load_iso now now_iso :
  unusable fs depth path →
  __init__ fs depth path load_iso now now_iso
  = Done (mkLoggerDoc path
            [("meta", JObj [("created_utc", JStr load_iso);
                            ("updated_utc", JStr now_iso);
                            ("adapter", JStr "hci1");
                            ("leave_timeout_sec", JInt 120)]);
             ("devices", JObj [])]
            true now false).
Proof.
  intros Hu. unfold __init__. rewrite (load_registry_unusable _ _ _ _ Hu).
  reflexivity.
Qed.

Lemma init_unusable_witness :
  let fs : gmap string file :=
    {[ "/home/bluelog.json" := Text (utf8 0xA0 +:+ utf8 0x3000) ]} in
  unusable fs 990 "/home/bluelog.json" ∧
  ∃ self,
    __init__ fs 990 "/home/bluelog.json" "2024-01-01T00:00:00Z" 0%Q
             "2024-01-01T00:00:01Z" = Done self ∧
    doc_dirty self = true.
Proof.
  intros fs.
  assert (H : unusable fs 990 "/home/bluelog.json").
  { eapply file_blank; [vm_compute; reflexivity|].
    apply strip_empty_iff. vm_compute. reflexivity. }
  split; [exact H|]. eexists. split.
  - exact (init_unusable fs 990 "/home/bluelog.json" "2024-01-01T00:00:00Z"
             0%Q "2024-01-01T00:00:01Z" H).
  - reflexivity.
Defined.

(** A document between no-break spaces is what the constructor starts
    from. *)
Example init_between_nbsp :
  doc_registry <$>
    match __init__
            {[ "/home/bluelog.json"
               := Text (utf8 0xA0 +:+ "{" +:+ char 34 +:+ "devices" +:+ char 34
                        +:+ ": {}}" +:+ utf8 0xA0) ]}
            990 "/home/bluelog.json" "2024-01-01T00:00:00Z" 0%Q
            "2024-01-01T00:00:01Z" with
    | Done self => Some self
    | Fail _ => None
    end
  = Some [("devices", JObj []);
          ("meta", JObj [("updated_utc", JStr "2024-01-01T00:00:01Z");
                         ("adapter", JStr "hci1");
                         ("leave_timeout_sec", JInt 120)])].
Proof. vm_compute. reflexivity. Qed.

Lemma migrate_devices_idempotent ds ds' :
  migrate_devices ds = Done ds' →
  migrate_devices ds' = Done ds' ∧ ds'.*1 = ds.*1.
Proof.
  revert ds'. induction ds as [|[fp rec] ds IH]; intros ds';
    cbn [migrate_devices].
  - by intros [= <-].
  - destruct (migrate_rec rec) as [rec'|] eqn:Hrec; cbn [mbind Outcome_bind];
      [|done].
    destruct (migrate_devices ds) as [ds0|] eqn:Hds; cbn [mbind Outcome_bind];
      [|done].
    intros [= <-]. destruct (IH ds0 eq_refl) as [IH1 IH2].
    cbn [migrate_devices fmap list_fmap fst].
    rewrite (migrate_rec_idempotent _ _ Hrec). cbn [mbind Outcome_bind].
    rewrite IH1. cbn [mbind Outcome_bind].
    split; [done|]. f_equal. exact IH2.
Qed.

Lemma dict_set_twice k v d : dict_set k v (dict_set k v d) = dict_set k v d.
Proof.
  induction d as [|[k0 v0] d IH]; cbn [dict_set].
  - by rewrite bool_decide_eq_true_2.
  - destruct (bool_decide (k = k0)) eqn:Hk; cbn [dict_set].
    + by rewrite bool_decide_eq_true_2.
    + rewrite Hk. by rewrite IH.
Qed.

(** X17: [_migrate_presence_fields] is idempotent: on the registry a
    migration has returned, a second one returns the same registry. *)
Theorem migrate_presence_fields_idempotent registry registry' :
  _migrate_presence_fields registry = Done registry' →
  _migrate_presence_fields registry' = Done registry'.
Proof.
  unfold _migrate_presence_fields at 1.
  destruct (dict_get "devices" registry) as [dv|] eqn:Hd.
  - destruct dv as [| | | | | |ds]; try done.
    destruct (migrate_devices ds) as [ds'|] eqn:Hds; cbn [mbind Outcome_bind];
      [|done].
    intros [= <-]. unfold _migrate_presence_fields.
    rewrite dict_get_dict_set, bool_decide_eq_true_2 by done.
    destruct (migrate_devices_idempotent _ _ Hds) as [-> _].
    cbn [mbind Outcome_bind]. by rewrite dict_set_twice.
  - intros [= <-]. unfold _migrate_presence_fields. by rewrite Hd.
Qed.

Lemma migrate_presence_fields_idempotent_witness :
  let registry :=
    [("devices", JObj [("ea096de977f0", JObj [("present", JBool true)])])] in
  ∃ registry',
    _migrate_presence_fields registry = Done registry' ∧
    _migrate_presence_fields registry' = Done registry'.
Proof.
  intros registry.
  assert (∃ registry', _migrate_presence_fields registry = Done registry')
    as [registry' H].
  { eexists. vm_compute. reflexivity. }
  exists registry'. split; [exact H|].
  exact (migrate_presence_fields_idempotent _ _ H).
Defined.
